(** * SecuriWatch: the authentication-log collectors

    A shallow embedding of [backend/app/collectors/auth_collector.py]
    (class [AuthLogCollector], the console variant) and of
    [backend/app/collectors/auth_collector_db.py] (class
    [AuthLogCollectorDB], the database-backed variant), with the theorems
    that settle the specification's claims about them.

    Python values are modelled as follows.
    - [str] is [string]; a character is an [ascii], read as the code point
      U+0000..U+00FF.  The character classes of [re] and of the [str]
      methods are CPython's Unicode tables restricted to that range.
    - [int] is [Z].
    - [None]-or-value is [option].
    - A call that may raise is a [result]: [Ok v] or [Raise e].
    - The ambient state the code reads (the wall clock, the output of the
      [sudo tail] subprocess, the interpreter's limit on the digits of an
      integer it converts from or to text) is a [world] passed explicitly. *)

From Stdlib Require Import ZArith NArith Lia List Bool Ascii String.
From Stdlib Require Import Sorted Permutation.
From stdpp Require Import base option list gmap strings.
Import ListNotations.

Local Open Scope string_scope.
Local Open Scope list_scope.

(* ===================================================================== *)
(** * Characters and [str] methods                                        *)
(* ===================================================================== *)

Module Py.

Definition code (c : ascii) : N := N_of_ascii c.

Definition between (lo hi : N) (c : ascii) : bool :=
  ((lo <=? code c) && (code c <=? hi))%N.

(** [str.isspace] on one character, also the class [\s] of [re]. *)
Definition isspace (c : ascii) : bool :=
  between 9 13 c || between 28 32 c || between 133 133 c || between 160 160 c.

(** The class [\d] of [re]: the decimal digits. *)
Definition isdecimal (c : ascii) : bool := between 48 57 c.

(** The class [\w] of [re]: alphanumeric characters and the underscore. *)
Definition isword (c : ascii) : bool :=
  between 48 57 c || between 65 90 c || between 95 95 c || between 97 122 c
  || between 170 170 c || between 178 179 c || between 181 181 c
  || between 185 186 c || between 188 190 c || between 192 214 c
  || between 216 246 c || between 248 255 c.

(** [str.lower] on one character. *)
Definition lower_char (c : ascii) : ascii :=
  if between 65 90 c || between 192 214 c || between 216 222 c
  then ascii_of_N (code c + 32)
  else c.

(** [s.lower()] *)
Fixpoint lower (s : string) : string :=
  match s with
  | EmptyString => EmptyString
  | String c t => String (lower_char c) (lower t)
  end.

(** [needle in hay] *)
Fixpoint contains (needle hay : string) : bool :=
  String.prefix needle hay ||
  match hay with
  | EmptyString => false
  | String _ t => contains needle t
  end.

Fixpoint lstrip (s : string) : string :=
  match s with
  | String c t => if isspace c then lstrip t else s
  | EmptyString => EmptyString
  end.

(** [s.strip()] *)
Definition strip (s : string) : string :=
  String.rev (lstrip (String.rev (lstrip s))).

Definition newline : ascii := ascii_of_N 10.

Fixpoint split_go (cur : string) (s : string) : list string :=
  match s with
  | EmptyString => [String.rev cur]
  | String c t =>
      if Ascii.eqb c newline then String.rev cur :: split_go EmptyString t
      else split_go (String c cur) t
  end.

(** [s.split('\n')] *)
Definition split_lines (s : string) : list string := split_go EmptyString s.

Definition digit_val (c : ascii) : Z := Z.of_N (code c - 48).

(** [int(s)] for a string of decimal digits. *)
Definition int_of_digits (s : string) : Z :=
  fold_left (fun acc c => 10 * acc + digit_val c)%Z (list_ascii_of_string s) 0%Z.

(** The number a string of decimal digits stands for, white space around
    it dropped. *)
Definition decimal (s : string) : Z := int_of_digits (strip s).

Definition digit_char (k : Z) : ascii := ascii_of_N (48 + Z.to_N k).

(** The decimal digits of [n >= 0] in front of [acc], most significant
    first; at most [fuel] digits follow the first one. *)
Fixpoint digits (fuel : nat) (n : Z) (acc : string) : string :=
  let acc' := String (digit_char (n mod 10)) acc in
  match fuel with
  | O => acc'
  | S fuel' => if (n <? 10)%Z then acc' else digits fuel' (n / 10) acc'
  end.

(** [str(z)], also [f"{z}"].  The fuel is the number itself, which is more
    than the number of its digits. *)
Definition str_of_int (z : Z) : string :=
  if (z <? 0)%Z then String "-" (digits (Z.to_nat (- z)) (- z) "")
  else digits (Z.to_nat z) z "".

(** ["%0{w}d" % z] for [z >= 0]: decimal, zero-padded on the left to width [w]. *)
Definition zero_pad (w : nat) (z : Z) : string :=
  let d := str_of_int z in
  string_of_list_ascii (repeat "0"%char (w - String.length d)) +:+ d.

(** Truthiness of a [str]: the empty string is falsy. *)
Definition truthy (s : string) : bool :=
  match s with EmptyString => false | _ => true end.

(** Exceptions the modelled code can raise. *)
Inductive exn := ValueError.

Inductive result (A : Type) :=
| Ok (a : A)
| Raise (e : exn).
Arguments Ok {A} a.
Arguments Raise {A} e.

#[global] Instance result_ret : MRet result := fun A a => Ok a.
#[global] Instance result_bind : MBind result := fun A B f m =>
  match m with
  | Ok a => f a
  | Raise e => Raise e
  end.

(** ** [int(s)] on a [str]

    CPython skips white space, reads a sign, then decimal digits with
    single underscores between them, and skips white space again; anything
    else is a [ValueError].  Before it converts the digits it compares
    their number with [sys.get_int_max_str_digits()]. *)

(** The white space [int] skips.  It is not that of [str.strip]: the
    separators U+001C..U+001F are not skipped. *)
Definition int_space (c : ascii) : bool :=
  between 9 13 c || between 32 32 c || between 133 133 c || between 160 160 c.

Fixpoint skip_space (l : list ascii) : list ascii :=
  match l with
  | c :: t => if int_space c then skip_space t else l
  | [] => []
  end.

(** What follows the first digit of a number: the further digits, in
    order, and the text after them; [None] for an underscore that no digit
    follows. *)
Fixpoint int_scan (l : list ascii) : option (list ascii * list ascii) :=
  match l with
  | c :: t =>
      if isdecimal c then
        '(ds, after) ← int_scan t; Some (c :: ds, after)
      else if Ascii.eqb c "_" then
        match t with
        | c' :: t' =>
            if isdecimal c' then
              '(ds, after) ← int_scan t'; Some (c' :: ds, after)
            else None
        | [] => None
        end
      else Some ([], l)
  | [] => Some ([], [])
  end.

(** More than [max_str_digits] digits are refused.  The limit is 0 (none)
    or at least 640, and numbers of up to 640 digits are never checked. *)
Definition exceeds (max_str_digits : Z) (n : nat) : bool :=
  ((640 <? Z.of_nat n) && (0 <? max_str_digits)
   && (max_str_digits <? Z.of_nat n))%Z.

Definition int (max_str_digits : Z) (s : string) : result Z :=
  let l := skip_space (list_ascii_of_string s) in
  let '(sign, l) :=
    match l with
    | c :: t => if Ascii.eqb c "+" then (1, t)
                else if Ascii.eqb c "-" then (-1, t)
                else (1, l)
    | [] => (1, l)
    end%Z in
  match l with
  | c :: t =>
      if isdecimal c then
        match int_scan t with
        | Some (ds, after) =>
            if exceeds max_str_digits (length (c :: ds)) then Raise ValueError
            else
              match skip_space after with
              | [] => Ok (sign * int_of_digits (string_of_list_ascii (c :: ds)))%Z
              | _ :: _ => Raise ValueError
              end
        | None => Raise ValueError
        end
      else Raise ValueError
  | [] => Raise ValueError
  end.

(** [str(z)], which refuses a number of more digits than the limit.  The
    binary logarithm of the number is fuel enough for its decimal digits. *)
Definition str_int (max_str_digits : Z) (z : Z) : result string :=
  let d := digits (Z.to_nat (Z.log2 (Z.abs z))) (Z.abs z) "" in
  if exceeds max_str_digits (String.length d) then Raise ValueError
  else Ok (if (z <? 0)%Z then String "-" d else d).

End Py.

(* ===================================================================== *)
(** * The [re] module: a backtracking matcher                             *)
(* ===================================================================== *)

(** Python's [re] explores the alternatives of a pattern in priority order
    and returns the first way of matching that succeeds: a greedy
    quantifier tries one more iteration before it tries to stop, a lazy one
    the other way round, an alternation its left branch first.  The
    matcher below is written in continuation-passing style, so that a
    failure of what follows a choice point falls back to the next
    alternative of that choice point. *)

Module Re.

Inductive regex : Type :=
| Eps
| Chr (p : ascii -> bool)                      (* one character of a class *)
| Seq (a b : regex)
| Alt (a b : regex)                            (* a|b *)
| Rep (greedy : bool) (lo : nat) (hi : option nat) (r : regex)
                                               (* r{lo,hi}, r{lo,hi}? *)
| Grp (i : nat) (r : regex)                    (* capturing group number i *)
| Bnd.                                         (* \b *)

Record mstate := MState {
  prev : option ascii;             (* the character before the position *)
  rest : list ascii;               (* the subject from the position on *)
  caps : list (nat * list ascii)   (* the groups closed so far, last first *)
}.

Definition start (p : option ascii) (l : list ascii) : mstate := MState p l [].

Definition advance (c : ascii) (t : list ascii) (st : mstate) : mstate :=
  MState (Some c) t (caps st).

(** The text between the position of [st] and the later position of [st']. *)
Definition consumed (st st' : mstate) : list ascii :=
  take (length (rest st) - length (rest st')) (rest st).

Definition close (i : nat) (st st' : mstate) : mstate :=
  MState (prev st') (rest st') ((i, consumed st st') :: caps st').

Definition word_at (o : option ascii) : bool :=
  match o with Some c => Py.isword c | None => false end.

Definition at_boundary (st : mstate) : bool :=
  xorb (word_at (prev st)) (word_at (head (rest st))).

Definition below (n : nat) (hi : option nat) : bool :=
  match hi with Some h => (n <? h)%nat | None => true end.

Definition progress (st st' : mstate) : bool :=
  (length (rest st') <? length (rest st))%nat.

Notation "x 'orelse' y" :=
  (match x with Some v => Some v | None => y end)
  (at level 70, no associativity, only parsing).

Section Exec.
Context {A : Type}.

Definition kont := mstate -> option A.

(** [rep body g lo hi fuel n st k]: [n] iterations of the body are done.
    An iteration that consumes nothing is not taken, so that at most
    [length (rest st)] further iterations exist and [fuel] (one more than
    that) never runs out before the subject does. *)
Fixpoint rep (body : mstate -> kont -> option A)
    (g : bool) (lo : nat) (hi : option nat)
    (fuel n : nat) (st : mstate) (k : kont) {struct fuel} : option A :=
  match fuel with
  | O => if (lo <=? n)%nat then k st else None
  | S fuel' =>
      if g then
        (if below n hi
         then body st (fun st' =>
                if progress st st' then rep body g lo hi fuel' (S n) st' k
                else None)
         else None)
        orelse (if (lo <=? n)%nat then k st else None)
      else
        (if (lo <=? n)%nat then k st else None)
        orelse
        (if below n hi
         then body st (fun st' =>
                if progress st st' then rep body g lo hi fuel' (S n) st' k
                else None)
         else None)
  end.

Fixpoint exec (r : regex) : mstate -> kont -> option A :=
  match r with
  | Eps => fun st k => k st
  | Chr p => fun st k =>
      match rest st with
      | c :: t => if p c then k (advance c t st) else None
      | [] => None
      end
  | Seq a b => fun st k => exec a st (fun st' => exec b st' k)
  | Alt a b => fun st k => exec a st k orelse exec b st k
  | Rep g lo hi r => fun st k =>
      rep (exec r) g lo hi (S (length (rest st))) 0 st k
  | Grp i r => fun st k => exec r st (fun st' => k (close i st st'))
  | Bnd => fun st k => if at_boundary st then k st else None
  end.
End Exec.

(** A match object. *)
Record Match := MkMatch {
  whole : string;                      (* m.group(0) *)
  captures : list (nat * string)       (* closed groups, last closed first *)
}.

Fixpoint assoc {B} (i : nat) (l : list (nat * B)) : option B :=
  match l with
  | [] => None
  | (j, b) :: t => if Nat.eqb i j then Some b else assoc i t
  end.

(** [m.group(i)] for [i >= 1]; [None] when the group took no part. *)
Definition group (m : Match) (i : nat) : option string := assoc i (captures m).

(** [m.lastindex] *)
Definition lastindex (m : Match) : option nat := fst <$> head (captures m).

Definition mk_match (st st' : mstate) : Match :=
  MkMatch (string_of_list_ascii (consumed st st'))
          (map (fun '(i, t) => (i, string_of_list_ascii t)) (caps st')).

Definition match_at (pat : regex) (st : mstate) : option Match :=
  mk_match st <$> exec pat st Some.

(** [re.match(pat, s)]: the pattern has to match at the start of [s]. *)
Definition re_match (pat : regex) (s : string) : option Match :=
  match_at pat (start None (list_ascii_of_string s)).

Fixpoint search_from (pat : regex) (p : option ascii) (l : list ascii)
  : option Match :=
  match_at pat (start p l)
  orelse match l with
         | [] => None
         | c :: t => search_from pat (Some c) t
         end.

(** [re.search(pat, s)]: the leftmost position where the pattern matches. *)
Definition re_search (pat : regex) (s : string) : option Match :=
  search_from pat None (list_ascii_of_string s).

(** ** Pattern syntax *)

Definition lit (c : ascii) : regex := Chr (Ascii.eqb c).
Definition cat (l : list regex) : regex := foldr Seq Eps l.
Definition str (s : string) : regex := cat (map lit (list_ascii_of_string s)).
Definition plus (r : regex) : regex := Rep true 1 None r.          (* r+ *)
Definition plus_lazy (r : regex) : regex := Rep false 1 None r.    (* r+? *)
Definition opt (r : regex) : regex := Rep true 0 (Some 1) r.       (* r? *)
Definition times (lo hi : nat) (r : regex) : regex := Rep true lo (Some hi) r.
Definition alts (l : list regex) : regex :=
  match l with
  | [] => Eps
  | r :: t => fold_left Alt t r
  end.

Definition w : regex := Chr Py.isword.                              (* \w *)
Definition d : regex := Chr Py.isdecimal.                           (* \d *)
Definition s : regex := Chr Py.isspace.                             (* \s *)
Definition S' : regex := Chr (fun c => negb (Py.isspace c)).        (* \S *)
Definition dot : regex := Chr (fun c => negb (Ascii.eqb c Py.newline)).
Definition range (a b : ascii) : regex := Chr (Py.between (Py.code a) (Py.code b)).

(** Under [re.IGNORECASE]: a lower-case literal also matches its capital. *)
Definition lit_i (c : ascii) : regex := Chr (fun x => Ascii.eqb (Py.lower_char x) c).
Definition str_i (s : string) : regex := cat (map lit_i (list_ascii_of_string s)).

End Re.

(* ===================================================================== *)
(** * [datetime]                                                          *)
(* ===================================================================== *)

Module Datetime.
Import Py.

Record datetime := MkDatetime {
  year : Z; month : Z; day : Z; hour : Z; minute : Z; second : Z
}.

Definition is_leap (y : Z) : bool :=
  ((y mod 4 =? 0) && (negb (y mod 100 =? 0) || (y mod 400 =? 0)))%Z.

Definition days_in_month (y m : Z) : Z :=
  if (m =? 2)%Z then (if is_leap y then 29 else 28)%Z
  else if ((m =? 4) || (m =? 6) || (m =? 9) || (m =? 11))%Z then 30%Z
  else 31%Z.

Definition in_range (lo hi x : Z) : bool := ((lo <=? x) && (x <=? hi))%Z.

(** The constructor [datetime(y, mo, d, h, mi, s)], which raises
    [ValueError] for a field out of range. *)
Definition make (y mo d h mi s : Z) : result datetime :=
  if in_range 1 9999 y && in_range 1 12 mo && in_range 1 (days_in_month y mo) d
     && in_range 0 23 h && in_range 0 59 mi && in_range 0 59 s
  then Ok (MkDatetime y mo d h mi s)
  else Raise ValueError.

(** The abbreviated month names [%b] accepts (C locale), lower-cased. *)
Definition a_month : list string :=
  ["jan"; "feb"; "mar"; "apr"; "may"; "jun";
   "jul"; "aug"; "sep"; "oct"; "nov"; "dec"].

Fixpoint index_of (x : string) (l : list string) : option nat :=
  match l with
  | [] => None
  | y :: t => if String.eqb x y then Some O else S <$> index_of x t
  end.

(** The regular expression [_strptime] compiles, with [re.IGNORECASE], for
    the format ["%Y %b %d %H:%M:%S"]:
    [(?P<Y>\d\d\d\d)\s+(?P<b>jan|...|dec)\s+
     (?P<d>3[0-1]|[1-2]\d|0[1-9]|[1-9]| [1-9])\s+
     (?P<H>2[0-3]|[0-1]\d|\d):(?P<M>[0-5]\d|\d):(?P<S>6[0-1]|[0-5]\d|\d)].
    The named groups Y, b, d, H, M, S are numbered 1 to 6. *)
Definition format_regex : Re.regex :=
  Re.cat
    [ Re.Grp 1 (Re.cat [Re.d; Re.d; Re.d; Re.d]); Re.plus Re.s;
      Re.Grp 2 (Re.alts (map Re.str_i a_month)); Re.plus Re.s;
      Re.Grp 3 (Re.alts [ Re.cat [Re.lit "3"; Re.range "0" "1"];
                          Re.cat [Re.range "1" "2"; Re.d];
                          Re.cat [Re.lit "0"; Re.range "1" "9"];
                          Re.range "1" "9";
                          Re.cat [Re.lit " "; Re.range "1" "9"] ]);
      Re.plus Re.s;
      Re.Grp 4 (Re.alts [ Re.cat [Re.lit "2"; Re.range "0" "3"];
                          Re.cat [Re.range "0" "1"; Re.d];
                          Re.d ]);
      Re.lit ":";
      Re.Grp 5 (Re.alts [ Re.cat [Re.range "0" "5"; Re.d]; Re.d ]);
      Re.lit ":";
      Re.Grp 6 (Re.alts [ Re.cat [Re.lit "6"; Re.range "0" "1"];
                          Re.cat [Re.range "0" "5"; Re.d];
                          Re.d ]) ].

(** [int(found_dict[...])].  A group of the expression holds one to four
    decimal digits, after a space at most (the day): [int] returns their
    value, under every limit on the number of digits. *)
Definition field (m : Re.Match) (i : nat) : Z :=
  decimal (default "" (Re.group m i)).

(** [datetime.strptime(data_string, "%Y %b %d %H:%M:%S")]: [ValueError] when
    the text does not match the format, when text remains after the match,
    and when the fields do not make a date and time. *)
Definition strptime (data_string : string) : result datetime :=
  match Re.re_match format_regex data_string with
  | None => Raise ValueError
  | Some found =>
      if negb (String.length data_string =? String.length (Re.whole found))%nat
      then Raise ValueError
      else
        match index_of (lower (default "" (Re.group found 2))) a_month with
        | None => Raise ValueError
        | Some i =>
            make (field found 1) (Z.of_nat (S i)) (field found 3)
                 (field found 4) (field found 5) (field found 6)
        end
  end.

(** [dt.isoformat()] for a [datetime] without microseconds. *)
Definition isoformat (dt : datetime) : string :=
  zero_pad 4 (year dt) +:+ "-" +:+ zero_pad 2 (month dt) +:+ "-" +:+
  zero_pad 2 (day dt) +:+ "T" +:+ zero_pad 2 (hour dt) +:+ ":" +:+
  zero_pad 2 (minute dt) +:+ ":" +:+ zero_pad 2 (second dt).

(** [a < b] on [datetime]: lexicographic on the fields. *)
Definition key (dt : datetime) : list Z :=
  [year dt; month dt; day dt; hour dt; minute dt; second dt].

Fixpoint lex_ltb (a b : list Z) : bool :=
  match a, b with
  | x :: a', y :: b' => (x <? y)%Z || ((x =? y)%Z && lex_ltb a' b')
  | [], _ :: _ => true
  | _, [] => false
  end.

Definition ltb (a b : datetime) : bool := lex_ltb (key a) (key b).

End Datetime.

(** The state outside the program that the collectors read. *)
Record world := MkWorld {
  now : Datetime.datetime;
      (* [datetime.now()] *)
  sudo_tail : Z -> string -> option string;
      (* the standard output of [sudo tail -n <lines> <path>], or [None]
         when the subprocess exits with an error (CalledProcessError) *)
  int_max_str_digits : Z
      (* [sys.get_int_max_str_digits()], the limit of [int] and [str]: 4300
         unless the interpreter was started or set otherwise; 0 for no
         limit, as in an interpreter that has none *)
}.

(** [sorted(l, key=key, reverse=True)]: descending by key; the sort is
    stable, so elements with equal keys keep the order they have in [l]. *)
Fixpoint insert_desc {A} (key : A -> Z) (x : A) (l : list A) : list A :=
  match l with
  | [] => [x]
  | y :: t => if (key x <? key y)%Z then y :: insert_desc key x t else x :: l
  end.

Definition sorted_reverse {A} (key : A -> Z) (l : list A) : list A :=
  foldr (insert_desc key) [] l.

(* ===================================================================== *)
(** * [auth_collector.py]: class [AuthLogCollector]                       *)
(* ===================================================================== *)

Module AuthLogCollector.
Import Py.

Record collector := MkCollector { log_path : string }.

(** The dictionary [parse_log_line] returns. *)
Record event := MkEvent {
  timestamp : string;
  hostname : string;
  process : string;
  pid : option string;
  event_type : string;
  user : string;
  ip_address : option string;
  message : string;
  risk_score : Z;
  raw_log : string
}.

Definition read_logs (w : world) (self : collector) (lines : Z)
  : result (list string) :=
  n ← str_int (int_max_str_digits w) lines;
  match sudo_tail w lines (log_path self) with
  | Some stdout => mret (split_lines (strip stdout))
  | None => mret []
  end.

(** [(\w+\s+\d+\s+\d+:\d+:\d+)\s+(\S+)\s+(\S+?)(?:\[(\d+)\])?:\s+(.+)] *)
Definition pattern : Re.regex :=
  Re.cat
    [ Re.Grp 1 (Re.cat [ Re.plus Re.w; Re.plus Re.s; Re.plus Re.d; Re.plus Re.s;
                         Re.plus Re.d; Re.lit ":"; Re.plus Re.d; Re.lit ":";
                         Re.plus Re.d ]);
      Re.plus Re.s;
      Re.Grp 2 (Re.plus Re.S');
      Re.plus Re.s;
      Re.Grp 3 (Re.plus_lazy Re.S');
      Re.opt (Re.cat [ Re.lit "["; Re.Grp 4 (Re.plus Re.d); Re.lit "]" ]);
      Re.lit ":";
      Re.plus Re.s;
      Re.Grp 5 (Re.plus Re.dot) ].

Definition _detect_event_type (self : collector) (process message : string)
  : string :=
  if contains "sudo" (lower process) then "SUDO_COMMAND"
  else if contains "session opened" message then "SESSION_OPEN"
  else if contains "session closed" message then "SESSION_CLOSE"
  else if contains "authentication failure" (lower message) then "AUTH_FAILURE"
  else if contains "accepted" (lower message) then "AUTH_SUCCESS"
  else if contains "invalid user" (lower message) then "INVALID_USER"
  else if contains "cron" (lower process) then "CRON_JOB"
  else "OTHER".

(** [user (\w+)], [for (\w+)], [by \(uid=\d+\)] *)
Definition patterns : list Re.regex :=
  [ Re.cat [Re.str "user "; Re.Grp 1 (Re.plus Re.w)];
    Re.cat [Re.str "for "; Re.Grp 1 (Re.plus Re.w)];
    Re.cat [Re.str "by (uid="; Re.plus Re.d; Re.lit ")"] ].

Fixpoint _extract_user_loop (patterns : list Re.regex) (message : string)
  : string :=
  match patterns with
  | [] => "unknown"
  | pattern :: patterns' =>
      match Re.re_search pattern message with
      | Some m =>
          match Re.lastindex m with
          | Some _ => default "" (Re.group m 1)
          | None => "root"
          end
      | None => _extract_user_loop patterns' message
      end
  end.

Definition _extract_user (self : collector) (message : string) : string :=
  _extract_user_loop patterns message.

(** [\b(?:\d{1,3}\.){3}\d{1,3}\b] *)
Definition ip_pattern : Re.regex :=
  Re.cat [ Re.Bnd;
           Re.times 3 3 (Re.cat [Re.times 1 3 Re.d; Re.lit "."]);
           Re.times 1 3 Re.d;
           Re.Bnd ].

Definition _extract_ip (self : collector) (message : string) : option string :=
  Re.whole <$> Re.re_search ip_pattern message.

Definition risk_scores : gmap string Z :=
  list_to_map [ ("AUTH_FAILURE", 7); ("INVALID_USER", 8); ("SUDO_COMMAND", 5);
                ("AUTH_SUCCESS", 2); ("SESSION_OPEN", 3); ("SESSION_CLOSE", 1);
                ("CRON_JOB", 1); ("OTHER", 2) ]%Z.

Definition _calculate_risk (self : collector) (event_type message : string) : Z :=
  let base_score := default 2%Z (risk_scores !! event_type) in
  let base_score :=
    if contains "failed" (lower message) then (base_score + 2)%Z else base_score in
  let base_score :=
    if contains "root" (lower message) then (base_score + 1)%Z else base_score in
  Z.min base_score 10.

Definition parse_log_line (w : world) (self : collector) (line : string)
  : result (option event) :=
  match Re.re_match pattern line with
  | None => Ok None
  | Some m =>
      let timestamp_str := default "" (Re.group m 1) in
      let hostname := default "" (Re.group m 2) in
      let process := default "" (Re.group m 3) in
      let pid := Re.group m 4 in
      let message := default "" (Re.group m 5) in
      let current_year := Datetime.year (now w) in
      timestamp ← Datetime.strptime
                    (str_of_int current_year +:+ " " +:+ timestamp_str);
      let event_type := _detect_event_type self process message in
      let user := _extract_user self message in
      let ip_address := _extract_ip self message in
      let risk_score := _calculate_risk self event_type message in
      mret (Some {| timestamp := Datetime.isoformat timestamp;
                    hostname := hostname;
                    process := process;
                    pid := pid;
                    event_type := event_type;
                    user := user;
                    ip_address := ip_address;
                    message := message;
                    risk_score := risk_score;
                    raw_log := line |})
  end.

(** The loop of [collect] over [raw_logs], appending to [parsed_logs]. *)
Fixpoint collect_loop (w : world) (self : collector)
    (raw_logs : list string) (parsed_logs : list event)
  : result (list event) :=
  match raw_logs with
  | [] => Ok parsed_logs
  | log_line :: raw_logs' =>
      if truthy (strip log_line) then
        parsed ← parse_log_line w self log_line;
        match parsed with
        | Some e => collect_loop w self raw_logs' (parsed_logs ++ [e])
        | None => collect_loop w self raw_logs' parsed_logs
        end
      else collect_loop w self raw_logs' parsed_logs
  end.

(** The message printed first names [lines] as well; it is refused for
    the same numbers as the argument of the subprocess. *)
Definition collect (w : world) (self : collector) (lines : Z)
  : result (list event) :=
  raw_logs ← read_logs w self lines;
  collect_loop w self raw_logs [].

(** [event_counts[event_type] = event_counts.get(event_type, 0) + 1] on a
    dictionary that keeps its insertion order. *)
Fixpoint count_up (event_type : string) (event_counts : list (string * Z))
  : list (string * Z) :=
  match event_counts with
  | [] => [(event_type, 1%Z)]
  | (k, n) :: t =>
      if String.eqb k event_type then (k, (n + 1)%Z) :: t
      else (k, n) :: count_up event_type t
  end.

(** What [display_summary] prints. *)
Record summary := MkSummary {
  total : nat;                       (* Total d'evenements *)
  by_type : list (string * Z);       (* Repartition par type, as printed *)
  at_risk : nat;                     (* Evenements a risque (score >= 5) *)
  top5 : list event                  (* TOP 5 EVENEMENTS A RISQUE, as printed *)
}.

Definition display_summary (self : collector) (logs : list event) : summary :=
  let event_counts :=
    fold_left (fun acc log => count_up (event_type log) acc) logs [] in
  let risk_events := filter (fun log => (5 <= risk_score log)%Z) logs in
  {| total := length logs;
     by_type := sorted_reverse snd event_counts;
     at_risk := length risk_events;
     top5 := take 5 (sorted_reverse risk_score risk_events) |}.

End AuthLogCollector.

(* ===================================================================== *)
(** * [auth_collector_db.py]: class [AuthLogCollectorDB]                  *)
(* ===================================================================== *)

Module AuthLogCollectorDB.
Import Py.

Record collector := MkCollector { log_path : string }.

(** The dictionary [parse_log_line] returns; [save_to_database] makes a
    row of the table [logs] from it, with the same columns. *)
Record event := MkEvent {
  timestamp : Datetime.datetime;
  hostname : string;
  process : string;
  pid : option Z;
  event_type : string;
  user_name : string;
  ip_address : option string;
  message : string;
  risk_score : Z;
  raw_log : string
}.

Definition read_logs (w : world) (self : collector) (lines : Z)
  : result (list string) :=
  n ← str_int (int_max_str_digits w) lines;
  match sudo_tail w lines (log_path self) with
  | Some stdout => mret (split_lines (strip stdout))
  | None => mret []
  end.

(** [(\w+\s+\d+\s+\d+:\d+:\d+)\s+(\S+)\s+(\S+?)(?:\[(\d+)\])?:\s+(.+)] *)
Definition pattern : Re.regex :=
  Re.cat
    [ Re.Grp 1 (Re.cat [ Re.plus Re.w; Re.plus Re.s; Re.plus Re.d; Re.plus Re.s;
                         Re.plus Re.d; Re.lit ":"; Re.plus Re.d; Re.lit ":";
                         Re.plus Re.d ]);
      Re.plus Re.s;
      Re.Grp 2 (Re.plus Re.S');
      Re.plus Re.s;
      Re.Grp 3 (Re.plus_lazy Re.S');
      Re.opt (Re.cat [ Re.lit "["; Re.Grp 4 (Re.plus Re.d); Re.lit "]" ]);
      Re.lit ":";
      Re.plus Re.s;
      Re.Grp 5 (Re.plus Re.dot) ].

Definition _detect_event_type (self : collector) (process message : string)
  : string :=
  if contains "sudo" (lower process) then "SUDO_COMMAND"
  else if contains "session opened" message then "SESSION_OPEN"
  else if contains "session closed" message then "SESSION_CLOSE"
  else if contains "authentication failure" (lower message) then "AUTH_FAILURE"
  else if contains "accepted" (lower message) then "AUTH_SUCCESS"
  else if contains "invalid user" (lower message) then "INVALID_USER"
  else if contains "cron" (lower process) then "CRON_JOB"
  else "OTHER".

(** [user (\w+)], [for (\w+)] *)
Definition patterns : list Re.regex :=
  [ Re.cat [Re.str "user "; Re.Grp 1 (Re.plus Re.w)];
    Re.cat [Re.str "for "; Re.Grp 1 (Re.plus Re.w)] ].

(** The [for] loop of [_extract_user]: [Some name] when it returns from
    inside the loop, [None] when the loop runs to its end. *)
Fixpoint _extract_user_loop (patterns : list Re.regex) (message : string)
  : option string :=
  match patterns with
  | [] => None
  | pattern :: patterns' =>
      match Re.re_search pattern message with
      | Some m => Some (default "" (Re.group m 1))
      | None => _extract_user_loop patterns' message
      end
  end.

Definition _extract_user (self : collector) (message : string) : string :=
  match _extract_user_loop patterns message with
  | Some name => name
  | None =>
      if contains "root" (lower message) then "root"
      else "unknown"
  end.

(** [\b(?:\d{1,3}\.){3}\d{1,3}\b] *)
Definition ip_pattern : Re.regex :=
  Re.cat [ Re.Bnd;
           Re.times 3 3 (Re.cat [Re.times 1 3 Re.d; Re.lit "."]);
           Re.times 1 3 Re.d;
           Re.Bnd ].

Definition _extract_ip (self : collector) (message : string) : option string :=
  Re.whole <$> Re.re_search ip_pattern message.

Definition risk_scores : gmap string Z :=
  list_to_map [ ("AUTH_FAILURE", 7); ("INVALID_USER", 8); ("SUDO_COMMAND", 5);
                ("AUTH_SUCCESS", 2); ("SESSION_OPEN", 3); ("SESSION_CLOSE", 1);
                ("CRON_JOB", 1); ("OTHER", 2) ]%Z.

Definition _calculate_risk (self : collector) (event_type message : string) : Z :=
  let base_score := default 2%Z (risk_scores !! event_type) in
  let base_score :=
    if contains "failed" (lower message) then (base_score + 2)%Z else base_score in
  let base_score :=
    if contains "root" (lower message) then (base_score + 1)%Z else base_score in
  Z.min base_score 10.

Definition parse_log_line (w : world) (self : collector) (line : string)
  : result (option event) :=
  match Re.re_match pattern line with
  | None => Ok None
  | Some m =>
      let timestamp_str := default "" (Re.group m 1) in
      let hostname := default "" (Re.group m 2) in
      let process := default "" (Re.group m 3) in
      let pid := Re.group m 4 in
      let message := default "" (Re.group m 5) in
      let current_year := Datetime.year (now w) in
      timestamp ← Datetime.strptime
                    (str_of_int current_year +:+ " " +:+ timestamp_str);
      let event_type := _detect_event_type self process message in
      let user := _extract_user self message in
      let ip_address := _extract_ip self message in
      let risk_score := _calculate_risk self event_type message in
      pid ← match pid with
            | Some p =>
                if truthy p
                then n ← int (int_max_str_digits w) p; mret (Some n)
                else mret None
            | None => mret None
            end;
      mret (Some {| timestamp := timestamp;
                    hostname := hostname;
                    process := process;
                    pid := pid;
                    event_type := event_type;
                    user_name := user;
                    ip_address := ip_address;
                    message := message;
                    risk_score := risk_score;
                    raw_log := line |})
  end.

(** ** The queries of [display_stats]

    The table [logs] is the list of its rows.  [order_by] is SQL's
    [ORDER BY]: the rows for which [before] holds come first.  SQL leaves
    the order of rows that tie on every sort key to the database; here
    they keep the order of the table. *)
Fixpoint insert_by {A} (before : A -> A -> bool) (x : A) (l : list A) : list A :=
  match l with
  | [] => [x]
  | y :: t => if before y x then y :: insert_by before x t else x :: l
  end.

Definition order_by {A} (before : A -> A -> bool) (l : list A) : list A :=
  foldr (insert_by before) [] l.

(** [Log.risk_score.desc(), Log.timestamp.desc()] *)
Definition risk_desc_time_desc (a b : event) : bool :=
  (risk_score b <? risk_score a)%Z
  || ((risk_score a =? risk_score b)%Z
      && Datetime.ltb (timestamp b) (timestamp a)).

(** [db.query(Log).filter(Log.risk_score >= 5).order_by(
       Log.risk_score.desc(), Log.timestamp.desc()).limit(5).all()] *)
Definition top_risks (table : list event) : list event :=
  take 5 (order_by risk_desc_time_desc
            (filter (fun log => (5 <= risk_score log)%Z) table)).

(** [db.query(Log).filter(Log.risk_score >= 5).count()] *)
Definition high_risk (table : list event) : nat :=
  length (filter (fun log => (5 <= risk_score log)%Z) table).

End AuthLogCollectorDB.


(* ===================================================================== *)
(** * Sample worlds, collectors and log lines                             *)
(* ===================================================================== *)

Module Sample.

(** A world whose clock reads 3 November of year [y], 10:00:00, whose
    [sudo tail] prints [stdout], and whose interpreter has the limit it
    starts with. *)
Definition world_of (y : Z) (stdout : option string) : world :=
  MkWorld (Datetime.MkDatetime y 11 3 10 0 0) (λ _ _, stdout) 4300.

Definition console : AuthLogCollector.collector :=
  AuthLogCollector.MkCollector "/var/log/auth.log".

Definition db : AuthLogCollectorDB.collector :=
  AuthLogCollectorDB.MkCollector "/var/log/auth.log".

Definition lf : string := String Py.newline "".

(** The line of the specification's concrete scenario. *)
Definition failed_password : string :=
  "Jan 21 22:04:35 myhost sshd[1234]: Failed password for invalid user admin from 10.0.0.5 port 22 ssh2".

(** A line of the expected shape whose day of the month does not exist. *)
Definition day_32 : string :=
  "Jan 32 22:04:35 myhost sshd[1234]: Failed password for root".

(** Five lines with increasing time stamps and the risk scores 9, 9, 7, 8, 9. *)
Definition ranked : list string :=
  [ "Jan 21 10:00:01 myhost sshd[1]: authentication failure; login failed";
    "Jan 21 10:00:02 myhost sshd[2]: authentication failure; login failed";
    "Jan 21 10:00:03 myhost sshd[3]: authentication failure; tty=ssh";
    "Jan 21 10:00:04 myhost sshd[4]: Invalid user bob from 10.0.0.9";
    "Jan 21 10:00:05 myhost sshd[5]: authentication failure; login failed" ].

Fixpoint unlines (l : list string) : string :=
  match l with
  | [] => ""
  | [x] => x
  | x :: t => x +:+ lf +:+ unlines t
  end.

(** A line whose process id has 4301 digits, one more than [int] converts
    in an interpreter that has the limit it starts with. *)
Definition long_pid : string :=
  "Jan 21 22:04:35 myhost sshd["
  +:+ string_of_list_ascii (repeat "7"%char 4301)
  +:+ "]: Accepted password for bob".

End Sample.

(* ===================================================================== *)
(** * Facts about the [str] methods                                       *)
(* ===================================================================== *)

Module PyFacts.
Import Py.

(** [needle] is a substring of [hay]. *)
Definition occurs (needle hay : string) : Prop :=
  ∃ pre post, hay = pre +:+ needle +:+ post.

(** [needle] is a substring of [hay] up to the case of the letters. *)
Definition occurs_ci (needle hay : string) : Prop :=
  ∃ pre mid post, hay = pre +:+ mid +:+ post ∧ lower mid = lower needle.

Lemma app_cons (x : ascii) (a b : string) : String x a +:+ b = String x (a +:+ b).
Proof. reflexivity. Qed.

Lemma app_nil_l (a : string) : "" +:+ a = a.
Proof. reflexivity. Qed.

Lemma app_assoc (a b c : string) : (a +:+ b) +:+ c = a +:+ b +:+ c.
Proof.
  induction a as [|x a IH]; [reflexivity|]. now rewrite !app_cons, IH.
Qed.

Lemma app_nil_r (a : string) : a +:+ "" = a.
Proof. induction a as [|x a IH]; [reflexivity|]. now rewrite app_cons, IH. Qed.

Lemma app_length (a b : string) :
  String.length (a +:+ b) = String.length a + String.length b.
Proof.
  induction a as [|x a IH]; [reflexivity|]. rewrite app_cons. simpl. now rewrite IH.
Qed.

Lemma prefix_iff (n h : string) :
  String.prefix n h = true ↔ ∃ post, h = n +:+ post.
Proof.
  revert h; induction n as [|x n IH]; intros h.
  - split; [intros _; now exists h | intros _; now destruct h].
  - destruct h as [|y h]; simpl;
      [split; [discriminate | intros [p Hp]; discriminate]|].
    destruct (ascii_dec x y) as [->|Hxy].
    + rewrite IH. split; intros [p Hp]; exists p; rewrite app_cons in *; congruence.
    + split; [discriminate | intros [p Hp]; rewrite app_cons in Hp; congruence].
Qed.

Lemma contains_nil (n : string) : contains n "" = String.prefix n "" || false.
Proof. reflexivity. Qed.

Lemma contains_cons (n : string) (y : ascii) (h : string) :
  contains n (String y h) = String.prefix n (String y h) || contains n h.
Proof. reflexivity. Qed.

Lemma contains_iff (n h : string) : contains n h = true ↔ occurs n h.
Proof.
  induction h as [|y h IH].
  - rewrite contains_nil, orb_false_r, prefix_iff. split.
    + intros [p Hp]. now exists "", p.
    + intros (pre & post & H). destruct pre; [now exists post | discriminate].
  - rewrite contains_cons, orb_true_iff, prefix_iff, IH. split.
    + intros [[p Hp] | (pre & post & H)].
      * now exists "", p.
      * exists (String y pre), post. now rewrite app_cons, H.
    + intros (pre & post & H). destruct pre as [|z pre].
      * left. now exists post.
      * right. exists pre, post. rewrite app_cons in H. congruence.
Qed.

Lemma lower_app (a b : string) : lower (a +:+ b) = lower a +:+ lower b.
Proof.
  induction a as [|x a IH]; [reflexivity|].
  rewrite app_cons. simpl. now rewrite app_cons, IH.
Qed.

Lemma lower_split (s a b : string) :
  lower s = a +:+ b → ∃ a' b', s = a' +:+ b' ∧ lower a' = a ∧ lower b' = b.
Proof.
  revert s; induction a as [|x a IH]; intros s H.
  - now exists "", s.
  - destruct s as [|y s]; [discriminate|]. rewrite app_cons in H. simpl in H.
    injection H as Hx Hs. destruct (IH _ Hs) as (a' & b' & -> & Ha & Hb).
    exists (String y a'), b'. simpl. now rewrite Hx, Ha.
Qed.

(** The test the collectors write, [needle in hay.lower()], is the
    case-insensitive substring test. *)
Lemma contains_lower_iff (n h : string) :
  contains (lower n) (lower h) = true ↔ occurs_ci n h.
Proof.
  rewrite contains_iff. split.
  - intros (pre & post & H).
    apply lower_split in H as (pre' & r & -> & _ & Hr).
    apply lower_split in Hr as (mid & post' & -> & Hm & _).
    exists pre', mid, post'. now split.
  - intros (pre & mid & post & -> & Hm).
    exists (lower pre), (lower post). now rewrite !lower_app, Hm.
Qed.

#[global] Instance occurs_dec (n h : string) : Decision (occurs n h).
Proof.
  refine (cast_if (decide (contains n h = true))); abstract (now rewrite <- contains_iff).
Defined.

#[global] Instance occurs_ci_dec (n h : string) : Decision (occurs_ci n h).
Proof.
  refine (cast_if (decide (contains (lower n) (lower h) = true)));
    abstract (now rewrite <- contains_lower_iff).
Defined.

Lemma lstrip_nil_iff (s : string) :
  lstrip s = "" ↔ Forall (λ c, isspace c = true) (list_ascii_of_string s).
Proof.
  induction s as [|c s IH]; simpl.
  - split; [constructor | reflexivity].
  - destruct (isspace c) eqn:E.
    + rewrite IH. split; [now constructor | now inversion 1].
    + split; [discriminate | inversion 1; congruence].
Qed.

End PyFacts.

(* ===================================================================== *)
(** * The specification's own wording                                     *)
(* ===================================================================== *)

(** Definitions written after the sentences of the specification, to be
    compared with the functions above. *)
Module Spec.
Import PyFacts.

(** The fixed taxonomy of event types. *)
Definition taxonomy : list string :=
  [ "SUDO_COMMAND"; "SESSION_OPEN"; "SESSION_CLOSE"; "AUTH_FAILURE";
    "AUTH_SUCCESS"; "INVALID_USER"; "CRON_JOB"; "OTHER" ].

(** Section 4.4, the base score by event type. *)
Definition base_score (event_type : string) : Z :=
  if decide (event_type = "AUTH_FAILURE") then 7
  else if decide (event_type = "INVALID_USER") then 8
  else if decide (event_type = "SUDO_COMMAND") then 5
  else if decide (event_type = "AUTH_SUCCESS") then 2
  else if decide (event_type = "SESSION_OPEN") then 3
  else if decide (event_type = "SESSION_CLOSE") then 1
  else if decide (event_type = "CRON_JOB") then 1
  else 2.

(** Section 4.4: base score, plus 2 for "failed", plus 1 for "root", both
    case-insensitive, clamped to at most 10. *)
Definition score (event_type message : string) : Z :=
  Z.min (base_score event_type
         + (if decide (occurs_ci "failed" message) then 2 else 0)
         + (if decide (occurs_ci "root" message) then 1 else 0)) 10.

(** Section 4.3: an ordered decision list, the first rule that matches
    wins.  [decides rules otherwise v]: [v] is the value of the first rule
    of [rules] whose condition holds, [otherwise] when none does. *)
Fixpoint decides (rules : list (Prop * string)) (otherwise v : string) : Prop :=
  match rules with
  | [] => v = otherwise
  | (condition, value) :: rules' =>
      (condition ∧ v = value) ∨ (¬ condition ∧ decides rules' otherwise v)
  end.

Definition rules (process message : string) : list (Prop * string) :=
  [ (occurs_ci "sudo" process, "SUDO_COMMAND");
    (occurs "session opened" message, "SESSION_OPEN");
    (occurs "session closed" message, "SESSION_CLOSE");
    (occurs_ci "authentication failure" message, "AUTH_FAILURE");
    (occurs_ci "accepted" message, "AUTH_SUCCESS");
    (occurs_ci "invalid user" message, "INVALID_USER");
    (occurs_ci "cron" process, "CRON_JOB") ].

Definition classify (process message v : string) : Prop :=
  decides (rules process message) "OTHER" v.

(** Section 4.2: the pattern "<keyword><name>" matched anywhere in the
    message, and the name it captures. *)
Definition captured (keyword message : string) : option string :=
  Re.re_search (Re.cat [Re.str keyword; Re.Grp 1 (Re.plus Re.w)]) message
  ≫= λ m, Re.group m 1.

(** Section 4.2: "user <name>" first, "for <name>" second; if neither
    matches, "root" when the message contains "root" in any case, and
    "unknown" otherwise. *)
Definition extract_user (message : string) : string :=
  match captured "user " message with
  | Some name => name
  | None =>
      match captured "for " message with
      | Some name => name
      | None =>
          if decide (occurs_ci "root" message) then "root" else "unknown"
      end
  end.

End Spec.

(* ===================================================================== *)
(** * The risk scorer and the event classifier                            *)
(* ===================================================================== *)

Section Scorer.
Import Py PyFacts.
Variable c : AuthLogCollector.collector.
Variable d : AuthLogCollectorDB.collector.

Lemma risk_scores_base (event_type : string) :
  default 2%Z (AuthLogCollector.risk_scores !! event_type)
  = Spec.base_score event_type.
Proof.
  unfold AuthLogCollector.risk_scores, Spec.base_score. simpl.
  repeat (rewrite lookup_insert; case_decide; subst; simpl;
          [repeat (case_decide; [reflexivity || congruence|]); try reflexivity |]).
  rewrite lookup_empty. simpl.
  repeat (case_decide; [congruence|]). reflexivity.
Qed.

Lemma risk_scores_same :
  AuthLogCollectorDB.risk_scores = AuthLogCollector.risk_scores.
Proof. reflexivity. Qed.

Lemma keyword_test (kw message : string) :
  lower kw = kw →
  contains kw (lower message) = bool_decide (occurs_ci kw message).
Proof.
  intros Hkw. rewrite <- Hkw at 1.
  destruct (contains (lower kw) (lower message)) eqn:E.
  - symmetry. apply bool_decide_eq_true. now apply contains_lower_iff.
  - symmetry. apply bool_decide_eq_false. rewrite <- contains_lower_iff. congruence.
Qed.

Lemma base_score_bounds (event_type : string) :
  (1 <= Spec.base_score event_type <= 8)%Z.
Proof. unfold Spec.base_score. repeat case_decide; lia. Qed.

Lemma calculate_risk_spec (event_type message : string) :
  AuthLogCollector._calculate_risk c event_type message
  = Spec.score event_type message.
Proof.
  unfold AuthLogCollector._calculate_risk, Spec.score.
  rewrite risk_scores_base, !keyword_test by reflexivity.
  unfold bool_decide, decide.
  destruct (occurs_ci_dec "failed" message), (occurs_ci_dec "root" message);
    f_equal; lia.
Qed.

(** C1. For every event type and message both collectors return the base
    score of the table, plus 2 when the message contains "failed" in any
    case, plus 1 when it contains "root" in any case, clamped to at most
    10; the table gives 7, 8, 5, 2, 3, 1, 1, 2 to the eight event types
    (and 2 to any other string), and the result is an integer of [0,10]. *)
Theorem calculate_risk_table_adjust_clamp (event_type message : string) :
  AuthLogCollector._calculate_risk c event_type message
    = Spec.score event_type message
  ∧ AuthLogCollectorDB._calculate_risk d event_type message
    = Spec.score event_type message
  ∧ (0 <= Spec.score event_type message <= 10)%Z
  ∧ map Spec.base_score
      [ "AUTH_FAILURE"; "INVALID_USER"; "SUDO_COMMAND"; "AUTH_SUCCESS";
        "SESSION_OPEN"; "SESSION_CLOSE"; "CRON_JOB"; "OTHER" ]
    = [7; 8; 5; 2; 3; 1; 1; 2]%Z.
Proof.
  split; [apply calculate_risk_spec|].
  split; [apply calculate_risk_spec|].
  split; [|reflexivity].
  unfold Spec.score. pose proof (base_score_bounds event_type).
  repeat case_decide; lia.
Qed.
End Scorer.

Section Classifier.
Import Py PyFacts.
Variable c : AuthLogCollector.collector.
Variable d : AuthLogCollectorDB.collector.

Lemma substring_test (kw message : string) :
  contains kw message = bool_decide (occurs kw message).
Proof.
  destruct (contains kw message) eqn:E; symmetry.
  - apply bool_decide_eq_true. now apply contains_iff.
  - apply bool_decide_eq_false. rewrite <- contains_iff. congruence.
Qed.

Lemma decides_functional (rules : list (Prop * string)) (otherwise v v' : string) :
  Spec.decides rules otherwise v → Spec.decides rules otherwise v' → v = v'.
Proof.
  induction rules as [|[condition value] rules IH]; simpl.
  - congruence.
  - intros [[H1 ->] | [H1 Hv]] [[H2 ->] | [H2 Hv']];
      [reflexivity | contradiction | contradiction | auto].
Qed.

Lemma detect_event_type_classify (process message : string) :
  Spec.classify process message
    (AuthLogCollector._detect_event_type c process message).
Proof.
  unfold AuthLogCollector._detect_event_type, Spec.classify, Spec.rules.
  rewrite !(keyword_test _ _ eq_refl), !substring_test. simpl.
  repeat (case_bool_decide; [left; split; [assumption | reflexivity] | right; split; [assumption|]]).
  reflexivity.
Qed.

(** C2. The classifier of both collectors is total: it returns one of
    the eight values of the taxonomy, namely the value of the first rule
    of the ordered decision list that matches (and no other value
    satisfies the list); in particular a process name that contains
    "sudo" in any case gives SUDO_COMMAND, also when it contains "cron". *)
Theorem detect_event_type_first_rule_wins (process message : string) :
  let v := AuthLogCollector._detect_event_type c process message in
  AuthLogCollectorDB._detect_event_type d process message = v
  ∧ In v Spec.taxonomy
  ∧ Spec.classify process message v
  ∧ (∀ v', Spec.classify process message v' → v' = v)
  ∧ (occurs_ci "sudo" process → v = "SUDO_COMMAND").
Proof.
  intros v. pose proof (detect_event_type_classify process message) as Hv.
  fold v in Hv. repeat split.
  - unfold v, AuthLogCollector._detect_event_type.
    repeat match goal with |- context [if ?b then _ else _] => destruct b end;
      simpl; tauto.
  - exact Hv.
  - intros v' Hv'. exact (decides_functional _ _ _ _ Hv' Hv).
  - intros Hs. destruct Hv as [[_ ->] | [Hn _]]; [reflexivity | contradiction].
Qed.
End Classifier.

Lemma detect_event_type_first_rule_wins_witness :
  PyFacts.occurs_ci "sudo" "cron-SUDO"
  ∧ PyFacts.occurs_ci "cron" "cron-SUDO"
  ∧ AuthLogCollector._detect_event_type Sample.console "cron-SUDO" "job"
    = "SUDO_COMMAND".
Proof.
  split; [apply PyFacts.contains_lower_iff; reflexivity|].
  split; [apply PyFacts.contains_lower_iff; reflexivity|].
  apply (detect_event_type_first_rule_wins Sample.console Sample.db
           "cron-SUDO" "job").
  apply PyFacts.contains_lower_iff; reflexivity.
Defined.

(* ===================================================================== *)
(** * What a successful match says about the subject                      *)
(* ===================================================================== *)

Module ReFacts.
Import Re.
Local Open Scope nat_scope.

(** [iter step n st st']: [n] iterations of a quantified body lead from
    [st] to [st'], each of them consuming at least one character. *)
Fixpoint iter (step : mstate → mstate → Prop) (n : nat) (st st' : mstate) : Prop :=
  match n with
  | O => st' = st
  | S n' => ∃ mid, step st mid ∧ progress st mid = true ∧ iter step n' mid st'
  end.

Definition within (n : nat) (hi : option nat) : Prop :=
  match hi with Some h => n ≤ h | None => True end.

(** [Run r st st']: the pattern [r] can lead the matcher from [st] to
    [st'].  Priorities play no part here: this is what any successful way
    through the pattern has to satisfy. *)
Fixpoint Run (r : regex) (st st' : mstate) : Prop :=
  match r with
  | Eps => st' = st
  | Chr p => ∃ c t, rest st = c :: t ∧ p c = true ∧ st' = advance c t st
  | Seq a b => ∃ mid, Run a st mid ∧ Run b mid st'
  | Alt a b => Run a st st' ∨ Run b st st'
  | Rep _ lo hi r => ∃ n, lo ≤ n ∧ within n hi ∧ iter (Run r) n st st'
  | Grp i r => ∃ mid, Run r st mid ∧ st' = close i st mid
  | Bnd => st' = st ∧ at_boundary st = true
  end.

Lemma rep_sound {A} (body : mstate → @kont A → option A)
    (R : mstate → mstate → Prop) (g : bool) (lo : nat) (hi : option nat) :
  (∀ st k x, body st k = Some x → ∃ st', R st st' ∧ k st' = Some x) →
  ∀ fuel n st k x,
    within n hi →
    rep body g lo hi fuel n st k = Some x →
    ∃ m st', iter R m st st' ∧ lo ≤ n + m ∧ within (n + m) hi ∧ k st' = Some x.
Proof.
  intros Hbody.
  assert (Hstop : ∀ n st (k : @kont A) x, within n hi →
            (if (lo <=? n)%nat then k st else None) = Some x →
            ∃ m st', iter R m st st' ∧ lo ≤ n + m ∧ within (n + m) hi
                     ∧ k st' = Some x).
  { intros n st k x Hn H. destruct (Nat.leb_spec lo n); [|discriminate].
    exists 0, st. rewrite Nat.add_0_r. simpl. auto. }
  induction fuel as [|fuel IH]; intros n st k x Hn H; simpl in H.
  - now apply Hstop.
  - assert (Hmore : (if below n hi
                     then body st (λ st', if progress st st'
                                          then rep body g lo hi fuel (S n) st' k
                                          else None)
                     else None) = Some x →
              ∃ m st', iter R m st st' ∧ lo ≤ n + m ∧ within (n + m) hi
                       ∧ k st' = Some x).
    { intros H'. destruct (below n hi) eqn:Hb; [|discriminate].
      apply Hbody in H' as (st1 & HR & H').
      destruct (progress st st1) eqn:Hp; [|discriminate].
      apply IH in H' as (m & st' & Hit & Hlo & Hhi & Hk).
      - exists (S m), st'. rewrite Nat.add_succ_r. simpl. eauto 8.
      - unfold below, within in *. destruct hi; [|exact I].
        apply Nat.ltb_lt in Hb. lia. }
    destruct g.
    + match type of H with
      | match ?e with _ => _ end = _ => destruct e eqn:E
      end; [injection H as ->; now apply Hmore | now apply Hstop].
    + match type of H with
      | match ?e with _ => _ end = _ => destruct e eqn:E
      end; [injection H as ->; now apply Hstop | now apply Hmore].
Qed.

(** Soundness of the matcher: when [exec r st k] succeeds, the
    continuation was entered from a state the pattern leads to. *)
Lemma exec_sound {A} (r : regex) :
  ∀ st (k : @kont A) x, exec r st k = Some x → ∃ st', Run r st st' ∧ k st' = Some x.
Proof.
  induction r as [|p|a IHa b IHb|a IHa b IHb|g lo hi r IH|i r IH|];
    intros st k x H; cbn [exec] in H.
  - exists st. now split.
  - destruct (rest st) as [|c t] eqn:E; [discriminate|].
    destruct (p c) eqn:Hp; [|discriminate].
    exists (advance c t st). split; [|assumption]. simpl. eauto.
  - apply IHa in H as (mid & Ha & H). apply IHb in H as (st' & Hb & H).
    exists st'. split; [|assumption]. simpl. eauto.
  - destruct (exec a st k) eqn:E.
    + injection H as ->. apply IHa in E as (st' & Ha & H).
      exists st'. split; [|assumption]. now left.
    + apply IHb in H as (st' & Hb & H).
      exists st'. split; [|assumption]. now right.
  - apply (rep_sound _ (Run r) g lo hi IH) in H as (m & st' & Hit & Hlo & Hhi & Hk).
    + exists st'. split; [|assumption]. simpl. exists m. auto.
    + unfold within. destruct hi; [lia | exact I].
  - apply IH in H as (mid & Hr & H).
    exists (close i st mid). split; [|assumption]. simpl. eauto.
  - destruct (at_boundary st) eqn:E; [|discriminate].
    exists st. now split.
Qed.

(** The subject only ever shrinks from the front. *)
Lemma iter_rest (step : mstate → mstate → Prop) :
  (∀ st st', step st st' → ∃ txt, rest st = txt ++ rest st') →
  ∀ n st st', iter step n st st' → ∃ txt, rest st = txt ++ rest st'.
Proof.
  intros Hstep. induction n as [|n IH]; intros st st' H; simpl in H.
  - subst. now exists [].
  - destruct H as (mid & H1 & _ & H2).
    apply Hstep in H1 as [t1 E1]. apply IH in H2 as [t2 E2].
    exists (t1 ++ t2). now rewrite E1, E2, app_assoc.
Qed.

Lemma Run_rest (r : regex) :
  ∀ st st', Run r st st' → ∃ txt, rest st = txt ++ rest st'.
Proof.
  induction r as [|p|a IHa b IHb|a IHa b IHb|g lo hi r IH|i r IH|];
    intros st st' H; simpl in H.
  - subst. now exists [].
  - destruct H as (c & t & E & _ & ->). now exists [c].
  - destruct H as (mid & Ha & Hb).
    apply IHa in Ha as [t1 E1]. apply IHb in Hb as [t2 E2].
    exists (t1 ++ t2). now rewrite E1, E2, app_assoc.
  - destruct H as [H|H]; auto.
  - destruct H as (n & _ & _ & H). now apply (iter_rest _ IH) in H.
  - destruct H as (mid & Hr & ->). now apply IH in Hr.
  - destruct H as [-> _]. now exists [].
Qed.

Lemma consumed_app (st st' : mstate) (txt : list ascii) :
  rest st = txt ++ rest st' → consumed st st' = txt.
Proof.
  intros E. unfold consumed. rewrite E, length_app.
  replace (length txt + length (rest st') - length (rest st')) with (length txt) by lia.
  now rewrite take_app_length.
Qed.

Lemma progress_nonempty (st st' : mstate) (txt : list ascii) :
  rest st = txt ++ rest st' → progress st st' = true → txt ≠ [].
Proof.
  intros E Hp ->. unfold progress in Hp. rewrite E in Hp. simpl in Hp.
  apply Nat.ltb_lt in Hp. lia.
Qed.

(** The numbers of the capturing groups of a pattern. *)
Fixpoint group_ids (r : regex) : list nat :=
  match r with
  | Eps | Chr _ | Bnd => []
  | Seq a b | Alt a b => group_ids a ++ group_ids b
  | Rep _ _ _ r => group_ids r
  | Grp i r => i :: group_ids r
  end.

Definition added (ids : list nat) (st st' : mstate) : Prop :=
  ∃ new, caps st' = new ++ caps st ∧ Forall (λ e, In (fst e) ids) new.

Lemma added_refl (ids : list nat) (st : mstate) : added ids st st.
Proof. exists []. now split. Qed.

Lemma added_mono (ids ids' : list nat) (st st' : mstate) :
  (∀ i, In i ids → In i ids') → added ids st st' → added ids' st st'.
Proof.
  intros H (new & E & F). exists new. split; [assumption|].
  eapply Forall_impl; eauto; simpl; auto.
Qed.

Lemma added_trans (ids1 ids2 ids : list nat) (st mid st' : mstate) :
  (∀ i, In i ids1 → In i ids) → (∀ i, In i ids2 → In i ids) →
  added ids1 st mid → added ids2 mid st' → added ids st st'.
Proof.
  intros H1 H2 (n1 & E1 & F1) (n2 & E2 & F2). exists (n2 ++ n1). split.
  - now rewrite E2, E1, app_assoc.
  - apply Forall_app. split; eapply Forall_impl; eauto; simpl; auto.
Qed.

Lemma iter_caps (step : mstate → mstate → Prop) (ids : list nat) :
  (∀ st st', step st st' → added ids st st') →
  ∀ n st st', iter step n st st' → added ids st st'.
Proof.
  intros Hstep. induction n as [|n IH]; intros st st' H; simpl in H.
  - subst. apply added_refl.
  - destruct H as (mid & H1 & _ & H2).
    eapply added_trans; [| |apply Hstep, H1|apply IH, H2]; auto.
Qed.

(** A run through a pattern only adds captures, and only of its groups. *)
Lemma Run_caps (r : regex) :
  ∀ st st', Run r st st' → added (group_ids r) st st'.
Proof.
  induction r as [|p|a IHa b IHb|a IHa b IHb|g lo hi r IH|i r IH|];
    intros st st' H; simpl in H.
  - subst. apply added_refl.
  - destruct H as (c & t & _ & _ & ->). exists []. now split.
  - destruct H as (mid & Ha & Hb).
    eapply added_trans; [| |apply IHa, Ha|apply IHb, Hb];
      simpl; intros; apply in_or_app; auto.
  - destruct H as [H|H]; [apply IHa in H|apply IHb in H];
      (eapply added_mono; [|apply H]); simpl; intros; apply in_or_app; auto.
  - destruct H as (n & _ & _ & H). now apply (iter_caps _ _ IH) in H.
  - destruct H as (mid & Hr & ->). apply IH in Hr as (new & E & F).
    exists ((i, consumed st mid) :: new). simpl. split; [now rewrite E|].
    constructor; [now left|]. eapply Forall_impl; eauto; simpl; auto.
  - destruct H as [-> _]. apply added_refl.
Qed.

Lemma Run_caps_same (r : regex) (st st' : mstate) :
  group_ids r = [] → Run r st st' → caps st' = caps st.
Proof.
  intros E H. apply Run_caps in H as (new & -> & F). rewrite E in F.
  destruct new as [|e new]; [reflexivity|]. now inversion F.
Qed.

(** A quantified character class consumes characters of the class. *)
Lemma iter_chr (p : ascii → bool) :
  ∀ n st st', iter (Run (Chr p)) n st st' →
  ∃ txt, length txt = n ∧ Forall (λ c, p c = true) txt
         ∧ rest st = txt ++ rest st'.
Proof.
  induction n as [|n IH]; intros st st' H; simpl in H.
  - subst. now exists [].
  - destruct H as (mid & (c & t & E & Hp & ->) & _ & H).
    apply IH in H as (txt & <- & F & E'). simpl in E'.
    exists (c :: txt). repeat split; [now constructor|]. now rewrite E, E'.
Qed.

Lemma Run_rep_chr (g : bool) (lo : nat) (hi : option nat) (p : ascii → bool)
    (st st' : mstate) :
  Run (Rep g lo hi (Chr p)) st st' →
  ∃ txt, lo ≤ length txt ∧ within (length txt) hi
         ∧ Forall (λ c, p c = true) txt
         ∧ rest st = txt ++ rest st' ∧ caps st' = caps st.
Proof.
  intros H. pose proof (Run_caps_same (Rep g lo hi (Chr p)) _ _ eq_refl H) as Hc.
  destruct H as (n & Hlo & Hhi & H).
  apply iter_chr in H as (txt & <- & F & E). now exists txt.
Qed.

Lemma Run_lit (c : ascii) (st st' : mstate) :
  Run (lit c) st st' → rest st = c :: rest st' ∧ caps st' = caps st.
Proof.
  intros (x & t & E & Hx & ->). apply Ascii.eqb_eq in Hx as ->. now split.
Qed.

(** A group around a pattern without groups records the text consumed. *)
Lemma Run_grp (i : nat) (r : regex) (st st' : mstate) :
  group_ids r = [] → Run (Grp i r) st st' →
  ∃ mid txt, Run r st mid ∧ rest st = txt ++ rest mid
             ∧ rest st' = rest mid ∧ caps st' = (i, txt) :: caps st.
Proof.
  intros Hg (mid & Hr & ->).
  destruct (Run_rest _ _ _ Hr) as [txt E].
  exists mid, txt. simpl. rewrite (consumed_app _ _ _ E).
  now rewrite (Run_caps_same _ _ _ Hg Hr).
Qed.

Lemma Run_grp_plus (i : nat) (g : bool) (p : ascii → bool) (st st' : mstate) :
  Run (Grp i (Rep g 1 None (Chr p))) st st' →
  ∃ txt, txt ≠ [] ∧ Forall (λ c, p c = true) txt
         ∧ rest st = txt ++ rest st' ∧ caps st' = (i, txt) :: caps st.
Proof.
  intros H. apply Run_grp in H as (mid & txt & Hr & E & E' & Hc); [|reflexivity].
  apply Run_rep_chr in Hr as (txt' & Hlo & _ & F & E2 & _).
  assert (txt' = txt) as -> by (rewrite E2 in E; now apply app_inv_tail in E).
  exists txt. rewrite E'. repeat split; auto. intros ->. simpl in Hlo. lia.
Qed.

(** ** The fuel of a quantifier never runs out *)

(** [local body]: the body only enters its continuation at positions of
    the subject at or after the one it starts from. *)
Definition local {A} (body : mstate → @kont A → option A) : Prop :=
  ∀ st k k',
    (∀ st', length (rest st') ≤ length (rest st) → k st' = k' st') →
    body st k = body st k'.

Lemma rep_local {A} (body : mstate → @kont A → option A)
    (g : bool) (lo : nat) (hi : option nat) :
  local body → ∀ fuel n, local (λ st k, rep body g lo hi fuel n st k).
Proof.
  intros Hb. induction fuel as [|fuel IH]; intros n st k k' Hk; simpl.
  - now rewrite (Hk st (le_n _)).
  - rewrite (Hk st (le_n _)).
    rewrite (Hb st _ (λ st', if progress st st'
                              then rep body g lo hi fuel (S n) st' k'
                              else None)); [reflexivity|].
    intros st' Hst'. destruct (progress st st'); [|reflexivity].
    apply IH. intros st'' Hst''. apply Hk. lia.
Qed.

Lemma exec_local {A} (r : regex) : local (@exec A r).
Proof.
  induction r as [|p|a IHa b IHb|a IHa b IHb|g lo hi r IH|i r IH|];
    intros st k k' Hk; cbn [exec].
  - now apply Hk.
  - destruct (rest st) as [|x t] eqn:E; [reflexivity|].
    destruct (p x); [|reflexivity]. apply Hk. simpl. lia.
  - apply IHa. intros st' Hst'. apply IHb. intros st'' Hst''. apply Hk. lia.
  - now rewrite (IHa st k k' Hk), (IHb st k k' Hk).
  - now apply (rep_local _ g lo hi IH).
  - apply IH. intros st' Hst'. now apply Hk.
  - destruct (at_boundary st); [now apply Hk | reflexivity].
Qed.

(** With more fuel than the subject has characters left, a quantifier
    gives the same result whatever the fuel: the bound that [exec] picks,
    one more than the length of the rest, cuts no iteration off. *)
Lemma rep_fuel {A} (body : mstate → @kont A → option A)
    (g : bool) (lo : nat) (hi : option nat) :
  local body →
  ∀ fuel fuel' n st k,
    length (rest st) < fuel → length (rest st) < fuel' →
    rep body g lo hi fuel n st k = rep body g lo hi fuel' n st k.
Proof.
  intros Hb. induction fuel as [|fuel IH]; intros [|fuel'] n st k H H';
    try lia. simpl.
  rewrite (Hb st _ (λ st', if progress st st'
                            then rep body g lo hi fuel' (S n) st' k
                            else None)); [reflexivity|].
  intros st' Hst'. destruct (progress st st') eqn:Hp; [|reflexivity].
  unfold progress in Hp. apply Nat.ltb_lt in Hp. apply IH; lia.
Qed.

Lemma exec_rep_fuel {A} (g : bool) (lo : nat) (hi : option nat) (r : regex)
    (fuel : nat) (st : mstate) (k : @kont A) :
  length (rest st) < fuel →
  exec (Rep g lo hi r) st k = rep (exec r) g lo hi fuel 0 st k.
Proof.
  intros H. cbn [exec]. apply rep_fuel; [apply exec_local | lia | exact H].
Qed.

(** ** Where a keyword pattern is sure to match *)

(** A quantified class in front of a continuation that cannot fail: the
    match succeeds as soon as the minimum is reached. *)
Lemma rep_total {A} (p : ascii → bool) (k : @kont A) (g : bool) :
  (∀ st, is_Some (k st)) →
  ∀ fuel n st, 1 ≤ n → is_Some (rep (exec (Chr p)) g 1 None fuel n st k).
Proof.
  intros Hk. induction fuel as [|fuel IH]; intros n st Hn; cbn [rep];
    rewrite (proj2 (Nat.leb_le 1 n) Hn).
  - apply Hk.
  - destruct g.
    + match goal with
      | |- is_Some (match ?e with _ => _ end) => destruct e; [eauto | apply Hk]
      end.
    + destruct (Hk st) as [v ->]. eauto.
Qed.

Lemma exec_chr {A} (p : ascii → bool) (st : mstate) (k : @kont A)
    (x : ascii) (t : list ascii) :
  rest st = x :: t → p x = true → exec (Chr p) st k = k (advance x t st).
Proof. intros E Hx. cbn [exec]. now rewrite E, Hx. Qed.

Lemma exec_plus_total {A} (p : ascii → bool) (k : @kont A) (g : bool)
    (st : mstate) (x : ascii) (t : list ascii) :
  (∀ st, is_Some (k st)) → rest st = x :: t → p x = true →
  is_Some (exec (Rep g 1 None (Chr p)) st k).
Proof.
  intros Hk E Hx.
  change (exec (Rep g 1 None (Chr p)) st k)
    with (rep (exec (Chr p)) g 1 None (S (length (rest st))) 0 st k).
  cbn [rep below]. change (1 <=? 0) with false.
  rewrite (exec_chr p st _ x t E Hx).
  assert (Hp : progress st (advance x t st) = true).
  { unfold progress, advance. cbn [rest]. rewrite E. apply Nat.ltb_lt. simpl. lia. }
  rewrite Hp.
  destruct (rep_total p k g Hk (length (rest st)) 1 (advance x t st) (le_n 1))
    as [v Hv].
  rewrite Hv. destruct g; eauto.
Qed.

(** The literals of a keyword match the keyword. *)
Lemma exec_lits {A} (kw : list ascii) :
  ∀ (o : option ascii) (l : list ascii) (cs : list (nat * list ascii)) (k : @kont A),
  ∃ o', exec (cat (map lit kw)) (MState o (kw ++ l) cs) k = k (MState o' l cs).
Proof.
  induction kw as [|x kw IH]; intros o l cs k.
  - exists o. reflexivity.
  - destruct (IH (Some x) l cs k) as [o' E]. exists o'.
    change (cat (map lit (x :: kw))) with (Seq (lit x) (cat (map lit kw))).
    cbn [exec lit rest app]. rewrite Ascii.eqb_refl. exact E.
Qed.

(** "<keyword><name>" matches wherever the keyword is followed by a word
    character. *)
Lemma search_from_keyword (kw : list ascii) (x : ascii) (t : list ascii) :
  Py.isword x = true →
  ∀ pre o,
    is_Some (search_from (cat [cat (map lit kw); Grp 1 (plus w)]) o
               (pre ++ kw ++ x :: t)).
Proof.
  intros Hx.
  assert (Hat : ∀ o, is_Some (match_at (cat [cat (map lit kw); Grp 1 (plus w)])
                                (start o (kw ++ x :: t)))).
  { intros o. unfold match_at, start. cbn [cat foldr exec].
    destruct (exec_lits kw o (x :: t) []
                (λ st', exec (plus w) st' (λ st'', Some (close 1 st' st''))))
      as [o' ->].
    destruct (exec_plus_total Py.isword
                (λ st'', Some (close 1 (MState o' (x :: t) []) st''))
                true (MState o' (x :: t) []) x t) as [v Hv];
      [eauto | reflexivity | exact Hx |].
    unfold plus, w. rewrite Hv. simpl. eauto. }
  induction pre as [|y pre IH]; intros o.
  - destruct (Hat o) as [m Hm]. simpl.
    destruct (kw ++ x :: t); simpl in *; rewrite Hm; eauto.
  - cbn [app search_from].
    destruct (match_at _ (start o (y :: pre ++ kw ++ x :: t))); [eauto|].
    apply IH.
Qed.

End ReFacts.

(* ===================================================================== *)
(** * The line parser                                                     *)
(* ===================================================================== *)

Module ParserFacts.
Import Re ReFacts.
Local Open Scope nat_scope.

Lemma Run_seq (a b : regex) (st st' : mstate) :
  Run (Seq a b) st st' ↔ ∃ mid, Run a st mid ∧ Run b mid st'.
Proof. reflexivity. Qed.

Lemma Run_opt (r : regex) (st st' : mstate) :
  Run (opt r) st st' → st' = st ∨ Run r st st'.
Proof.
  intros (n & _ & Hhi & H). simpl in Hhi.
  destruct n as [|[|n]]; [now left | right | lia].
  now destruct H as (mid & Hr & _ & ->).
Qed.

Ltac step H m Hm := apply Run_seq in H as (m & Hm & H).

Lemma pattern_run_shape (l : list ascii) (st' : mstate) :
  Run AuthLogCollector.pattern (start None l) st' →
  ∃ ts s1 host s2 proc pidtxt s3 msg pidcap,
    l = ts ++ s1 ++ host ++ s2 ++ proc ++ pidtxt ++ ":"%char :: s3 ++ msg ++ rest st'
    ∧ caps st' = (5, msg) :: pidcap ++ [(3, proc); (2, host); (1, ts)]
    ∧ ts ≠ [] ∧ host ≠ [] ∧ proc ≠ []
    ∧ Forall (λ c, Py.isspace c = false) proc
    ∧ s3 ≠ [] ∧ Forall (λ c, Py.isspace c = true) s3
    ∧ msg ≠ [] ∧ Forall (λ c, c ≠ Py.newline) msg
    ∧ (pidtxt = [] ∧ pidcap = []
       ∨ ∃ pid, pid ≠ [] ∧ Forall (λ c, Py.isdecimal c = true) pid
                ∧ pidtxt = "["%char :: pid ++ ["]"%char] ∧ pidcap = [(4, pid)]).
Proof.
  unfold AuthLogCollector.pattern. cbn [cat foldr]. intros H.
  step H m1 H1. step H m2 H2. step H m3 H3. step H m4 H4. step H m5 H5.
  step H m6 H6. step H m7 H7. step H m8 H8. step H m9 H9.
  simpl in H. subst st'.
  (* group 1: the time stamp *)
  apply Run_grp in H1 as (i1 & ts & H1 & E1 & R1 & C1); [|reflexivity].
  assert (Hts : ts ≠ []).
  { step H1 j1 W1. apply Run_rep_chr in W1 as (t1 & L1 & _ & _ & Et & _).
    apply Run_rest in H1 as [t2 Et2]. rewrite Et, Et2, app_assoc in E1.
    apply app_inv_tail in E1 as <-. destruct t1; [simpl in L1; lia | discriminate]. }
  apply Run_rep_chr in H2 as (s1 & _ & _ & _ & E2 & C2).
  apply Run_grp_plus in H3 as (host & Hh & _ & E3 & C3).
  apply Run_rep_chr in H4 as (s2 & _ & _ & _ & E4 & C4).
  apply Run_grp_plus in H5 as (proc & Hp & Fp & E5 & C5).
  apply Run_lit in H7 as (E7 & C7).
  apply Run_rep_chr in H8 as (s3 & L8 & _ & F8 & E8 & C8).
  apply Run_grp_plus in H9 as (msg & Hm & Fm & E9 & C9).
  assert (Hpid : ∃ pidtxt pidcap, rest m5 = pidtxt ++ rest m6
            ∧ caps m6 = pidcap ++ caps m5
            ∧ (pidtxt = [] ∧ pidcap = []
               ∨ ∃ pid, pid ≠ [] ∧ Forall (λ c, Py.isdecimal c = true) pid
                 ∧ pidtxt = "["%char :: pid ++ ["]"%char] ∧ pidcap = [(4, pid)])).
  { apply Run_opt in H6 as [-> | H6].
    - exists [], []. auto.
    - step H6 k1 K1. step H6 k2 K2. step H6 k3 K3. simpl in H6. subst k3.
      apply Run_lit in K1 as (Ek1 & Ck1). apply Run_lit in K3 as (Ek3 & Ck3).
      apply Run_grp_plus in K2 as (pid & Hpid & Fpid & Ek2 & Ck2).
      exists ("["%char :: pid ++ ["]"%char]), [(4, pid)].
      split; [|split].
      + rewrite Ek1, Ek2, Ek3. simpl. now rewrite <- app_assoc.
      + rewrite Ck3, Ck2, Ck1. reflexivity.
      + right. exists pid. auto. }
  destruct Hpid as (pidtxt & pidcap & E6 & C6 & Hpid).
  exists ts, s1, host, s2, proc, pidtxt, s3, msg, pidcap.
  simpl in E1, C1. rewrite R1 in *.
  repeat split; try assumption.
  - rewrite E1, E2, E3, E4, E5, E6, E7, E8, E9. reflexivity.
  - rewrite C9, C8, C7, C6, C5, C4, C3, C2, C1. reflexivity.
  - eapply Forall_impl; [exact Fp|]. simpl. intros c Hc. now apply negb_true_iff in Hc.
  - intros ->. simpl in L8. lia.
  - eapply Forall_impl; [exact Fm|]. simpl. intros c Hc ->.
    now rewrite Ascii.eqb_refl in Hc.
Qed.

Lemma pattern_same : AuthLogCollectorDB.pattern = AuthLogCollector.pattern.
Proof. reflexivity. Qed.

Lemma of_list_app (a b : list ascii) :
  string_of_list_ascii (a ++ b) = string_of_list_ascii a +:+ string_of_list_ascii b.
Proof. induction a as [|x a IH]; [reflexivity|]. simpl. now rewrite IH. Qed.

Lemma of_list_nil (a : list ascii) : string_of_list_ascii a = "" → a = [].
Proof. now destruct a. Qed.

Lemma re_match_Run (pat : regex) (line : string) (m : Match) :
  re_match pat line = Some m →
  ∃ st', Run pat (start None (list_ascii_of_string line)) st'
         ∧ m = mk_match (start None (list_ascii_of_string line)) st'.
Proof.
  unfold re_match, match_at. intros H.
  destruct (exec pat _ Some) as [st'|] eqn:E; [|discriminate].
  injection H as <-. apply exec_sound in E as (st'' & HR & [= ->]). eauto.
Qed.

(** The shape of a line the structural pattern matches, and what the five
    groups hold. *)
Lemma re_match_pattern_shape (line : string) (m : Match) :
  re_match AuthLogCollector.pattern line = Some m →
  ∃ ts s1 host s2 proc pidtxt s3 msg post : string,
    line = ts +:+ s1 +:+ host +:+ s2 +:+ proc +:+ pidtxt +:+ ":" +:+ s3
           +:+ msg +:+ post
    ∧ group m 1 = Some ts ∧ group m 2 = Some host ∧ group m 3 = Some proc
    ∧ group m 5 = Some msg
    ∧ ts ≠ "" ∧ host ≠ "" ∧ proc ≠ "" ∧ msg ≠ "" ∧ s3 ≠ ""
    ∧ Forall (λ c, Py.isspace c = true) (list_ascii_of_string s3)
    ∧ (pidtxt = "" ∧ group m 4 = None
       ∨ ∃ pid, pid ≠ "" ∧ pidtxt = "[" +:+ pid +:+ "]" ∧ group m 4 = Some pid
                ∧ Forall (λ c, Py.isdecimal c = true) (list_ascii_of_string pid)).
Proof.
  intros H. apply re_match_Run in H as (st' & HR & ->).
  apply pattern_run_shape in HR
    as (ts & s1 & host & s2 & proc & pidtxt & s3 & msg & pidcap & E & C
        & Hts & Hh & Hp & _ & Hs3 & Fs3 & Hm & _ & Hpid).
  exists (string_of_list_ascii ts), (string_of_list_ascii s1),
    (string_of_list_ascii host), (string_of_list_ascii s2),
    (string_of_list_ascii proc), (string_of_list_ascii pidtxt),
    (string_of_list_ascii s3), (string_of_list_ascii msg),
    (string_of_list_ascii (rest st')).
  assert (Hne : ∀ a, a ≠ [] → string_of_list_ascii a ≠ "")
    by (intros a Ha Hs; now apply of_list_nil in Hs).
  split.
  { rewrite <- (string_of_list_ascii_of_string line), E.
    rewrite !of_list_app. cbn [string_of_list_ascii]. now rewrite !of_list_app. }
  unfold group, mk_match; cbn [captures]. rewrite C.
  rewrite list_ascii_of_string_of_list_ascii.
  destruct Hpid as [[-> ->] | (pid & Hpid & Fpid & -> & ->)]; simpl;
    repeat (split; [solve [auto]|]).
  - now left.
  - right. exists (string_of_list_ascii pid).
    rewrite list_ascii_of_string_of_list_ascii.
    repeat split; auto. now rewrite of_list_app.
Qed.

End ParserFacts.

(** ** The per-line transform, step by step *)

Section Transform.
Import Py.

(** The record the console collector builds from a match and a date. *)
Definition console_event (c : AuthLogCollector.collector) (line : string)
    (m : Re.Match) (dt : Datetime.datetime) : AuthLogCollector.event :=
  let message := default "" (Re.group m 5) in
  let event_type :=
    AuthLogCollector._detect_event_type c (default "" (Re.group m 3)) message in
  {| AuthLogCollector.timestamp := Datetime.isoformat dt;
     AuthLogCollector.hostname := default "" (Re.group m 2);
     AuthLogCollector.process := default "" (Re.group m 3);
     AuthLogCollector.pid := Re.group m 4;
     AuthLogCollector.event_type := event_type;
     AuthLogCollector.user := AuthLogCollector._extract_user c message;
     AuthLogCollector.ip_address := AuthLogCollector._extract_ip c message;
     AuthLogCollector.message := message;
     AuthLogCollector.risk_score :=
       AuthLogCollector._calculate_risk c event_type message;
     AuthLogCollector.raw_log := line |}.

(** The entry ['pid'] of the database-backed collector:
    [int(pid) if pid else None]. *)
Definition db_pid (w : world) (m : Re.Match) : result (option Z) :=
  match Re.group m 4 with
  | Some p =>
      if truthy p then n ← int (int_max_str_digits w) p; mret (Some n)
      else mret None
  | None => mret None
  end.

(** The record the database-backed collector builds. *)
Definition db_event (d : AuthLogCollectorDB.collector) (line : string)
    (m : Re.Match) (dt : Datetime.datetime) (pid : option Z)
  : AuthLogCollectorDB.event :=
  let message := default "" (Re.group m 5) in
  let event_type :=
    AuthLogCollectorDB._detect_event_type d (default "" (Re.group m 3)) message in
  {| AuthLogCollectorDB.timestamp := dt;
     AuthLogCollectorDB.hostname := default "" (Re.group m 2);
     AuthLogCollectorDB.process := default "" (Re.group m 3);
     AuthLogCollectorDB.pid := pid;
     AuthLogCollectorDB.event_type := event_type;
     AuthLogCollectorDB.user_name := AuthLogCollectorDB._extract_user d message;
     AuthLogCollectorDB.ip_address := AuthLogCollectorDB._extract_ip d message;
     AuthLogCollectorDB.message := message;
     AuthLogCollectorDB.risk_score :=
       AuthLogCollectorDB._calculate_risk d event_type message;
     AuthLogCollectorDB.raw_log := line |}.

(** The text handed to [strptime], for the year [y]. *)
Definition stamp_of (y : Z) (m : Re.Match) : string :=
  str_of_int y +:+ " " +:+ default "" (Re.group m 1).

Lemma parse_log_line_eq (w : world) (c : AuthLogCollector.collector)
    (line : string) :
  AuthLogCollector.parse_log_line w c line
  = match Re.re_match AuthLogCollector.pattern line with
    | None => Ok None
    | Some m =>
        match Datetime.strptime (stamp_of (Datetime.year (now w)) m) with
        | Ok dt => Ok (Some (console_event c line m dt))
        | Raise e => Raise e
        end
    end.
Proof. reflexivity. Qed.

Lemma parse_log_line_db_eq (w : world) (d : AuthLogCollectorDB.collector)
    (line : string) :
  AuthLogCollectorDB.parse_log_line w d line
  = match Re.re_match AuthLogCollector.pattern line with
    | None => Ok None
    | Some m =>
        match Datetime.strptime (stamp_of (Datetime.year (now w)) m) with
        | Ok dt =>
            match db_pid w m with
            | Ok pid => Ok (Some (db_event d line m dt pid))
            | Raise e => Raise e
            end
        | Raise e => Raise e
        end
    end.
Proof. reflexivity. Qed.
End Transform.

Section Records.
Import Py PyFacts ParserFacts.
Variable w : world.
Variable c : AuthLogCollector.collector.
Variable d : AuthLogCollectorDB.collector.

Lemma parse_log_line_Some (line : string) (e : AuthLogCollector.event) :
  AuthLogCollector.parse_log_line w c line = Ok (Some e) →
  ∃ m dt, Re.re_match AuthLogCollector.pattern line = Some m
          ∧ Datetime.strptime (stamp_of (Datetime.year (now w)) m) = Ok dt
          ∧ e = console_event c line m dt.
Proof.
  rewrite parse_log_line_eq. intros H.
  destruct (Re.re_match AuthLogCollector.pattern line) as [m|]; [|discriminate].
  destruct (Datetime.strptime _) as [dt|] eqn:E; [|discriminate].
  injection H as <-. now exists m, dt.
Qed.

Lemma parse_log_line_db_Some (line : string) (e : AuthLogCollectorDB.event) :
  AuthLogCollectorDB.parse_log_line w d line = Ok (Some e) →
  ∃ m dt pid, Re.re_match AuthLogCollector.pattern line = Some m
              ∧ Datetime.strptime (stamp_of (Datetime.year (now w)) m) = Ok dt
              ∧ db_pid w m = Ok pid
              ∧ e = db_event d line m dt pid.
Proof.
  rewrite parse_log_line_db_eq. intros H.
  destruct (Re.re_match AuthLogCollector.pattern line) as [m|]; [|discriminate].
  destruct (Datetime.strptime _) as [dt|] eqn:E; [|discriminate].
  destruct (db_pid w m) as [pid|] eqn:Ep; [|discriminate].
  injection H as <-. now exists m, dt, pid.
Qed.

(** A line the structural pattern does not match gives [None], without an
    exception, in both collectors. *)
Lemma parse_log_line_no_match (line : string) :
  Re.re_match AuthLogCollector.pattern line = None →
  AuthLogCollector.parse_log_line w c line = Ok None
  ∧ AuthLogCollectorDB.parse_log_line w d line = Ok None.
Proof.
  intros H. rewrite parse_log_line_eq, parse_log_line_db_eq, H. now split.
Qed.

(** Somewhere in the line a colon is followed by a white-space character. *)
Definition colon_then_space (line : string) : Prop :=
  ∃ pre x post, line = pre +:+ ":" +:+ String x post ∧ isspace x = true.

Lemma re_match_colon_then_space (line : string) (m : Re.Match) :
  Re.re_match AuthLogCollector.pattern line = Some m → colon_then_space line.
Proof.
  intros H. apply re_match_pattern_shape in H
    as (ts & s1 & host & s2 & proc & pidtxt & s3 & msg & post & -> & _ & _ & _
        & _ & _ & _ & _ & _ & Hs3 & Fs3 & _).
  destruct s3 as [|x s3]; [congruence|]. inversion Fs3 as [|? ? Hx _]; subst.
  exists (ts +:+ s1 +:+ host +:+ s2 +:+ proc +:+ pidtxt), x, (s3 +:+ msg +:+ post).
  split; [|assumption]. now rewrite !app_assoc.
Qed.

(** C10. A record produced by [parse_log_line], in either collector, has a
    non-empty process field and a non-empty message field; a line in which
    no colon is followed by white space yields no record, for instance one
    that ends in "sshd[1234]:". *)
Theorem parsed_process_and_message_nonempty (line : string) :
  (∀ e, AuthLogCollector.parse_log_line w c line = Ok (Some e) →
        AuthLogCollector.process e ≠ "" ∧ AuthLogCollector.message e ≠ "")
  ∧ (∀ e, AuthLogCollectorDB.parse_log_line w d line = Ok (Some e) →
          AuthLogCollectorDB.process e ≠ "" ∧ AuthLogCollectorDB.message e ≠ "")
  ∧ (¬ colon_then_space line →
     AuthLogCollector.parse_log_line w c line = Ok None
     ∧ AuthLogCollectorDB.parse_log_line w d line = Ok None)
  ∧ AuthLogCollector.parse_log_line w c "Jan 21 22:04:35 myhost sshd[1234]:"
    = Ok None
  ∧ AuthLogCollectorDB.parse_log_line w d "Jan 21 22:04:35 myhost sshd[1234]:"
    = Ok None.
Proof.
  split; [|split; [|split]].
  - intros e H. apply parse_log_line_Some in H as (m & dt & Hm & _ & ->).
    apply re_match_pattern_shape in Hm
      as (ts & s1 & host & s2 & proc & pidtxt & s3 & msg & post & _ & _ & _
          & Hg3 & Hg5 & _ & _ & Hp & Hmsg & _).
    unfold console_event.
    cbn [AuthLogCollector.process AuthLogCollector.message].
    rewrite Hg3, Hg5. now split.
  - intros e H. apply parse_log_line_db_Some in H as (m & dt & pid & Hm & _ & _ & ->).
    apply re_match_pattern_shape in Hm
      as (ts & s1 & host & s2 & proc & pidtxt & s3 & msg & post & _ & _ & _
          & Hg3 & Hg5 & _ & _ & Hp & Hmsg & _).
    unfold db_event.
    cbn [AuthLogCollectorDB.process AuthLogCollectorDB.message].
    rewrite Hg3, Hg5. now split.
  - intros Hno. apply parse_log_line_no_match.
    destruct (Re.re_match AuthLogCollector.pattern line) as [m|] eqn:E;
      [|reflexivity].
    now apply re_match_colon_then_space in E.
  - apply parse_log_line_no_match. vm_compute. reflexivity.
Qed.
End Records.

Lemma parsed_process_and_message_nonempty_witness :
  ∃ e, AuthLogCollector.parse_log_line (Sample.world_of 2026 None)
         Sample.console Sample.failed_password
       = Py.Ok (Some e)
       ∧ AuthLogCollector.process e = "sshd"
       ∧ AuthLogCollector.process e ≠ ""
       ∧ AuthLogCollector.message e ≠ "".
Proof.
  eexists. split; [vm_compute; reflexivity|].
  split; [reflexivity|].
  apply (parsed_process_and_message_nonempty (Sample.world_of 2026 None)
           Sample.console Sample.db Sample.failed_password).
  vm_compute. reflexivity.
Defined.


(* ===================================================================== *)
(** * Time stamps and the concrete scenario                               *)
(* ===================================================================== *)

Module YearFacts.
Import Py.
Local Open Scope Z_scope.

Lemma digit_char_code (k : Z) :
  0 <= k <= 9 → code (digit_char k) = (48 + Z.to_N k)%N.
Proof.
  intros Hk. unfold code, digit_char. apply N_ascii_embedding. lia.
Qed.

Lemma digit_char_decimal (k : Z) : 0 <= k <= 9 → isdecimal (digit_char k) = true.
Proof.
  intros Hk. unfold isdecimal, between. rewrite (digit_char_code k Hk).
  apply andb_true_intro. split; apply N.leb_le; lia.
Qed.

Lemma digit_char_not_space (k : Z) : 0 <= k <= 9 → isspace (digit_char k) = false.
Proof.
  intros Hk. unfold isspace, between. rewrite (digit_char_code k Hk).
  repeat match goal with
         | |- context [(?a <=? ?b)%N] => destruct (N.leb_spec a b); try lia
         end; reflexivity.
Qed.

Lemma digit_val_char (k : Z) : 0 <= k <= 9 → digit_val (digit_char k) = k.
Proof. intros Hk. unfold digit_val. rewrite (digit_char_code k Hk). lia. Qed.

(** The fuel of [digits] never runs out: any fuel that is at least the
    number gives the same digits. *)
Lemma digits_fuel (fuel : nat) :
  ∀ fuel' n acc,
    0 <= n <= Z.of_nat fuel → n <= Z.of_nat fuel' →
    digits fuel n acc = digits fuel' n acc.
Proof.
  induction fuel as [|fuel IH]; intros [|fuel'] n acc Hn Hn'; simpl;
    try reflexivity.
  - destruct (Z.ltb_spec n 10); [reflexivity | lia].
  - destruct (Z.ltb_spec n 10); [reflexivity | lia].
  - destruct (Z.ltb_spec n 10); [reflexivity|].
    apply IH; Z.div_mod_to_equations; lia.
Qed.

(** The text of a year of four digits. *)
Definition four (a b c e : Z) : string :=
  String (digit_char a) (String (digit_char b)
    (String (digit_char c) (String (digit_char e) ""))).

Lemma str_of_int_year (y : Z) :
  1000 <= y <= 9999 →
  ∃ a b c e, 1 <= a <= 9 ∧ 0 <= b <= 9 ∧ 0 <= c <= 9 ∧ 0 <= e <= 9
             ∧ y = 1000 * a + 100 * b + 10 * c + e
             ∧ str_of_int y = four a b c e.
Proof.
  intros Hy.
  exists (y / 10 / 10 / 10 mod 10), (y / 10 / 10 mod 10), (y / 10 mod 10), (y mod 10).
  repeat split; try (Z.div_mod_to_equations; lia).
  unfold str_of_int. destruct (Z.ltb_spec y 0); [lia|].
  destruct (Z.to_nat y) as [|[|[|[|n]]]] eqn:E; try lia.
  cbn [digits].
  destruct (Z.ltb_spec y 10); [lia|].
  destruct (Z.ltb_spec (y / 10) 10); [Z.div_mod_to_equations; lia|].
  destruct (Z.ltb_spec (y / 10 / 10) 10); [Z.div_mod_to_equations; lia|].
  destruct (Z.ltb_spec (y / 10 / 10 / 10) 10); [|Z.div_mod_to_equations; lia].
  reflexivity.
Qed.

Lemma int_four (a b c e : Z) :
  0 <= a <= 9 → 0 <= b <= 9 → 0 <= c <= 9 → 0 <= e <= 9 →
  decimal (four a b c e) = 1000 * a + 100 * b + 10 * c + e.
Proof.
  intros Ha Hb Hc He. unfold decimal, strip, four.
  cbn [lstrip]. rewrite (digit_char_not_space a Ha).
  cbn [String.rev String.rev_app lstrip]. rewrite (digit_char_not_space e He).
  cbn [String.rev String.rev_app]. unfold int_of_digits.
  cbn [list_ascii_of_string fold_left].
  rewrite !digit_val_char by assumption. lia.
Qed.

(** What follows the year in the expression of [strptime]. *)
Definition format_tail : Re.regex :=
  match Datetime.format_regex with
  | Re.Seq _ tail => tail
  | _ => Re.Eps
  end.

Lemma exec_year {A} (d1 d2 d3 d4 : ascii) (l : list ascii) (k : @Re.kont A) :
  isdecimal d1 = true → isdecimal d2 = true →
  isdecimal d3 = true → isdecimal d4 = true →
  Re.exec Datetime.format_regex (Re.start None (d1 :: d2 :: d3 :: d4 :: l)) k
  = Re.exec format_tail (Re.MState (Some d4) l [(1%nat, [d1; d2; d3; d4])]) k.
Proof.
  intros H1 H2 H3 H4.
  change Datetime.format_regex
    with (Re.Seq (Re.Grp 1 (Re.cat [Re.d; Re.d; Re.d; Re.d])) format_tail).
  cbn [Re.exec Re.cat foldr Re.d Re.rest Re.start Re.advance].
  rewrite H1, H2, H3, H4. unfold Re.close, Re.consumed, Re.advance, Re.start.
  cbn [Re.rest Re.prev Re.caps length].
  replace (S (S (S (S (length l)))) - length l)%nat with 4%nat by lia.
  reflexivity.
Qed.

Lemma in_range_true (lo hi x : Z) : lo <= x <= hi → Datetime.in_range lo hi x = true.
Proof.
  intros H. unfold Datetime.in_range. apply andb_true_intro.
  split; apply Z.leb_le; lia.
Qed.

Section Digits.
Variables d1 d2 d3 d4 : ascii.
Hypothesis H1 : isdecimal d1 = true.
Hypothesis H2 : isdecimal d2 = true.
Hypothesis H3 : isdecimal d3 = true.
Hypothesis H4 : isdecimal d4 = true.

Definition yyyy (text : string) : string :=
  String d1 (String d2 (String d3 (String d4 text))).

Lemma re_match_jan_21 :
  Re.re_match Datetime.format_regex (yyyy " Jan 21 22:04:35")
  = Some (Re.MkMatch (yyyy " Jan 21 22:04:35")
            [ (6, "35"); (5, "04"); (4, "22"); (3, "21"); (2, "Jan");
              (1, yyyy "") ]%nat).
Proof.
  unfold Re.re_match, Re.match_at, yyyy. cbn [list_ascii_of_string].
  rewrite (exec_year _ _ _ _ _ _ H1 H2 H3 H4). vm_compute. reflexivity.
Qed.

Lemma re_match_jan_32 :
  Re.re_match Datetime.format_regex (yyyy " Jan 32 22:04:35") = None.
Proof.
  unfold Re.re_match, Re.match_at, yyyy. cbn [list_ascii_of_string].
  rewrite (exec_year _ _ _ _ _ _ H1 H2 H3 H4). vm_compute. reflexivity.
Qed.

Lemma strptime_jan_21_digits (y : Z) :
  decimal (yyyy "") = y → 1 <= y <= 9999 →
  Datetime.strptime (yyyy " Jan 21 22:04:35")
  = Ok (Datetime.MkDatetime y 1 21 22 4 35).
Proof.
  intros Hy Hr. unfold Datetime.strptime. rewrite re_match_jan_21.
  unfold Datetime.field.
  cbn [Re.whole Re.group Re.captures Re.assoc Nat.eqb default from_option id].
  replace (negb (String.length (yyyy " Jan 21 22:04:35")
                 =? String.length (yyyy " Jan 21 22:04:35"))%nat)
    with false by (now rewrite Nat.eqb_refl).
  change (Datetime.index_of (lower "Jan") Datetime.a_month) with (Some 0%nat).
  cbv iota. rewrite Hy.
  change (decimal "21") with 21. change (decimal "22") with 22.
  change (decimal "04") with 4. change (decimal "35") with 35.
  unfold Datetime.make. rewrite (in_range_true 1 9999 y Hr). reflexivity.
Qed.

Lemma strptime_jan_32_digits :
  Datetime.strptime (yyyy " Jan 32 22:04:35") = Raise ValueError.
Proof. unfold Datetime.strptime. now rewrite re_match_jan_32. Qed.
End Digits.

Lemma four_yyyy (a b c e : Z) (text : string) :
  four a b c e +:+ text
  = yyyy (digit_char a) (digit_char b) (digit_char c) (digit_char e) text.
Proof. reflexivity. Qed.

Lemma strptime_jan_21 (y : Z) :
  1000 <= y <= 9999 →
  Datetime.strptime (str_of_int y +:+ " " +:+ "Jan 21 22:04:35")
  = Ok (Datetime.MkDatetime y 1 21 22 4 35).
Proof.
  intros Hy.
  destruct (str_of_int_year y Hy) as (a & b & c & e & Ha & Hb & Hc & He & Ey & ->).
  change (" " +:+ "Jan 21 22:04:35") with " Jan 21 22:04:35". rewrite four_yyyy.
  apply strptime_jan_21_digits;
    try (apply digit_char_decimal; lia); [|lia].
  change (yyyy _ _ _ _ "") with (four a b c e).
  rewrite int_four by lia. lia.
Qed.

Lemma strptime_jan_32 (y : Z) :
  1000 <= y <= 9999 →
  Datetime.strptime (str_of_int y +:+ " " +:+ "Jan 32 22:04:35")
  = Raise ValueError.
Proof.
  intros Hy.
  destruct (str_of_int_year y Hy) as (a & b & c & e & Ha & Hb & Hc & He & Ey & ->).
  change (" " +:+ "Jan 32 22:04:35") with " Jan 32 22:04:35". rewrite four_yyyy.
  apply strptime_jan_32_digits; apply digit_char_decimal; lia.
Qed.

End YearFacts.

Section Scenario.
Import Py YearFacts.

Variable w : world.
Variable c : AuthLogCollector.collector.
Variable d : AuthLogCollectorDB.collector.
Hypothesis year_ok : (1000 <= Datetime.year (now w) <= 9999)%Z.

Definition scenario_message : string :=
  "Failed password for invalid user admin from 10.0.0.5 port 22 ssh2".

Lemma failed_password_match :
  Re.re_match AuthLogCollector.pattern Sample.failed_password
  = Some (Re.MkMatch Sample.failed_password
            [ (5, scenario_message); (4, "1234"); (3, "sshd"); (2, "myhost");
              (1, "Jan 21 22:04:35") ]).
Proof. vm_compute. reflexivity. Qed.

(** C7. The line of the concrete scenario gives a record with event type
    INVALID_USER, user "admin" (captured by the pattern "user <name>",
    which is tried first; "for <name>" would capture "invalid"), IP address
    "10.0.0.5" and risk score 10, which is the base 8 plus 2 for "failed".
    The IP address is the first dotted quad of the message, whatever the
    size of its numbers. *)
Theorem failed_password_scenario :
  ∃ e, AuthLogCollector.parse_log_line w c Sample.failed_password = Ok (Some e)
       ∧ AuthLogCollector.event_type e = "INVALID_USER"
       ∧ AuthLogCollector.user e = "admin"
       ∧ AuthLogCollector.ip_address e = Some "10.0.0.5"
       ∧ AuthLogCollector.risk_score e = 10%Z
       ∧ AuthLogCollector.message e = scenario_message
       ∧ (Re.re_search (Re.cat [Re.str "user "; Re.Grp 1 (Re.plus Re.w)])
            scenario_message ≫= λ m, Re.group m 1) = Some "admin"
       ∧ (Re.re_search (Re.cat [Re.str "for "; Re.Grp 1 (Re.plus Re.w)])
            scenario_message ≫= λ m, Re.group m 1) = Some "invalid"
       ∧ (Spec.base_score "INVALID_USER" + 2 = 10)%Z
       ∧ AuthLogCollector._extract_ip c "from 999.300.1.2 via 10.0.0.5"
         = Some "999.300.1.2".
Proof.
  unfold AuthLogCollector.parse_log_line. rewrite failed_password_match.
  cbn [Re.group Re.captures Re.assoc Nat.eqb default from_option id].
  rewrite (strptime_jan_21 _ year_ok).
  eexists. split; [reflexivity|].
  cbn [AuthLogCollector.event_type AuthLogCollector.user
       AuthLogCollector.ip_address AuthLogCollector.risk_score
       AuthLogCollector.message].
  repeat split; vm_compute; reflexivity.
Qed.

(** The database-backed collector gives the same fields. *)
Lemma failed_password_scenario_db :
  ∃ e, AuthLogCollectorDB.parse_log_line w d Sample.failed_password = Ok (Some e)
       ∧ AuthLogCollectorDB.event_type e = "INVALID_USER"
       ∧ AuthLogCollectorDB.user_name e = "admin"
       ∧ AuthLogCollectorDB.ip_address e = Some "10.0.0.5"
       ∧ AuthLogCollectorDB.risk_score e = 10%Z.
Proof.
  unfold AuthLogCollectorDB.parse_log_line.
  rewrite ParserFacts.pattern_same, failed_password_match.
  cbn [Re.group Re.captures Re.assoc Nat.eqb default from_option id].
  rewrite (strptime_jan_21 _ year_ok).
  eexists. split; [reflexivity|].
  cbn [AuthLogCollectorDB.event_type AuthLogCollectorDB.user_name
       AuthLogCollectorDB.ip_address AuthLogCollectorDB.risk_score].
  repeat split; vm_compute; reflexivity.
Qed.

Lemma day_32_match :
  Re.re_match AuthLogCollector.pattern Sample.day_32
  = Some (Re.MkMatch Sample.day_32
            [ (5, "Failed password for root"); (4, "1234"); (3, "sshd");
              (2, "myhost"); (1, "Jan 32 22:04:35") ]).
Proof. vm_compute. reflexivity. Qed.

(** C3, at the failing input. The line [Sample.day_32] has the shape the
    structural pattern asks for, and [parse_log_line] raises [ValueError]
    on it in both collectors: [strptime] rejects the day 32. *)
Theorem parse_log_line_raises_on_day_32 :
  Re.re_match AuthLogCollector.pattern Sample.day_32 ≠ None
  ∧ AuthLogCollector.parse_log_line w c Sample.day_32 = Raise ValueError
  ∧ AuthLogCollectorDB.parse_log_line w d Sample.day_32 = Raise ValueError.
Proof.
  split; [now rewrite day_32_match|].
  unfold AuthLogCollector.parse_log_line, AuthLogCollectorDB.parse_log_line.
  rewrite ParserFacts.pattern_same, day_32_match.
  cbn [Re.group Re.captures Re.assoc Nat.eqb default from_option id].
  rewrite (strptime_jan_32 _ year_ok). now split.
Qed.
End Scenario.

Lemma failed_password_scenario_witness :
  (1000 <= 2026 <= 9999)%Z
  ∧ ∃ e, AuthLogCollector.parse_log_line (Sample.world_of 2026 None)
           Sample.console Sample.failed_password = Py.Ok (Some e)
         ∧ AuthLogCollector.user e = "admin".
Proof.
  split; [lia|].
  assert (Hy : (1000 <= Datetime.year (now (Sample.world_of 2026 None)) <= 9999)%Z)
    by (cbn; lia).
  destruct (failed_password_scenario (Sample.world_of 2026 None) Sample.console Hy)
    as (e & H & _ & Hu & _).
  exists e. split; assumption.
Defined.

(** Other well-shaped lines whose time stamp is no date raise as well: an
    unknown month name, an hour 24, and 29 February outside a leap year. *)
Lemma parse_log_line_raises_on_other_dates :
  Forall (λ line,
            AuthLogCollector.parse_log_line (Sample.world_of 2026 None)
              Sample.console line = Py.Raise Py.ValueError
            ∧ AuthLogCollectorDB.parse_log_line (Sample.world_of 2026 None)
                Sample.db line = Py.Raise Py.ValueError)
    [ "Foo 21 22:04:35 myhost sshd[1234]: Failed password for root";
      "Jan 21 24:00:00 myhost sshd[1234]: Failed password for root";
      "Feb 29 08:00:00 myhost sshd[1234]: Failed password for root";
      "x 1 1:1:1 h p: m" ].
Proof. repeat constructor; vm_compute; reflexivity. Qed.

Lemma parse_log_line_raises_on_day_32_witness :
  (1000 <= 2026 <= 9999)%Z
  ∧ AuthLogCollector.parse_log_line (Sample.world_of 2026 None)
      Sample.console Sample.day_32 = Py.Raise Py.ValueError.
Proof.
  split; [lia|].
  apply (parse_log_line_raises_on_day_32 (Sample.world_of 2026 None)
           Sample.console Sample.db).
  cbn; lia.
Defined.


(* ===================================================================== *)
(** * User extraction                                                     *)
(* ===================================================================== *)

Module UserFacts.
Import Re ReFacts ParserFacts.
Local Open Scope nat_scope.

Lemma search_from_sound (pat : regex) :
  ∀ l p m, search_from pat p l = Some m →
  ∃ p' pre l', l = pre ++ l' ∧ match_at pat (start p' l') = Some m.
Proof.
  induction l as [|x l IH]; intros p m H; simpl in H.
  - destruct (match_at pat (start p [])) eqn:E; [|discriminate].
    injection H as ->. now exists p, [], [].
  - destruct (match_at pat (start p (x :: l))) eqn:E.
    + injection H as ->. now exists p, [], (x :: l).
    + apply IH in H as (p' & pre & l' & -> & H).
      now exists p', (x :: pre), l'.
Qed.

Lemma match_at_Run (pat : regex) (st : mstate) (m : Match) :
  match_at pat st = Some m → ∃ st', Run pat st st' ∧ m = mk_match st st'.
Proof.
  unfold match_at. intros H.
  destruct (exec pat st Some) as [st'|] eqn:E; [|discriminate].
  injection H as <-. apply exec_sound in E as (st'' & HR & [= ->]). eauto.
Qed.

Lemma Run_str (kw : list ascii) :
  ∀ st st', Run (cat (map lit kw)) st st' →
  rest st = kw ++ rest st' ∧ caps st' = caps st.
Proof.
  induction kw as [|x kw IH]; intros st st' H.
  - simpl in H. subst. now split.
  - change (cat (map lit (x :: kw))) with (Seq (lit x) (cat (map lit kw))) in H.
    apply Run_seq in H as (mid & Hx & H).
    apply Run_lit in Hx as (Ex & Cx). apply IH in H as (E & C).
    split; [now rewrite Ex, E | now rewrite C].
Qed.

(** A match of "<keyword>(\w+)" anywhere in the message: its only group
    holds a non-empty name of word characters that follows the keyword. *)
Lemma re_search_keyword (kw message : string) (m : Match) :
  re_search (cat [str kw; Grp 1 (plus w)]) message = Some m →
  ∃ name, captures m = [(1, name)] ∧ name ≠ ""
          ∧ Forall (λ x, Py.isword x = true) (list_ascii_of_string name)
          ∧ PyFacts.occurs (kw +:+ name) message.
Proof.
  unfold re_search. intros H.
  apply search_from_sound in H as (p' & pre & l' & E & H).
  apply match_at_Run in H as (st' & HR & ->).
  cbn [cat foldr] in HR. apply Run_seq in HR as (m1 & H1 & HR).
  apply Run_seq in HR as (m2 & H2 & HR). simpl in HR. subst m2.
  apply Run_str in H1 as (E1 & C1).
  apply Run_grp_plus in H2 as (name & Hn & Fn & E2 & C2).
  exists (string_of_list_ascii name). repeat split.
  - unfold mk_match. cbn [captures]. rewrite C2, C1. reflexivity.
  - intros Hs. now apply of_list_nil in Hs.
  - now rewrite list_ascii_of_string_of_list_ascii.
  - exists (string_of_list_ascii pre), (string_of_list_ascii (rest st')).
    rewrite <- (string_of_list_ascii_of_string message), E.
    simpl in E1. rewrite E1, E2, !of_list_app, string_of_list_ascii_of_string.
    now rewrite PyFacts.app_assoc.
Qed.

Lemma captured_Some (kw message : string) (m : Match) :
  re_search (cat [str kw; Grp 1 (plus w)]) message = Some m →
  ∃ name, Spec.captured kw message = Some name
          ∧ group m 1 = Some name ∧ lastindex m = Some 1.
Proof.
  intros H. unfold Spec.captured. rewrite H.
  apply re_search_keyword in H as (name & C & _).
  exists name. simpl. unfold group, lastindex. rewrite C. simpl. now repeat split.
Qed.

Lemma captured_None (kw message : string) :
  re_search (cat [str kw; Grp 1 (plus w)]) message = None →
  Spec.captured kw message = None.
Proof. intros H. unfold Spec.captured. now rewrite H. Qed.

Lemma to_list_app (a b : string) :
  list_ascii_of_string (a +:+ b) = list_ascii_of_string a ++ list_ascii_of_string b.
Proof.
  induction a as [|x a IH]; [reflexivity|].
  rewrite PyFacts.app_cons. simpl. now rewrite IH.
Qed.

(** "<keyword><name>" matches somewhere in the message exactly when the
    keyword occurs in it right before a word character. *)
Lemma captured_iff (kw message : string) :
  is_Some (Spec.captured kw message)
  ↔ ∃ pre x post, message = pre +:+ kw +:+ String x post ∧ Py.isword x = true.
Proof.
  split.
  - intros [name H]. unfold Spec.captured in H.
    destruct (re_search _ message) as [m|] eqn:E; [|discriminate].
    apply re_search_keyword in E as (name' & _ & Hn & Fn & (pre & post & ->)).
    destruct name' as [|x name']; [congruence|].
    inversion Fn as [|? ? Hx _]; subst.
    exists pre, x, (name' +:+ post). split; [|exact Hx].
    now rewrite PyFacts.app_assoc, PyFacts.app_cons.
  - intros (pre & x & post & -> & Hx).
    destruct (search_from_keyword (list_ascii_of_string kw) x
                (list_ascii_of_string post) Hx (list_ascii_of_string pre) None)
      as [m Hm].
    assert (E : re_search (cat [str kw; Grp 1 (plus w)])
                  (pre +:+ kw +:+ String x post) = Some m).
    { unfold re_search. now rewrite !to_list_app. }
    apply captured_Some in E as (name & -> & _). eauto.
Qed.

(** A match of a pattern without groups has no last group. *)
Lemma re_search_no_groups (pat : regex) (message : string) (m : Match) :
  group_ids pat = [] → re_search pat message = Some m → lastindex m = None.
Proof.
  unfold re_search. intros Hg H.
  apply search_from_sound in H as (p' & pre & l' & E & H).
  apply match_at_Run in H as (st' & HR & ->).
  apply (Run_caps_same _ _ _ Hg) in HR.
  unfold lastindex, mk_match. cbn [captures]. now rewrite HR.
Qed.

End UserFacts.

(** The third pattern of the console collector: [by \(uid=\d+\)]. *)
Definition uid_pattern : Re.regex :=
  Re.cat [Re.str "by (uid="; Re.plus Re.d; Re.lit ")"].

(** What the console collector does: as [Spec.extract_user], except that
    after the two patterns it returns "root" when "by (uid=<digits>)"
    occurs in the message, and never looks for the word "root". *)
Definition extract_user_console (message : string) : string :=
  match Spec.captured "user " message with
  | Some name => name
  | None =>
      match Spec.captured "for " message with
      | Some name => name
      | None =>
          if bool_decide (is_Some (Re.re_search uid_pattern message))
          then "root" else "unknown"
      end
  end.

Section Users.
Import Py PyFacts UserFacts.
Variable c : AuthLogCollector.collector.
Variable d : AuthLogCollectorDB.collector.

Lemma extract_user_db_spec (message : string) :
  AuthLogCollectorDB._extract_user d message = Spec.extract_user message.
Proof.
  unfold AuthLogCollectorDB._extract_user, Spec.extract_user,
    AuthLogCollectorDB.patterns. cbn [AuthLogCollectorDB._extract_user_loop].
  destruct (Re.re_search _ message) as [m|] eqn:E1.
  { apply captured_Some in E1 as (name & -> & -> & _). reflexivity. }
  rewrite (captured_None _ _ E1). clear E1.
  destruct (Re.re_search _ message) as [m|] eqn:E2.
  { apply captured_Some in E2 as (name & -> & -> & _). reflexivity. }
  rewrite (captured_None _ _ E2). clear E2.
  rewrite (keyword_test "root" message eq_refl). unfold bool_decide, decide.
  now destruct (occurs_ci_dec "root" message).
Qed.

Lemma extract_user_console_spec (message : string) :
  AuthLogCollector._extract_user c message = extract_user_console message.
Proof.
  unfold AuthLogCollector._extract_user, extract_user_console,
    AuthLogCollector.patterns. cbn [AuthLogCollector._extract_user_loop].
  destruct (Re.re_search _ message) as [m|] eqn:E1.
  { apply captured_Some in E1 as (name & -> & -> & ->). reflexivity. }
  rewrite (captured_None _ _ E1). clear E1.
  destruct (Re.re_search _ message) as [m|] eqn:E2.
  { apply captured_Some in E2 as (name & -> & -> & ->). reflexivity. }
  rewrite (captured_None _ _ E2). clear E2.
  fold uid_pattern.
  destruct (Re.re_search uid_pattern message) as [m|] eqn:E3.
  - rewrite (re_search_no_groups uid_pattern _ _ eq_refl E3).
    rewrite bool_decide_eq_true_2; [reflexivity | eauto].
  - rewrite bool_decide_eq_false_2; [reflexivity | now inversion 1].
Qed.

(** Where the message has neither "user <name>" nor "for <name>", the two
    collectors go different ways. *)
Lemma extract_user_fallbacks (message : string) :
  Spec.captured "user " message = None →
  Spec.captured "for " message = None →
  AuthLogCollectorDB._extract_user d message
  = (if decide (occurs_ci "root" message) then "root" else "unknown")
  ∧ AuthLogCollector._extract_user c message
    = (if bool_decide (is_Some (Re.re_search uid_pattern message))
       then "root" else "unknown").
Proof.
  intros H1 H2. rewrite extract_user_db_spec, extract_user_console_spec.
  unfold Spec.extract_user, extract_user_console. now rewrite H1, H2.
Qed.
End Users.

(** A message about root that names no user. *)
Definition root_login : string := "ROOT LOGIN on tty1".

(** C5, at the failing input.  In the message "ROOT LOGIN on tty1" neither
    pattern matches and "root" occurs, in capitals, so the user is "root"
    by the specification.  The database-backed collector returns "root";
    the console collector returns "unknown".  It is wrong the other way
    round on "job started by (uid=0)", which does not contain "root": the
    specification and the database-backed collector give "unknown", the
    console collector gives "root". *)
Theorem extract_user_console_misses_root :
  Spec.captured "user " root_login = None
  ∧ Spec.captured "for " root_login = None
  ∧ PyFacts.occurs_ci "root" root_login
  ∧ Spec.extract_user root_login = "root"
  ∧ AuthLogCollectorDB._extract_user Sample.db root_login = "root"
  ∧ AuthLogCollector._extract_user Sample.console root_login = "unknown"
  ∧ Spec.extract_user "job started by (uid=0)" = "unknown"
  ∧ AuthLogCollectorDB._extract_user Sample.db "job started by (uid=0)"
    = "unknown"
  ∧ AuthLogCollector._extract_user Sample.console "job started by (uid=0)"
    = "root".
Proof.
  split; [vm_compute; reflexivity|].
  split; [vm_compute; reflexivity|].
  split; [apply PyFacts.contains_lower_iff; vm_compute; reflexivity|].
  repeat split; vm_compute; reflexivity.
Qed.

(* ===================================================================== *)
(** * The two collectors side by side                                     *)
(* ===================================================================== *)

Section Variants.
Import Py PyFacts ParserFacts.

(** Apart from the user, the two collectors go the same way on every line
    but one whose process id is too long for [int]: there the console
    collector returns a record and the database-backed collector raises.
    Where both return a record, the records agree on event type, IP
    address, risk score, host name, process, message and raw line, and the
    users are those of the two [_extract_user]. *)
Lemma parse_log_line_variants_side_by_side
    (w : world) (c : AuthLogCollector.collector)
    (d : AuthLogCollectorDB.collector) (line : string) :
  match AuthLogCollector.parse_log_line w c line,
        AuthLogCollectorDB.parse_log_line w d line with
  | Ok None, Ok None => True
  | Raise e1, Raise e2 => e1 = e2
  | Ok (Some a), Ok (Some b) =>
      AuthLogCollector.event_type a = AuthLogCollectorDB.event_type b
      ∧ AuthLogCollector.ip_address a = AuthLogCollectorDB.ip_address b
      ∧ AuthLogCollector.risk_score a = AuthLogCollectorDB.risk_score b
      ∧ AuthLogCollector.hostname a = AuthLogCollectorDB.hostname b
      ∧ AuthLogCollector.process a = AuthLogCollectorDB.process b
      ∧ AuthLogCollector.message a = AuthLogCollectorDB.message b
      ∧ AuthLogCollector.raw_log a = AuthLogCollectorDB.raw_log b
      ∧ AuthLogCollector.timestamp a
        = Datetime.isoformat (AuthLogCollectorDB.timestamp b)
      ∧ AuthLogCollector.user a
        = extract_user_console (AuthLogCollector.message a)
      ∧ AuthLogCollectorDB.user_name b
        = Spec.extract_user (AuthLogCollector.message a)
  | Ok (Some a), Raise e =>
      ∃ p, AuthLogCollector.pid a = Some p
           ∧ int (int_max_str_digits w) p = Raise e
  | _, _ => False
  end.
Proof.
  rewrite parse_log_line_eq, parse_log_line_db_eq.
  destruct (Re.re_match AuthLogCollector.pattern line) as [m|]; [|exact I].
  destruct (Datetime.strptime _) as [dt|e]; [|reflexivity].
  destruct (db_pid w m) as [pid|e] eqn:Ep.
  - unfold console_event, db_event.
    cbn [AuthLogCollector.event_type AuthLogCollector.ip_address
         AuthLogCollector.risk_score AuthLogCollector.hostname
         AuthLogCollector.process AuthLogCollector.message
         AuthLogCollector.raw_log AuthLogCollector.timestamp
         AuthLogCollector.user
         AuthLogCollectorDB.event_type AuthLogCollectorDB.ip_address
         AuthLogCollectorDB.risk_score AuthLogCollectorDB.hostname
         AuthLogCollectorDB.process AuthLogCollectorDB.message
         AuthLogCollectorDB.raw_log AuthLogCollectorDB.timestamp
         AuthLogCollectorDB.user_name].
    rewrite extract_user_console_spec, extract_user_db_spec.
    repeat split.
  - unfold console_event. cbn [AuthLogCollector.pid].
    unfold db_pid in Ep. destruct (Re.group m 4) as [p|]; [|discriminate].
    destruct (truthy p); [|discriminate].
    destruct (int (int_max_str_digits w) p) as [n|e'] eqn:En; [discriminate|].
    cbn [mbind result_bind] in Ep. exists p. split; congruence.
Qed.
End Variants.

(** C9, at the failing input.  On the line below both collectors produce
    a record, with the same event type, IP address and risk score, but
    not the same user: the console collector gives "unknown", the
    database-backed collector gives "root", as the specification's
    [extract_user] does.  On a line of cron it is the console collector
    that gives "root" and the database-backed collector "unknown". *)
Theorem parse_log_line_variants_differ_on_user :
  (∃ a b,
     AuthLogCollector.parse_log_line (Sample.world_of 2026 None) Sample.console
       "Jan 21 22:04:35 myhost login[77]: ROOT LOGIN on tty1" = Py.Ok (Some a)
     ∧ AuthLogCollectorDB.parse_log_line (Sample.world_of 2026 None) Sample.db
         "Jan 21 22:04:35 myhost login[77]: ROOT LOGIN on tty1" = Py.Ok (Some b)
     ∧ AuthLogCollector.message a = root_login
     ∧ AuthLogCollector.event_type a = AuthLogCollectorDB.event_type b
     ∧ AuthLogCollector.ip_address a = AuthLogCollectorDB.ip_address b
     ∧ AuthLogCollector.risk_score a = AuthLogCollectorDB.risk_score b
     ∧ AuthLogCollector.user a = "unknown"
     ∧ AuthLogCollectorDB.user_name b = "root"
     ∧ Spec.extract_user (AuthLogCollector.message a) = "root")
  ∧ (∃ a b,
       AuthLogCollector.parse_log_line (Sample.world_of 2026 None) Sample.console
         "Jan 21 22:04:35 myhost cron[99]: job started by (uid=0)" = Py.Ok (Some a)
       ∧ AuthLogCollectorDB.parse_log_line (Sample.world_of 2026 None) Sample.db
           "Jan 21 22:04:35 myhost cron[99]: job started by (uid=0)"
         = Py.Ok (Some b)
       ∧ AuthLogCollector.user a = "root"
       ∧ AuthLogCollectorDB.user_name b = "unknown"
       ∧ Spec.extract_user (AuthLogCollector.message a) = "unknown").
Proof.
  split.
  - do 2 eexists. split; [vm_compute; reflexivity|].
    split; [vm_compute; reflexivity|].
    repeat split; vm_compute; reflexivity.
  - do 2 eexists. split; [vm_compute; reflexivity|].
    split; [vm_compute; reflexivity|].
    repeat split; vm_compute; reflexivity.
Qed.

(** The two collectors do not always agree on whether a record is
    produced either: on a line whose process id has 4301 digits the
    console collector returns a record, with the digits as they are, and
    the database-backed collector raises [ValueError] in [int]. *)
Lemma parse_log_line_db_raises_on_long_pid :
  (∃ a, AuthLogCollector.parse_log_line (Sample.world_of 2026 None)
          Sample.console Sample.long_pid = Py.Ok (Some a)
        ∧ String.length <$> AuthLogCollector.pid a = Some 4301%nat)
  ∧ AuthLogCollectorDB.parse_log_line (Sample.world_of 2026 None) Sample.db
      Sample.long_pid = Py.Raise Py.ValueError.
Proof.
  split.
  - eexists. split; [vm_compute; reflexivity|]. vm_compute. reflexivity.
  - vm_compute. reflexivity.
Qed.

(* ===================================================================== *)
(** * Sorting                                                             *)
(* ===================================================================== *)

Module SortFacts.
Local Open Scope Z_scope.

Section Descending.
Context {A : Type} (key : A → Z).

(** Earlier elements have keys at least as large as later ones. *)
Definition descending (l : list A) : Prop :=
  StronglySorted (λ a b, key b <= key a) l.

Lemma insert_desc_perm (x : A) (l : list A) :
  Permutation (insert_desc key x l) (x :: l).
Proof.
  induction l as [|y l IH]; simpl; [reflexivity|].
  destruct (key x <? key y); [|reflexivity].
  rewrite IH. apply perm_swap.
Qed.

Lemma sorted_reverse_perm (l : list A) : Permutation (sorted_reverse key l) l.
Proof.
  induction l as [|x l IH]; simpl; [reflexivity|].
  unfold sorted_reverse in *. simpl. rewrite insert_desc_perm. now rewrite IH.
Qed.

Lemma insert_desc_descending (x : A) (l : list A) :
  descending l → descending (insert_desc key x l).
Proof.
  unfold descending. induction 1 as [|y l Hl IH Hy]; simpl.
  - repeat constructor.
  - destruct (Z.ltb_spec (key x) (key y)).
    + constructor; [assumption|].
      rewrite insert_desc_perm. constructor; [lia | assumption].
    + constructor; [now constructor|].
      constructor; [assumption|].
      eapply Forall_impl; [exact Hy|]. simpl. intros; lia.
Qed.

Lemma sorted_reverse_descending (l : list A) : descending (sorted_reverse key l).
Proof.
  induction l as [|x l IH]; [constructor|].
  now apply insert_desc_descending.
Qed.

Lemma descending_take (n : nat) (l : list A) :
  descending l → descending (take n l).
Proof.
  unfold descending. intros H. revert n.
  induction H as [|y l Hl IH Hy]; intros [|n]; simpl; try constructor.
  - apply IH.
  - now apply Forall_take.
Qed.
End Descending.

Section OrderBy.
Context {A : Type} (before : A → A → bool).
Hypothesis before_asym : ∀ a b, before a b = true → before b a = false.
Hypothesis not_before_trans :
  ∀ a b c, before b a = false → before c b = false → before c a = false.

(** No later row should have come before an earlier one. *)
Definition ordered (l : list A) : Prop :=
  StronglySorted (λ a b, before b a = false) l.

Lemma insert_by_perm (x : A) (l : list A) :
  Permutation (AuthLogCollectorDB.insert_by before x l) (x :: l).
Proof.
  induction l as [|y l IH]; simpl; [reflexivity|].
  destruct (before y x); [|reflexivity].
  rewrite IH. apply perm_swap.
Qed.

Lemma order_by_perm (l : list A) :
  Permutation (AuthLogCollectorDB.order_by before l) l.
Proof.
  induction l as [|x l IH]; simpl; [reflexivity|].
  unfold AuthLogCollectorDB.order_by in *. simpl.
  rewrite insert_by_perm. now rewrite IH.
Qed.

Lemma insert_by_ordered (x : A) (l : list A) :
  ordered l → ordered (AuthLogCollectorDB.insert_by before x l).
Proof.
  unfold ordered. induction 1 as [|y l Hl IH Hy]; simpl.
  - repeat constructor.
  - destruct (before y x) eqn:E.
    + constructor; [assumption|].
      rewrite insert_by_perm. constructor; [now apply before_asym | assumption].
    + constructor; [now constructor|].
      constructor; [assumption|].
      eapply Forall_impl; [exact Hy|]. simpl. intros z Hz.
      now apply (not_before_trans x y z).
Qed.

Lemma order_by_ordered (l : list A) : ordered (AuthLogCollectorDB.order_by before l).
Proof.
  induction l as [|x l IH]; [constructor|].
  now apply insert_by_ordered.
Qed.

Lemma ordered_take (n : nat) (l : list A) : ordered l → ordered (take n l).
Proof.
  unfold ordered. intros H. revert n.
  induction H as [|y l Hl IH Hy]; intros [|n]; simpl; try constructor.
  - apply IH.
  - now apply Forall_take.
Qed.
End OrderBy.

(** [datetime] comparison is a strict total order on the six fields. *)
Lemma lex_ltb_asym : ∀ a b, Datetime.lex_ltb a b = true → Datetime.lex_ltb b a = false.
Proof.
  induction a as [|x a IH]; intros [|y b] H; simpl in *; try congruence.
  apply orb_true_iff in H as [H | H].
  - apply Z.ltb_lt in H. apply orb_false_iff. split.
    + apply Z.ltb_ge. lia.
    + apply andb_false_iff. left. apply Z.eqb_neq. lia.
  - apply andb_true_iff in H as [E H]. apply Z.eqb_eq in E as ->.
    rewrite Z.ltb_irrefl, Z.eqb_refl. simpl. now apply IH.
Qed.

Lemma lex_ltb_not_trans : ∀ a b c,
  length a = length b → length b = length c →
  Datetime.lex_ltb b a = false → Datetime.lex_ltb c b = false →
  Datetime.lex_ltb c a = false.
Proof.
  induction a as [|x a IH]; intros [|y b] [|z c] L1 L2 H1 H2;
    simpl in *; try congruence.
  apply orb_false_iff in H1 as [H1 H1']. apply orb_false_iff in H2 as [H2 H2'].
  apply Z.ltb_ge in H1, H2. apply orb_false_iff. split; [apply Z.ltb_ge; lia|].
  destruct (Z.eqb_spec z x) as [->|Hzx]; [|reflexivity]. simpl.
  assert (y = x) as -> by lia.
  rewrite Z.eqb_refl in H1', H2'. simpl in H1', H2'.
  apply (IH b c); congruence.
Qed.

Lemma risk_desc_time_desc_asym (a b : AuthLogCollectorDB.event) :
  AuthLogCollectorDB.risk_desc_time_desc a b = true →
  AuthLogCollectorDB.risk_desc_time_desc b a = false.
Proof.
  unfold AuthLogCollectorDB.risk_desc_time_desc, Datetime.ltb. intros H.
  apply orb_true_iff in H as [H | H].
  - apply Z.ltb_lt in H. apply orb_false_iff. split.
    + apply Z.ltb_ge. lia.
    + apply andb_false_iff. left. apply Z.eqb_neq. lia.
  - apply andb_true_iff in H as [E H]. apply Z.eqb_eq in E. rewrite E.
    rewrite Z.ltb_irrefl, Z.eqb_refl, orb_false_l, andb_true_l.
    now apply lex_ltb_asym.
Qed.

Lemma risk_desc_time_desc_not_trans (a b c : AuthLogCollectorDB.event) :
  AuthLogCollectorDB.risk_desc_time_desc b a = false →
  AuthLogCollectorDB.risk_desc_time_desc c b = false →
  AuthLogCollectorDB.risk_desc_time_desc c a = false.
Proof.
  unfold AuthLogCollectorDB.risk_desc_time_desc, Datetime.ltb. intros H1 H2.
  apply orb_false_iff in H1 as [H1 H1']. apply orb_false_iff in H2 as [H2 H2'].
  apply Z.ltb_ge in H1, H2. apply orb_false_iff. split; [apply Z.ltb_ge; lia|].
  destruct (Z.eqb_spec (AuthLogCollectorDB.risk_score c)
              (AuthLogCollectorDB.risk_score a)) as [E|E]; [|reflexivity].
  rewrite andb_true_l.
  assert (Eb : AuthLogCollectorDB.risk_score b = AuthLogCollectorDB.risk_score a)
    by lia.
  rewrite Eb, Z.eqb_refl, andb_true_l in H1'.
  rewrite E, Eb, Z.eqb_refl, andb_true_l in H2'.
  now apply (lex_ltb_not_trans _ (Datetime.key (AuthLogCollectorDB.timestamp b))).
Qed.

End SortFacts.

Section Listings.
Import SortFacts.
Variable c : AuthLogCollector.collector.

Lemma at_risk_filter (P : AuthLogCollector.event → Prop)
    `{∀ e, Decision (P e)} (logs : list AuthLogCollector.event) :
  Forall P (filter P logs).
Proof. apply Forall_forall. intros e He. now apply list_elem_of_filter in He. Qed.

(** The listing of the console collector: at most five events, all of
    score 5 or more, in descending order of score. *)
Lemma display_summary_top5 (logs : list AuthLogCollector.event) :
  let top := AuthLogCollector.top5 (AuthLogCollector.display_summary c logs) in
  (length top <= 5)%nat
  ∧ Forall (λ e, (5 <= AuthLogCollector.risk_score e)%Z) top
  ∧ descending AuthLogCollector.risk_score top
  ∧ (∀ e, e ∈ top → e ∈ logs).
Proof.
  unfold AuthLogCollector.display_summary. cbn [AuthLogCollector.top5].
  set (risk_events := filter _ logs). repeat split.
  - rewrite length_take. lia.
  - apply Forall_take. rewrite sorted_reverse_perm. apply at_risk_filter.
  - apply descending_take, sorted_reverse_descending.
  - intros e He. apply elem_of_take in He as (i & He & _).
    apply list_elem_of_lookup_2 in He. rewrite sorted_reverse_perm in He.
    now apply list_elem_of_filter in He.
Qed.

(** The listing of the database-backed collector: at most five rows, all
    of score 5 or more, ordered by score descending and, among equal
    scores, by time stamp descending. *)
Lemma top_risks_ordered (table : list AuthLogCollectorDB.event) :
  let top := AuthLogCollectorDB.top_risks table in
  (length top <= 5)%nat
  ∧ Forall (λ e, (5 <= AuthLogCollectorDB.risk_score e)%Z) top
  ∧ ordered AuthLogCollectorDB.risk_desc_time_desc top
  ∧ (∀ e, e ∈ top → e ∈ table).
Proof.
  unfold AuthLogCollectorDB.top_risks.
  set (risk_events := filter _ table). repeat split.
  - rewrite length_take. lia.
  - apply Forall_take. rewrite order_by_perm.
    apply Forall_forall. intros e He. now apply list_elem_of_filter in He.
  - apply ordered_take, order_by_ordered.
    + apply risk_desc_time_desc_asym.
    + apply risk_desc_time_desc_not_trans.
  - intros e He. apply elem_of_take in He as (i & He & _).
    apply list_elem_of_lookup_2 in He. rewrite order_by_perm in He.
    now apply list_elem_of_filter in He.
Qed.
End Listings.

(* ===================================================================== *)
(** * The collection loop and the risk listing                            *)
(* ===================================================================== *)

Module StripFacts.
Import Py.

Lemma rev_app_chars (s acc : string) :
  list_ascii_of_string (String.rev_app s acc)
  = rev (list_ascii_of_string s) ++ list_ascii_of_string acc.
Proof.
  revert acc. induction s as [|x s IH]; intros acc; simpl; [reflexivity|].
  rewrite IH. simpl. now rewrite <- List.app_assoc.
Qed.

Lemma rev_chars (s : string) :
  list_ascii_of_string (String.rev s) = rev (list_ascii_of_string s).
Proof. unfold String.rev. rewrite rev_app_chars. simpl. now rewrite List.app_nil_r. Qed.

Lemma rev_nil (s : string) : String.rev s = "" → s = "".
Proof.
  intros H. apply (f_equal list_ascii_of_string) in H. rewrite rev_chars in H.
  simpl in H. destruct s as [|x s]; [reflexivity|]. simpl in H.
  now destruct (rev (list_ascii_of_string s)).
Qed.

Lemma lstrip_head (s : string) :
  lstrip s = "" ∨ ∃ x t, lstrip s = String x t ∧ isspace x = false.
Proof.
  induction s as [|x s IH]; simpl; [now left|].
  destruct (isspace x) eqn:E; [exact IH|]. right. eauto.
Qed.

Definition blank (s : string) : Prop :=
  Forall (λ x, isspace x = true) (list_ascii_of_string s).

(** [s.strip()] is empty exactly when [s] is made of white space. *)
Lemma strip_nil_iff (s : string) : strip s = "" ↔ blank s.
Proof.
  unfold strip, blank. split.
  - intros H. apply rev_nil in H. apply PyFacts.lstrip_nil_iff in H.
    rewrite rev_chars in H. apply Forall_rev in H. rewrite rev_involutive in H.
    apply PyFacts.lstrip_nil_iff.
    destruct (lstrip_head s) as [E | (x & t & E & Hx)]; [exact E|].
    rewrite E in H. inversion H; congruence.
  - intros H. apply PyFacts.lstrip_nil_iff in H. now rewrite H.
Qed.

Lemma truthy_strip (s : string) : truthy (strip s) = false ↔ blank s.
Proof.
  rewrite <- strip_nil_iff. destruct (strip s); simpl; split; congruence.
Qed.

End StripFacts.

Section Collect.
Import Py StripFacts.
Variable w : world.
Variable c : AuthLogCollector.collector.

(** The test of the loop of [collect] together with the structural
    pattern: the line is not blank and has the expected shape. *)
Definition well_formed (line : string) : bool :=
  truthy (strip line)
  && bool_decide (is_Some (Re.re_match AuthLogCollector.pattern line)).

(** A line of the expected shape is never blank: it holds the process
    name, which has no white space. *)
Lemma matched_not_blank (line : string) (m : Re.Match) :
  Re.re_match AuthLogCollector.pattern line = Some m →
  truthy (strip line) = true.
Proof.
  intros H. destruct (truthy (strip line)) eqn:E; [reflexivity|].
  apply truthy_strip in E. unfold blank in E.
  apply ParserFacts.re_match_Run in H as (st' & HR & _).
  apply ParserFacts.pattern_run_shape in HR
    as (ts & s1 & host & s2 & proc & pidtxt & s3 & msg & pidcap & El & _
        & _ & _ & Hp & Fp & _).
  rewrite El in E. rewrite !Forall_app in E.
  destruct E as (_ & _ & _ & _ & E & _).
  destruct proc as [|x proc]; [congruence|].
  inversion E; inversion Fp; congruence.
Qed.

Lemma well_formed_matched (line : string) :
  well_formed line
  = bool_decide (is_Some (Re.re_match AuthLogCollector.pattern line)).
Proof.
  unfold well_formed.
  destruct (Re.re_match AuthLogCollector.pattern line) as [m|] eqn:E.
  - now rewrite (matched_not_blank line m E).
  - rewrite bool_decide_eq_false_2; [apply andb_false_r | now inversion 1].
Qed.

(** The time stamp of the line, if the line has the expected shape, is a
    date of the current year. *)
Definition dated (line : string) : Prop :=
  ∀ m, Re.re_match AuthLogCollector.pattern line = Some m →
       ∃ dt, Datetime.strptime (stamp_of (Datetime.year (now w)) m) = Ok dt.

(** On lines whose time stamps are dates, the loop of [collect] appends
    one record for each line that is not blank and has the expected
    shape, in the order of the lines. *)
Lemma collect_loop_dated (raw_logs : list string) :
  Forall dated raw_logs →
  ∀ parsed_logs, ∃ events,
    AuthLogCollector.collect_loop w c raw_logs parsed_logs
      = Ok (parsed_logs ++ events)
    ∧ Forall2 (λ line e, AuthLogCollector.parse_log_line w c line = Ok (Some e))
              (filter well_formed raw_logs) events.
Proof.
  induction 1 as [|line raw_logs Hd _ IH]; intros parsed_logs.
  - exists []. simpl. rewrite List.app_nil_r. split; [reflexivity | constructor].
  - cbn [AuthLogCollector.collect_loop].
    destruct (truthy (strip line)) eqn:Et.
    + rewrite parse_log_line_eq.
      destruct (Re.re_match AuthLogCollector.pattern line) as [m|] eqn:Em.
      * destruct (Hd m Em) as [dt Edt]. rewrite Edt. cbn [mbind result_bind].
        destruct (IH (parsed_logs ++ [console_event c line m dt]))
          as (events & E & F).
        exists (console_event c line m dt :: events). split.
        { rewrite E. now rewrite <- List.app_assoc. }
        rewrite filter_cons_True.
        { constructor; [|exact F]. now rewrite parse_log_line_eq, Em, Edt. }
        apply Is_true_true. unfold well_formed. now rewrite Et, Em.
      * cbn [mbind result_bind]. destruct (IH parsed_logs) as (events & E & F).
        exists events. split; [exact E|].
        rewrite filter_cons_False; [exact F|].
        intros Hwf. apply Is_true_true in Hwf. unfold well_formed in Hwf.
        rewrite Et, Em in Hwf. discriminate.
    + destruct (IH parsed_logs) as (events & E & F).
      exists events. split; [exact E|].
      rewrite filter_cons_False; [exact F|].
      intros Hwf. apply Is_true_true in Hwf. unfold well_formed in Hwf.
      rewrite Et in Hwf. discriminate.
Qed.

(** So [collect] returns exactly as many records as there are lines that
    are not blank and have the expected shape. *)
Lemma collect_dated (lines : Z) (raw_logs : list string) :
  AuthLogCollector.read_logs w c lines = Ok raw_logs →
  Forall dated raw_logs →
  ∃ events,
    AuthLogCollector.collect w c lines = Ok events
    ∧ length events = length (filter well_formed raw_logs)
    ∧ map AuthLogCollector.raw_log events = filter well_formed raw_logs.
Proof.
  intros Hr H. unfold AuthLogCollector.collect. rewrite Hr.
  cbn [mbind result_bind].
  destruct (collect_loop_dated _ H []) as (events & E & F).
  exists events. split; [exact E|]. split.
  - symmetry. exact (Forall2_length _ _ _ F).
  - clear E H. induction F as [|line e lines' events' He _ IH]; [reflexivity|].
    simpl. rewrite IH. f_equal.
    rewrite parse_log_line_eq in He.
    destruct (Re.re_match _ line) as [m|]; [|discriminate].
    destruct (Datetime.strptime _) as [dt|]; [|discriminate].
    now injection He as <-.
Qed.

(** Blank lines are skipped by the loop, without a call of the parser. *)
Lemma collect_loop_blank (line : string) (raw_logs : list string)
    (parsed_logs : list AuthLogCollector.event) :
  blank line →
  AuthLogCollector.collect_loop w c (line :: raw_logs) parsed_logs
  = AuthLogCollector.collect_loop w c raw_logs parsed_logs.
Proof.
  intros H. apply truthy_strip in H.
  cbn [AuthLogCollector.collect_loop]. now rewrite H.
Qed.

(** An empty batch gives an empty list: both when [sudo tail] fails and
    when it prints nothing. *)
Lemma collect_nothing (lines : Z) (n : string) :
  str_int (int_max_str_digits w) lines = Ok n →
  sudo_tail w lines (AuthLogCollector.log_path c) = None
  ∨ sudo_tail w lines (AuthLogCollector.log_path c) = Some "" →
  AuthLogCollector.collect w c lines = Ok [].
Proof.
  unfold AuthLogCollector.collect, AuthLogCollector.read_logs.
  intros -> [-> | ->]; reflexivity.
Qed.

(** A number of lines too long for [str] makes [read_logs] raise, and
    [collect] with it, before any subprocess runs. *)
Lemma collect_unprintable (lines : Z) (e : exn) :
  str_int (int_max_str_digits w) lines = Raise e →
  AuthLogCollector.read_logs w c lines = Raise e
  ∧ AuthLogCollector.collect w c lines = Raise e.
Proof.
  unfold AuthLogCollector.collect, AuthLogCollector.read_logs.
  now intros ->.
Qed.
End Collect.

Section Pipeline.
Import Py.

(** The output of [sudo tail]: the scenario line, a blank line and the
    line with the day 32. *)
Definition tail_with_day_32 : string :=
  Sample.unlines [Sample.failed_password; "   "; Sample.day_32].

(** C6, at the failing input. [read_logs] returns three lines, two of
    which are not blank and have the expected shape; [collect] does not
    return two records but raises [ValueError]. *)
Theorem collect_raises_on_day_32 :
  AuthLogCollector.read_logs (Sample.world_of 2026 (Some tail_with_day_32))
    Sample.console 50
  = Ok [Sample.failed_password; "   "; Sample.day_32]
  ∧ filter well_formed [Sample.failed_password; "   "; Sample.day_32]
    = [Sample.failed_password; Sample.day_32]
  ∧ AuthLogCollector.collect (Sample.world_of 2026 (Some tail_with_day_32))
      Sample.console 50
    = Raise ValueError.
Proof. repeat split; vm_compute; reflexivity. Qed.

Definition listing (logs : list AuthLogCollector.event) : list (Z * string) :=
  map (λ e, (AuthLogCollector.risk_score e, AuthLogCollector.timestamp e)) logs.

(** C4, at the failing input. The five lines of [Sample.ranked] have
    increasing time stamps and the scores 9, 9, 7, 8, 9.  The console
    collector lists the three events of score 9 in the order of the input,
    the earliest first, not the latest first. *)
Theorem display_summary_ties_in_input_order :
  ∃ logs,
    AuthLogCollector.collect
      (Sample.world_of 2026 (Some (Sample.unlines Sample.ranked)))
      Sample.console 100 = Ok logs
    ∧ listing logs
      = [ (9, "2026-01-21T10:00:01"); (9, "2026-01-21T10:00:02");
          (7, "2026-01-21T10:00:03"); (8, "2026-01-21T10:00:04");
          (9, "2026-01-21T10:00:05") ]%Z
    ∧ listing (AuthLogCollector.top5
                 (AuthLogCollector.display_summary Sample.console logs))
      = [ (9, "2026-01-21T10:00:01"); (9, "2026-01-21T10:00:02");
          (9, "2026-01-21T10:00:05"); (8, "2026-01-21T10:00:04");
          (7, "2026-01-21T10:00:03") ]%Z
    ∧ listing (AuthLogCollector.top5
                 (AuthLogCollector.display_summary Sample.console logs))
      ≠ [ (9, "2026-01-21T10:00:05"); (9, "2026-01-21T10:00:02");
          (9, "2026-01-21T10:00:01"); (8, "2026-01-21T10:00:04");
          (7, "2026-01-21T10:00:03") ]%Z.
Proof.
  eexists. split; [vm_compute; reflexivity|].
  split; [vm_compute; reflexivity|].
  split; [vm_compute; reflexivity|].
  vm_compute. discriminate.
Qed.

Definition listing_db (rows : list AuthLogCollectorDB.event)
  : list (Z * string) :=
  map (λ e, (AuthLogCollectorDB.risk_score e,
             Datetime.isoformat (AuthLogCollectorDB.timestamp e))) rows.

(** On the rows of the same five lines, the query of the database-backed
    collector does put the latest of the tied events first. *)
Lemma top_risks_ties_latest_first :
  ∃ rows,
    Forall2 (λ line row,
               AuthLogCollectorDB.parse_log_line (Sample.world_of 2026 None)
                 Sample.db line = Ok (Some row))
            Sample.ranked rows
    ∧ listing_db (AuthLogCollectorDB.top_risks rows)
      = [ (9, "2026-01-21T10:00:05"); (9, "2026-01-21T10:00:02");
          (9, "2026-01-21T10:00:01"); (8, "2026-01-21T10:00:04");
          (7, "2026-01-21T10:00:03") ]%Z.
Proof.
  eexists. split.
  - unfold Sample.ranked.
    repeat (constructor; [vm_compute; reflexivity|]). constructor.
  - vm_compute. reflexivity.
Qed.
End Pipeline.

(* ===================================================================== *)
(** * Further properties of the collectors                                *)
(* ===================================================================== *)

(** ** The number [str] refuses to print *)

Module PrintFacts.
Import Py.
Local Open Scope Z_scope.

(** The fuel of [digits] is enough as soon as it is the binary logarithm
    of the number. *)
Lemma digits_log_fuel (fuel : nat) :
  ∀ fuel' n acc,
    0 <= n < 2 ^ Z.of_nat (S fuel) → n < 2 ^ Z.of_nat (S fuel') →
    digits fuel n acc = digits fuel' n acc.
Proof.
  induction fuel as [|fuel IH]; intros [|fuel'] n acc Hn Hn'; cbn [digits];
    try reflexivity.
  - destruct (Z.ltb_spec n 10); [reflexivity|].
    change (2 ^ Z.of_nat 1) with 2 in Hn. lia.
  - destruct (Z.ltb_spec n 10); [reflexivity|].
    change (2 ^ Z.of_nat 1) with 2 in Hn'. lia.
  - destruct (Z.ltb_spec n 10); [reflexivity|].
    rewrite Nat2Z.inj_succ, Z.pow_succ_r in Hn, Hn' by lia.
    apply IH; Z.div_mod_to_equations; lia.
Qed.

Lemma below_power (n : Z) : 0 <= n → n < 2 ^ Z.of_nat (S (Z.to_nat (Z.log2 n))).
Proof.
  intros Hn. rewrite Nat2Z.inj_succ, Z2Nat.id by apply Z.log2_nonneg.
  destruct (Z.eq_dec n 0) as [->|Hz]; [reflexivity|].
  apply Z.log2_spec. lia.
Qed.

Lemma below_power_self (n : Z) : 0 <= n → n < 2 ^ Z.of_nat (S (Z.to_nat n)).
Proof.
  intros Hn. rewrite Nat2Z.inj_succ, Z2Nat.id by exact Hn.
  pose proof (Z.pow_gt_lin_r 2 (Z.succ n)). lia.
Qed.

(** What [str_int] prints is what [str_of_int] prints. *)
Lemma str_int_Ok (max_str_digits z : Z) (s : string) :
  str_int max_str_digits z = Ok s → s = str_of_int z.
Proof.
  unfold str_int, str_of_int. destruct (exceeds _ _); [discriminate|].
  intros [= <-]. destruct (Z.ltb_spec z 0).
  - rewrite Z.abs_neq by lia. f_equal.
    apply digits_log_fuel; [split; [lia|]|];
      [apply below_power | apply below_power_self]; lia.
  - rewrite Z.abs_eq by lia.
    apply digits_log_fuel; [split; [lia|]|];
      [apply below_power | apply below_power_self]; lia.
Qed.

Lemma digits_longer (fuel : nat) :
  ∀ n acc, (String.length acc < String.length (digits fuel n acc))%nat.
Proof.
  induction fuel as [|fuel IH]; intros n acc; cbn [digits].
  - cbn. lia.
  - destruct (n <? 10); [cbn; lia|].
    specialize (IH (n / 10) (String (digit_char (n mod 10)) acc)).
    cbn [String.length] in IH. lia.
Qed.

(** [digits] prints more than [x] characters exactly for the numbers from
    the [x]-th power of ten on. *)
Lemma digits_more (fuel : nat) :
  ∀ n acc (x : nat),
    0 <= n < 2 ^ Z.of_nat (S fuel) → (1 <= x)%nat →
    (x + String.length acc < String.length (digits fuel n acc))%nat
    ↔ 10 ^ Z.of_nat x <= n.
Proof.
  assert (Hten : ∀ x : nat, (1 <= x)%nat → 10 <= 10 ^ Z.of_nat x).
  { intros x Hx. change 10 with (10 ^ 1) at 1.
    apply Z.pow_le_mono_r; lia. }
  induction fuel as [|fuel IH]; intros n acc x Hn Hx; cbn [digits].
  - change (2 ^ Z.of_nat 1) with 2 in Hn. specialize (Hten x Hx).
    cbn [String.length]. split; lia.
  - destruct (Z.ltb_spec n 10) as [Hlt|Hge].
    + specialize (Hten x Hx). cbn [String.length]. split; lia.
    + rewrite Nat2Z.inj_succ, Z.pow_succ_r in Hn by lia.
      destruct x as [|[|x]]; [lia| |].
      * pose proof (digits_longer fuel (n / 10)
                      (String (digit_char (n mod 10)) acc)) as Hl.
        cbn [String.length] in Hl. change (10 ^ Z.of_nat 1) with 10.
        split; [intros _; exact Hge | intros _; lia].
      * specialize (IH (n / 10) (String (digit_char (n mod 10)) acc) (S x)).
        cbn [String.length] in IH.
        replace (S (S x) + String.length acc)%nat
          with (S x + S (String.length acc))%nat by lia.
        rewrite IH; [|Z.div_mod_to_equations; lia | lia].
        rewrite (Nat2Z.inj_succ (S x)), Z.pow_succ_r by lia.
        set (p := 10 ^ Z.of_nat (S x)).
        split; intros H; Z.div_mod_to_equations; lia.
Qed.

(** [str] refuses the numbers that have more digits than the limit, and
    more than 640: from the power of ten of that exponent on. *)
Lemma str_int_refuses (max_str_digits z : Z) :
  str_int max_str_digits z = Raise ValueError
  ↔ 0 < max_str_digits ∧ 10 ^ Z.max 640 max_str_digits <= Z.abs z.
Proof.
  unfold str_int, exceeds.
  set (n := Z.abs z). set (fuel := Z.to_nat (Z.log2 n)).
  assert (Hn : 0 <= n < 2 ^ Z.of_nat (S fuel))
    by (split; [apply Z.abs_nonneg | apply below_power, Z.abs_nonneg]).
  assert (Hmore : ∀ x : Z, 1 <= x →
            x < Z.of_nat (String.length (digits fuel n "")) ↔ 10 ^ x <= n).
  { intros x Hx. rewrite <- (Z2Nat.id x) at 2 by lia.
    rewrite <- (digits_more fuel n "" (Z.to_nat x) Hn) by lia.
    cbn [String.length]. lia. }
  destruct (Z.ltb_spec 0 max_str_digits) as [Hm|Hm].
  2:{ rewrite andb_false_r. cbn [andb]. split; [discriminate | lia]. }
  rewrite andb_true_r.
  destruct (640 <? _) eqn:E1; destruct (max_str_digits <? _) eqn:E2; cbn [andb].
  - split; [intros _|reflexivity]. split; [exact Hm|].
    apply Z.ltb_lt in E1, E2.
    apply (Hmore (Z.max 640 max_str_digits)); lia.
  - split; [discriminate|]. intros [_ H]. apply Hmore in H; [|lia].
    apply Z.ltb_ge in E2. lia.
  - split; [discriminate|]. intros [_ H]. apply Hmore in H; [|lia].
    apply Z.ltb_ge in E1. lia.
  - split; [discriminate|]. intros [_ H]. apply Hmore in H; [|lia].
    apply Z.ltb_ge in E1. lia.
Qed.

End PrintFacts.

(** ** The outcome of [collect] *)

Section CollectOutcome.
Import Py StripFacts.
Variable w : world.
Variable c : AuthLogCollector.collector.

(** [parse_log_line] returns on this line. *)
Definition returns (line : string) : Prop :=
  ∀ e, AuthLogCollector.parse_log_line w c line ≠ Raise e.

Lemma not_well_formed_None (line : string) :
  well_formed line = false →
  AuthLogCollector.parse_log_line w c line = Ok None.
Proof.
  rewrite well_formed_matched. intros H. rewrite parse_log_line_eq.
  destruct (Re.re_match AuthLogCollector.pattern line) as [m|]; [|reflexivity].
  rewrite bool_decide_eq_true_2 in H; [discriminate | eauto].
Qed.

Lemma collect_loop_outcome (raw_logs : list string) :
  ∀ parsed_logs,
    match AuthLogCollector.collect_loop w c raw_logs parsed_logs with
    | Ok logs =>
        ∃ events,
          logs = parsed_logs ++ events
          ∧ Forall2 (λ line e,
                       AuthLogCollector.parse_log_line w c line = Ok (Some e))
              (filter well_formed raw_logs) events
          ∧ Forall returns raw_logs
    | Raise e =>
        ∃ before line after,
          raw_logs = before ++ line :: after
          ∧ Forall returns before
          ∧ AuthLogCollector.parse_log_line w c line = Raise e
    end.
Proof.
  induction raw_logs as [|line raw_logs IH]; intros parsed_logs.
  - simpl. exists []. rewrite List.app_nil_r. repeat split; constructor.
  - assert (Hskip : well_formed line = false →
      AuthLogCollector.collect_loop w c (line :: raw_logs) parsed_logs
      = AuthLogCollector.collect_loop w c raw_logs parsed_logs).
    { intros Hwf. cbn [AuthLogCollector.collect_loop].
      destruct (truthy (strip line)); [|reflexivity].
      now rewrite (not_well_formed_None line Hwf). }
    destruct (well_formed line) eqn:Hwf.
    + cbn [AuthLogCollector.collect_loop].
      unfold well_formed in Hwf. apply andb_true_iff in Hwf as [Ht Hm].
      rewrite Ht.
      destruct (AuthLogCollector.parse_log_line w c line) as [[e|]|x] eqn:Ep;
        cbn [mbind result_bind].
      * specialize (IH (parsed_logs ++ [e])).
        destruct (AuthLogCollector.collect_loop w c raw_logs (parsed_logs ++ [e]))
          as [logs|x].
        -- destruct IH as (events & -> & F & R). exists (e :: events).
           split; [now rewrite <- List.app_assoc|].
           rewrite filter_cons_True
             by (apply Is_true_true; unfold well_formed; now rewrite Ht, Hm).
           split; [now constructor|].
           constructor; [|exact R]. intros x. rewrite Ep. discriminate.
        -- destruct IH as (before & l & after & -> & R & E).
           exists (line :: before), l, after. split; [reflexivity|].
           split; [|exact E].
           constructor; [|exact R]. intros y. rewrite Ep. discriminate.
      * exfalso. apply bool_decide_eq_true in Hm as [m Hm].
        rewrite parse_log_line_eq, Hm in Ep.
        destruct (Datetime.strptime _); discriminate.
      * exists [], line, raw_logs.
        split; [reflexivity|]. split; [constructor | exact Ep].
    + rewrite (Hskip eq_refl). specialize (IH parsed_logs).
      assert (Hr : returns line)
        by (intros x; rewrite (not_well_formed_None line Hwf); discriminate).
      destruct (AuthLogCollector.collect_loop w c raw_logs parsed_logs)
        as [logs|x].
      * destruct IH as (events & -> & F & R). exists events.
        split; [reflexivity|].
        rewrite filter_cons_False
          by (intros H; apply Is_true_true in H; congruence).
        split; [exact F | now constructor].
      * destruct IH as (before & l & after & -> & R & E).
        exists (line :: before), l, after. split; [reflexivity|].
        split; [now constructor | exact E].
Qed.

End CollectOutcome.

(** ** The fields of a record tile the line *)

Module GreedyFacts.
Import Re ReFacts.
Local Open Scope nat_scope.

(** The position of [st] is the end of the subject or a character outside
    the class [p]. *)
Definition stops (p : ascii → bool) (st : mstate) : Prop :=
  match rest st with
  | [] => True
  | x :: _ => p x = false
  end.

(** A greedy [p+] in front of a continuation that cannot fail takes every
    character of the class there is. *)
Lemma rep_greedy_longest {A} (p : ascii → bool) (k : @kont A) :
  (∀ st, is_Some (k st)) →
  ∀ fuel n st x,
    length (rest st) < fuel →
    rep (exec (Chr p)) true 1 None fuel n st k = Some x →
    ∃ st', k st' = Some x ∧ stops p st'.
Proof.
  intros Hk. induction fuel as [|fuel IH]; intros n st x Hf H; [lia|].
  cbn [rep below] in H. unfold stops.
  destruct (rest st) as [|c t] eqn:E.
  - cbn [exec] in H. rewrite E in H.
    destruct (1 <=? n); [|discriminate]. exists st. now rewrite E.
  - destruct (p c) eqn:Hp.
    + rewrite (exec_chr p st _ c t E Hp) in H.
      assert (Hpr : progress st (advance c t st) = true).
      { unfold progress, advance. cbn [rest]. rewrite E. apply Nat.ltb_lt.
        simpl. lia. }
      rewrite Hpr in H.
      destruct (rep_total p k true Hk fuel (S n) (advance c t st)) as [v Hv];
        [lia|].
      rewrite Hv in H. injection H as ->.
      apply (IH (S n) (advance c t st) x); [|exact Hv].
      cbn [advance rest]. simpl in Hf. lia.
    + cbn [exec] in H. rewrite E, Hp in H.
      destruct (1 <=? n); [|discriminate]. exists st. now rewrite E, Hp.
Qed.

Lemma exec_cat_last {A} (rs : list regex) (r : regex) :
  ∀ st (k : @kont A) x,
    exec (cat (rs ++ [r])) st k = Some x →
    ∃ mid, Run (cat rs) st mid ∧ exec r mid k = Some x.
Proof.
  induction rs as [|a rs IH]; intros st k x H.
  - exists st. split; [reflexivity | exact H].
  - change (cat ((a :: rs) ++ [r])) with (Seq a (cat (rs ++ [r]))) in H.
    cbn [exec] in H. apply exec_sound in H as (m1 & Ha & H).
    apply IH in H as (mid & Hr & H). exists mid. split; [|exact H].
    change (cat (a :: rs)) with (Seq a (cat rs)). simpl. eauto.
Qed.

(** A pattern that ends in a greedy group [(p+)], matched with nothing
    required after it, ends where the class [p] does. *)
Lemma exec_last_group_longest (rs : list regex) (i : nat) (p : ascii → bool)
    (st st' : mstate) :
  exec (cat (rs ++ [Grp i (plus (Chr p))])) st Some = Some st' →
  stops p st'.
Proof.
  intros H. apply exec_cat_last in H as (mid & _ & H).
  cbn [exec plus] in H.
  apply rep_greedy_longest in H as (st'' & [= <-] & Hs); [exact Hs | eauto | lia].
Qed.

End GreedyFacts.

Module FieldFacts.
Import Re ReFacts ParserFacts.
Local Open Scope nat_scope.

(** One or more characters, all of the class [p]: what [p+] consumes. *)
Definition run_of (p : ascii → bool) (txt : list ascii) : Prop :=
  txt ≠ [] ∧ Forall (λ x, p x = true) txt.

Definition made_of (p : ascii → bool) (s : string) : Prop :=
  run_of p (list_ascii_of_string s).

(** [\w+\s+\d+\s+\d+:\d+:\d+] *)
Definition stamp_shape (ts : list ascii) : Prop :=
  ∃ mon sp1 day sp2 hh mm ss,
    ts = mon ++ sp1 ++ day ++ sp2 ++ hh ++ ":"%char :: mm ++ ":"%char :: ss
    ∧ run_of Py.isword mon ∧ run_of Py.isspace sp1 ∧ run_of Py.isdecimal day
    ∧ run_of Py.isspace sp2 ∧ run_of Py.isdecimal hh
    ∧ run_of Py.isdecimal mm ∧ run_of Py.isdecimal ss.

Definition stamp (ts : string) : Prop := stamp_shape (list_ascii_of_string ts).

Lemma Run_plus_chr (g : bool) (p : ascii → bool) (st st' : mstate) :
  Run (Rep g 1 None (Chr p)) st st' →
  ∃ txt, run_of p txt ∧ rest st = txt ++ rest st' ∧ caps st' = caps st.
Proof.
  intros H. apply Run_rep_chr in H as (txt & Hlo & _ & F & E & C).
  exists txt. repeat split; auto. intros ->. simpl in Hlo. lia.
Qed.

Lemma Run_grp_run_of (i : nat) (g : bool) (p : ascii → bool) (st st' : mstate) :
  Run (Grp i (Rep g 1 None (Chr p))) st st' →
  ∃ txt, run_of p txt ∧ rest st = txt ++ rest st'
         ∧ caps st' = (i, txt) :: caps st.
Proof.
  intros H. apply Run_grp_plus in H as (txt & Hn & F & E & C).
  exists txt. repeat split; auto.
Qed.

Lemma Run_stamp (st st' : mstate) :
  Run (Grp 1 (cat [ plus w; plus s; plus d; plus s; plus d; lit ":"; plus d;
                    lit ":"; plus d ])) st st' →
  ∃ ts, stamp_shape ts ∧ rest st = ts ++ rest st'
        ∧ caps st' = (1, ts) :: caps st.
Proof.
  intros H. apply Run_grp in H as (mid & ts & H & E & R & C); [|reflexivity].
  exists ts. rewrite R. split; [|now split].
  cbn [cat foldr] in H.
  step H m1 H1. step H m2 H2. step H m3 H3. step H m4 H4. step H m5 H5.
  step H m6 H6. step H m7 H7. step H m8 H8. step H m9 H9.
  simpl in H. subst m9.
  apply Run_plus_chr in H1 as (mon & Hmon & E1 & _).
  apply Run_plus_chr in H2 as (sp1 & Hsp1 & E2 & _).
  apply Run_plus_chr in H3 as (day & Hday & E3 & _).
  apply Run_plus_chr in H4 as (sp2 & Hsp2 & E4 & _).
  apply Run_plus_chr in H5 as (hh & Hhh & E5 & _).
  apply Run_lit in H6 as (E6 & _).
  apply Run_plus_chr in H7 as (mm & Hmm & E7 & _).
  apply Run_lit in H8 as (E8 & _).
  apply Run_plus_chr in H9 as (ss & Hss & E9 & _).
  exists mon, sp1, day, sp2, hh, mm, ss. split; [|tauto].
  apply (app_inv_tail (rest mid)). rewrite <- E.
  rewrite E1, E2, E3, E4, E5, E6, E7, E8, E9.
  repeat (rewrite <- ?app_assoc; cbn [app]). reflexivity.
Qed.

(** The bracketed process id, as it stands in the line. *)
Definition pid_chars (pid : option (list ascii)) : list ascii :=
  match pid with
  | Some p => "["%char :: p ++ ["]"%char]
  | None => []
  end.

Definition pid_caps (pid : option (list ascii)) : list (nat * list ascii) :=
  match pid with
  | Some p => [(4, p)]
  | None => []
  end.

(** Every way through the structural pattern cuts the line into the time
    stamp, the host name, the process name, the optional process id in
    brackets, a colon and the message, with white space in between. *)
Lemma pattern_run_fields (l : list ascii) (st' : mstate) :
  Run AuthLogCollector.pattern (start None l) st' →
  ∃ ts s1 host s2 proc pid s3 msg,
    l = ts ++ s1 ++ host ++ s2 ++ proc ++ pid_chars pid ++ ":"%char :: s3
        ++ msg ++ rest st'
    ∧ caps st' = (5, msg) :: pid_caps pid ++ [(3, proc); (2, host); (1, ts)]
    ∧ stamp_shape ts
    ∧ run_of Py.isspace s1
    ∧ run_of (λ x, negb (Py.isspace x)) host
    ∧ run_of Py.isspace s2
    ∧ run_of (λ x, negb (Py.isspace x)) proc
    ∧ match pid with Some p => run_of Py.isdecimal p | None => True end
    ∧ run_of Py.isspace s3
    ∧ run_of (λ x, negb (Ascii.eqb x Py.newline)) msg.
Proof.
  unfold AuthLogCollector.pattern. cbn [cat foldr]. intros H.
  step H m1 H1. step H m2 H2. step H m3 H3. step H m4 H4. step H m5 H5.
  step H m6 H6. step H m7 H7. step H m8 H8. step H m9 H9.
  simpl in H. subst st'.
  apply Run_stamp in H1 as (ts & Hts & E1 & C1).
  apply Run_plus_chr in H2 as (s1 & Hs1 & E2 & C2).
  apply Run_grp_run_of in H3 as (host & Hh & E3 & C3).
  apply Run_plus_chr in H4 as (s2 & Hs2 & E4 & C4).
  apply Run_grp_run_of in H5 as (proc & Hp & E5 & C5).
  apply Run_lit in H7 as (E7 & C7).
  apply Run_plus_chr in H8 as (s3 & Hs3 & E8 & C8).
  apply Run_grp_run_of in H9 as (msg & Hm & E9 & C9).
  assert (Hpid : ∃ pid, rest m5 = pid_chars pid ++ rest m6
            ∧ caps m6 = pid_caps pid ++ caps m5
            ∧ match pid with Some p => run_of Py.isdecimal p | None => True end).
  { apply Run_opt in H6 as [-> | H6].
    - exists None. auto.
    - step H6 k1 K1. step H6 k2 K2. step H6 k3 K3. simpl in H6. subst k3.
      apply Run_lit in K1 as (Ek1 & Ck1). apply Run_lit in K3 as (Ek3 & Ck3).
      apply Run_grp_run_of in K2 as (pid & Hpid & Ek2 & Ck2).
      exists (Some pid). split; [|split; [|exact Hpid]].
      + rewrite Ek1, Ek2, Ek3. simpl. now rewrite <- app_assoc.
      + rewrite Ck3, Ck2, Ck1. reflexivity. }
  destruct Hpid as (pid & E6 & C6 & Hpid).
  exists ts, s1, host, s2, proc, pid, s3, msg.
  simpl in E1, C1.
  split; [rewrite E1, E2, E3, E4, E5, E6, E7, E8, E9; reflexivity|].
  split; [rewrite C9, C8, C7, C6, C5, C4, C3, C2, C1; reflexivity|].
  tauto.
Qed.

(** The state in which [re.match] leaves the structural pattern: the
    message has taken every character up to the end of the line. *)
Lemma re_match_pattern_end (line : string) (m : Match) :
  re_match AuthLogCollector.pattern line = Some m →
  ∃ st', Run AuthLogCollector.pattern (start None (list_ascii_of_string line)) st'
         ∧ m = mk_match (start None (list_ascii_of_string line)) st'
         ∧ GreedyFacts.stops (λ x, negb (Ascii.eqb x Py.newline)) st'.
Proof.
  unfold re_match, match_at. intros H.
  destruct (exec AuthLogCollector.pattern _ Some) as [st'|] eqn:E; [|discriminate].
  injection H as <-. exists st'.
  pose proof E as E'. apply exec_sound in E' as (st'' & HR & [= ->]).
  split; [exact HR|]. split; [reflexivity|].
  apply (GreedyFacts.exec_last_group_longest
           [ Grp 1 (cat [ plus w; plus s; plus d; plus s; plus d; lit ":";
                          plus d; lit ":"; plus d ]);
             plus s; Grp 2 (plus S'); plus s; Grp 3 (plus_lazy S');
             opt (cat [ lit "["; Grp 4 (plus d); lit "]" ]);
             lit ":"; plus s ]
           5 _ (start None (list_ascii_of_string line)) st').
  exact E.
Qed.

Lemma to_list_of_list (a : list ascii) :
  list_ascii_of_string (string_of_list_ascii a) = a.
Proof. apply list_ascii_of_string_of_list_ascii. Qed.

Lemma made_of_list (p : ascii → bool) (a : list ascii) :
  run_of p a → made_of p (string_of_list_ascii a).
Proof. unfold made_of. now rewrite to_list_of_list. Qed.

End FieldFacts.

Section Fields.
Import Py PyFacts ParserFacts FieldFacts.
Variable w : world.
Variable c : AuthLogCollector.collector.
Variable d : AuthLogCollectorDB.collector.

(** The bracketed process id of the line, from the field [pid]. *)
Definition pid_text (pid : option string) : string :=
  match pid with
  | Some p => "[" +:+ p +:+ "]"
  | None => ""
  end.

Definition no_newline (s : string) : Prop :=
  Forall (λ x, x ≠ newline) (list_ascii_of_string s).

(** What a match of the structural pattern says about the line, in terms
    of the five groups. *)
Lemma re_match_pattern_fields (line : string) (m : Re.Match) :
  Re.re_match AuthLogCollector.pattern line = Some m →
  ∃ ts s1 host s2 proc pid s3 msg post,
    line = ts +:+ s1 +:+ host +:+ s2 +:+ proc +:+ pid_text pid +:+ ":"
           +:+ s3 +:+ msg +:+ post
    ∧ Re.group m 1 = Some ts ∧ Re.group m 2 = Some host
    ∧ Re.group m 3 = Some proc ∧ Re.group m 4 = pid ∧ Re.group m 5 = Some msg
    ∧ stamp ts
    ∧ made_of isspace s1
    ∧ made_of (λ x, negb (isspace x)) host
    ∧ made_of isspace s2
    ∧ made_of (λ x, negb (isspace x)) proc
    ∧ match pid with Some p => made_of isdecimal p | None => True end
    ∧ made_of isspace s3
    ∧ made_of (λ x, negb (Ascii.eqb x newline)) msg
    ∧ (post = "" ∨ ∃ t, post = String newline t).
Proof.
  intros H. apply re_match_pattern_end in H as (st' & HR & -> & Hend).
  apply pattern_run_fields in HR
    as (ts & s1 & host & s2 & proc & pid & s3 & msg & E & C & Hts & Hs1 & Hh
        & Hs2 & Hp & Hpid & Hs3 & Hm).
  exists (string_of_list_ascii ts), (string_of_list_ascii s1),
    (string_of_list_ascii host), (string_of_list_ascii s2),
    (string_of_list_ascii proc), (string_of_list_ascii <$> pid),
    (string_of_list_ascii s3), (string_of_list_ascii msg),
    (string_of_list_ascii (Re.rest st')).
  split.
  { rewrite <- (string_of_list_ascii_of_string line), E.
    rewrite !of_list_app. cbn [string_of_list_ascii]. rewrite !of_list_app.
    destruct pid as [p|]; [|reflexivity].
    cbn [pid_chars pid_text fmap option_fmap option_map string_of_list_ascii].
    rewrite !of_list_app. reflexivity. }
  unfold Re.group, Re.mk_match; cbn [Re.captures]. rewrite C.
  assert (Hg : Re.assoc 1%nat (map (λ '(i, t), (i, string_of_list_ascii t))
                 ((5%nat, msg) :: pid_caps pid
                  ++ [(3%nat, proc); (2%nat, host); (1%nat, ts)]))
              = Some (string_of_list_ascii ts)
            ∧ Re.assoc 2%nat (map (λ '(i, t), (i, string_of_list_ascii t))
                 ((5%nat, msg) :: pid_caps pid
                  ++ [(3%nat, proc); (2%nat, host); (1%nat, ts)]))
              = Some (string_of_list_ascii host)
            ∧ Re.assoc 3%nat (map (λ '(i, t), (i, string_of_list_ascii t))
                 ((5%nat, msg) :: pid_caps pid
                  ++ [(3%nat, proc); (2%nat, host); (1%nat, ts)]))
              = Some (string_of_list_ascii proc)
            ∧ Re.assoc 4%nat (map (λ '(i, t), (i, string_of_list_ascii t))
                 ((5%nat, msg) :: pid_caps pid
                  ++ [(3%nat, proc); (2%nat, host); (1%nat, ts)]))
              = string_of_list_ascii <$> pid
            ∧ Re.assoc 5%nat (map (λ '(i, t), (i, string_of_list_ascii t))
                 ((5%nat, msg) :: pid_caps pid
                  ++ [(3%nat, proc); (2%nat, host); (1%nat, ts)]))
              = Some (string_of_list_ascii msg))
    by (destruct pid; repeat split; reflexivity).
  destruct Hg as (-> & -> & -> & -> & ->).
  repeat (split; [reflexivity|]).
  split; [unfold stamp; now rewrite to_list_of_list|].
  repeat (split; [now apply made_of_list|]).
  split; [destruct pid as [p|]; [now apply made_of_list | exact I]|].
  repeat (split; [now apply made_of_list|]).
  unfold GreedyFacts.stops in Hend. destruct (Re.rest st') as [|x t]; [now left|].
  right. exists (string_of_list_ascii t).
  apply negb_false_iff, Ascii.eqb_eq in Hend. now rewrite Hend.
Qed.

Lemma no_newline_app (a b : string) :
  no_newline (a +:+ b) ↔ no_newline a ∧ no_newline b.
Proof.
  unfold no_newline. rewrite UserFacts.to_list_app. apply Forall_app.
Qed.

(** X2. The fields of a record tile its line: the line is the time stamp,
    the host name, the process name, the process id in brackets when there
    is one, a colon and the message, in this order and separated by white
    space, and nothing else up to the end of the line.  The time stamp has
    the shape "word, number, number:number:number"; host and process names
    hold no white space; the process id is a string of decimal digits; the
    message runs to the end of the line (to its first line break, if it
    has one). *)
Theorem parse_log_line_fields_tile_the_line
    (line : string) (e : AuthLogCollector.event) :
  AuthLogCollector.parse_log_line w c line = Ok (Some e) →
  ∃ ts s1 s2 s3 post,
    line = ts +:+ s1 +:+ AuthLogCollector.hostname e +:+ s2
           +:+ AuthLogCollector.process e
           +:+ pid_text (AuthLogCollector.pid e) +:+ ":" +:+ s3
           +:+ AuthLogCollector.message e +:+ post
    ∧ AuthLogCollector.raw_log e = line
    ∧ stamp ts
    ∧ made_of isspace s1 ∧ made_of isspace s2 ∧ made_of isspace s3
    ∧ made_of (λ x, negb (isspace x)) (AuthLogCollector.hostname e)
    ∧ made_of (λ x, negb (isspace x)) (AuthLogCollector.process e)
    ∧ (∀ p, AuthLogCollector.pid e = Some p → made_of isdecimal p)
    ∧ made_of (λ x, negb (Ascii.eqb x newline)) (AuthLogCollector.message e)
    ∧ (post = "" ∨ ∃ t, post = String newline t)
    ∧ (no_newline line → post = "").
Proof.
  intros H. apply parse_log_line_Some in H as (m & dt & Hm & _ & ->).
  apply re_match_pattern_fields in Hm
    as (ts & s1 & host & s2 & proc & pid & s3 & msg & post & E & G1 & G2 & G3
        & G4 & G5 & Hts & Hs1 & Hh & Hs2 & Hp & Hpid & Hs3 & Hmsg & Hpost).
  unfold console_event.
  cbn [AuthLogCollector.hostname AuthLogCollector.process AuthLogCollector.pid
       AuthLogCollector.message AuthLogCollector.raw_log].
  rewrite G2, G3, G4, G5. cbn [default from_option].
  exists ts, s1, s2, s3, post.
  split; [exact E|]. split; [reflexivity|].
  repeat (split; [assumption|]).
  split; [intros p ->; exact Hpid|].
  split; [assumption|]. split; [assumption|].
  intros Hn. destruct Hpost as [-> | [t ->]]; [reflexivity|].
  rewrite E in Hn. repeat (apply no_newline_app in Hn as [_ Hn]).
  unfold no_newline in Hn. simpl in Hn. inversion Hn. congruence.
Qed.
End Fields.

Lemma parse_log_line_fields_tile_the_line_witness :
  ∃ e, AuthLogCollector.parse_log_line (Sample.world_of 2026 None)
         Sample.console Sample.failed_password = Py.Ok (Some e)
       ∧ ∃ ts s1 s2 s3 post,
           Sample.failed_password
           = ts +:+ s1 +:+ AuthLogCollector.hostname e +:+ s2
             +:+ AuthLogCollector.process e
             +:+ pid_text (AuthLogCollector.pid e) +:+ ":" +:+ s3
             +:+ AuthLogCollector.message e +:+ post
           ∧ FieldFacts.stamp ts.
Proof.
  assert (Ee : ∃ e, AuthLogCollector.parse_log_line (Sample.world_of 2026 None)
                      Sample.console Sample.failed_password = Py.Ok (Some e))
    by (eexists; vm_compute; reflexivity).
  destruct Ee as [e Ee]. exists e. split; [exact Ee|].
  destruct (parse_log_line_fields_tile_the_line (Sample.world_of 2026 None)
              Sample.console Sample.failed_password e Ee)
    as (ts & s1 & s2 & s3 & post & E & _ & Hts & _).
  exists ts, s1, s2, s3, post. split; [exact E | exact Hts].
Defined.

(** ** Time stamps *)

Module StampFacts.
Import Py Re ReFacts YearFacts.
Local Open Scope Z_scope.

(** A date and time that exists in the calendar. *)
Definition valid (dt : Datetime.datetime) : Prop :=
  1 <= Datetime.year dt <= 9999
  ∧ 1 <= Datetime.month dt <= 12
  ∧ 1 <= Datetime.day dt
       <= Datetime.days_in_month (Datetime.year dt) (Datetime.month dt)
  ∧ 0 <= Datetime.hour dt <= 23
  ∧ 0 <= Datetime.minute dt <= 59
  ∧ 0 <= Datetime.second dt <= 59.

Lemma in_range_spec (lo hi x : Z) :
  Datetime.in_range lo hi x = true → lo <= x <= hi.
Proof.
  unfold Datetime.in_range. intros H. apply andb_true_iff in H as [H1 H2].
  apply Z.leb_le in H1, H2. lia.
Qed.

Lemma make_valid (y mo d h mi s : Z) (dt : Datetime.datetime) :
  Datetime.make y mo d h mi s = Ok dt →
  dt = Datetime.MkDatetime y mo d h mi s ∧ valid dt.
Proof.
  unfold Datetime.make.
  destruct (Datetime.in_range 1 9999 y) eqn:E1; [|discriminate].
  destruct (Datetime.in_range 1 12 mo) eqn:E2; [|discriminate].
  destruct (Datetime.in_range 1 (Datetime.days_in_month y mo) d) eqn:E3;
    [|discriminate].
  destruct (Datetime.in_range 0 23 h) eqn:E4; [|discriminate].
  destruct (Datetime.in_range 0 59 mi) eqn:E5; [|discriminate].
  destruct (Datetime.in_range 0 59 s) eqn:E6; [|discriminate].
  cbn [andb]. intros [= <-]. split; [reflexivity|].
  apply in_range_spec in E1, E2, E3, E4, E5, E6.
  unfold valid. cbn. tauto.
Qed.

(** [strptime] returns nothing but dates that exist. *)
Lemma strptime_valid (data_string : string) (dt : Datetime.datetime) :
  Datetime.strptime data_string = Ok dt → valid dt.
Proof.
  unfold Datetime.strptime.
  destruct (re_match Datetime.format_regex data_string) as [found|];
    [|discriminate].
  destruct (negb _); [discriminate|].
  destruct (Datetime.index_of _ _) as [i|]; [|discriminate].
  intros H. now apply make_valid in H.
Qed.

Lemma assoc_new {B} (i : nat) (new old : list (nat * B)) (ids : list nat) :
  Forall (λ e, In (fst e) ids) new → ¬ In i ids →
  assoc i (new ++ old) = assoc i old.
Proof.
  intros F Hi. induction F as [|[j b] new Hj _ IH]; [reflexivity|].
  cbn [app assoc]. destruct (Nat.eqb_spec i j) as [->|_]; [|exact IH].
  now destruct Hi.
Qed.

(** Whatever follows the four digits of the year, group 1 of the
    expression of [strptime] holds these four digits. *)
Lemma re_match_year_group (d1 d2 d3 d4 : ascii) (text : string) (found : Match) :
  isdecimal d1 = true → isdecimal d2 = true →
  isdecimal d3 = true → isdecimal d4 = true →
  re_match Datetime.format_regex (yyyy d1 d2 d3 d4 text) = Some found →
  group found 1 = Some (yyyy d1 d2 d3 d4 "").
Proof.
  intros H1 H2 H3 H4. unfold re_match, match_at, yyyy.
  cbn [list_ascii_of_string]. rewrite (exec_year _ _ _ _ _ _ H1 H2 H3 H4).
  destruct (exec format_tail _ Some) as [st'|] eqn:E; [|discriminate].
  intros [= <-]. apply exec_sound in E as (st'' & HR & [= ->]).
  apply Run_caps in HR as (new & Ec & F). cbn [caps] in Ec.
  unfold group, mk_match. cbn [captures]. rewrite Ec, map_app.
  rewrite (assoc_new 1 _ _ [2; 3; 4; 5; 6]%nat); [reflexivity| |].
  - apply Forall_map. eapply Forall_impl; [exact F|].
    intros [j t] Hj. exact Hj.
  - cbn. lia.
Qed.

(** The year [strptime] returns is the year the text begins with. *)
Lemma strptime_year (y : Z) (text : string) (dt : Datetime.datetime) :
  1000 <= y <= 9999 →
  Datetime.strptime (str_of_int y +:+ text) = Ok dt →
  Datetime.year dt = y.
Proof.
  intros Hy.
  destruct (str_of_int_year y Hy) as (a & b & c & e & Ha & Hb & Hc & He & Ey & ->).
  rewrite four_yyyy. unfold Datetime.strptime.
  destruct (re_match Datetime.format_regex _) as [found|] eqn:Em; [|discriminate].
  apply re_match_year_group in Em; try (apply digit_char_decimal; lia).
  destruct (negb _); [discriminate|].
  destruct (Datetime.index_of _ _) as [i|]; [|discriminate].
  intros H. apply make_valid in H as [-> _]. cbn [Datetime.year].
  unfold Datetime.field. rewrite Em. cbn [default from_option id].
  change (yyyy _ _ _ _ "") with (four a b c e).
  rewrite int_four by lia. lia.
Qed.

End StampFacts.

Section Stamps.
Import Py StampFacts.
Variable w : world.
Variable c : AuthLogCollector.collector.
Variable d : AuthLogCollectorDB.collector.
Hypothesis year_ok : (1000 <= Datetime.year (now w) <= 9999)%Z.

(** X3. Every time stamp the collectors produce is a date and time that
    exists in the calendar, in the year the clock reads at the time of the
    call, whatever the year in which the line was logged: the month is
    1 to 12, the day exists in that month of that year, the hour is 0 to
    23, minute and second are 0 to 59.  The console collector stores the
    ISO form of the same date and time. *)
Theorem timestamp_is_a_date_of_the_clock_year (line : string) :
  (∀ b, AuthLogCollectorDB.parse_log_line w d line = Ok (Some b) →
        Datetime.year (AuthLogCollectorDB.timestamp b) = Datetime.year (now w)
        ∧ valid (AuthLogCollectorDB.timestamp b))
  ∧ (∀ a, AuthLogCollector.parse_log_line w c line = Ok (Some a) →
          ∃ dt, AuthLogCollector.timestamp a = Datetime.isoformat dt
                ∧ Datetime.year dt = Datetime.year (now w)
                ∧ valid dt).
Proof.
  split.
  - intros b H.
    apply parse_log_line_db_Some in H as (m & dt & pid & _ & Hdt & _ & ->).
    unfold db_event. cbn [AuthLogCollectorDB.timestamp].
    split; [|exact (strptime_valid _ _ Hdt)].
    exact (strptime_year _ _ _ year_ok Hdt).
  - intros a H. apply parse_log_line_Some in H as (m & dt & _ & Hdt & ->).
    exists dt. unfold console_event. cbn [AuthLogCollector.timestamp].
    split; [reflexivity|].
    split; [|exact (strptime_valid _ _ Hdt)].
    exact (strptime_year _ _ _ year_ok Hdt).
Qed.
End Stamps.

Lemma timestamp_is_a_date_of_the_clock_year_witness :
  (1000 <= 2026 <= 9999)%Z
  ∧ ∃ b, AuthLogCollectorDB.parse_log_line (Sample.world_of 2026 None)
           Sample.db Sample.failed_password = Py.Ok (Some b)
         ∧ Datetime.year (AuthLogCollectorDB.timestamp b) = 2026%Z
         ∧ StampFacts.valid (AuthLogCollectorDB.timestamp b).
Proof.
  assert (Hy : (1000 <= Datetime.year (now (Sample.world_of 2026 None)) <= 9999)%Z)
    by (cbn; lia).
  split; [lia|].
  assert (Eb : ∃ b, AuthLogCollectorDB.parse_log_line (Sample.world_of 2026 None)
                      Sample.db Sample.failed_password = Py.Ok (Some b))
    by (eexists; vm_compute; reflexivity).
  destruct Eb as [b Eb]. exists b. split; [exact Eb|].
  exact (proj1 (timestamp_is_a_date_of_the_clock_year (Sample.world_of 2026 None)
                  Sample.console Sample.db Hy Sample.failed_password) b Eb).
Defined.

(** ** The process id *)

Module PidFacts.
Import Py StripFacts.
Local Open Scope Z_scope.

Lemma isdecimal_not_space (x : ascii) : isdecimal x = true → isspace x = false.
Proof.
  unfold isdecimal, isspace, between. intros H.
  apply andb_true_iff in H as [H1 H2]. apply N.leb_le in H1, H2.
  repeat (apply orb_false_iff; split); apply andb_false_iff;
    ((left; apply N.leb_gt; lia) || (right; apply N.leb_gt; lia)).
Qed.

Lemma lstrip_solid (s : string) :
  Forall (λ x, isspace x = false) (list_ascii_of_string s) → lstrip s = s.
Proof.
  destruct s as [|x s]; [reflexivity|]. simpl. intros H.
  inversion H as [|? ? Hx _]; subst. now rewrite Hx.
Qed.

Lemma of_list_inj (a b : string) :
  list_ascii_of_string a = list_ascii_of_string b → a = b.
Proof.
  intros H. rewrite <- (string_of_list_ascii_of_string a),
    <- (string_of_list_ascii_of_string b). now rewrite H.
Qed.

Lemma rev_rev (s : string) : String.rev (String.rev s) = s.
Proof. apply of_list_inj. rewrite !rev_chars. apply rev_involutive. Qed.

(** [strip] leaves a string without white space as it is. *)
Lemma strip_solid (s : string) :
  Forall (λ x, isspace x = false) (list_ascii_of_string s) → strip s = s.
Proof.
  intros H. unfold strip. rewrite (lstrip_solid s H).
  rewrite lstrip_solid; [apply rev_rev|].
  rewrite rev_chars. now apply Forall_rev.
Qed.

Lemma int_of_digits_nonneg (s : string) : 0 <= int_of_digits s.
Proof.
  unfold int_of_digits.
  assert (H : ∀ l acc, 0 <= acc →
            0 <= fold_left (λ acc x, 10 * acc + digit_val x) l acc).
  { induction l as [|x l IH]; intros acc Hacc; [exact Hacc|].
    simpl. apply IH. unfold digit_val. lia. }
  now apply H.
Qed.

(** On a string of decimal digits, [decimal] reads the digits. *)
Lemma decimal_digits (s : string) :
  Forall (λ x, isdecimal x = true) (list_ascii_of_string s) →
  decimal s = int_of_digits s.
Proof.
  intros H. unfold decimal. rewrite strip_solid; [reflexivity|].
  eapply Forall_impl; [exact H|]. exact isdecimal_not_space.
Qed.

Lemma isdecimal_plain (x : ascii) :
  isdecimal x = true →
  int_space x = false ∧ Ascii.eqb x "+" = false ∧ Ascii.eqb x "-" = false
  ∧ Ascii.eqb x "_" = false.
Proof.
  destruct x as [[] [] [] [] [] [] [] []]; try discriminate;
    intros _; repeat split.
Qed.

Lemma chars_length (s : string) :
  length (list_ascii_of_string s) = String.length s.
Proof. induction s as [|x s IH]; [reflexivity|]. simpl. now rewrite IH. Qed.

Lemma int_scan_decimal (l : list ascii) :
  Forall (λ x, isdecimal x = true) l → int_scan l = Some (l, []).
Proof.
  induction 1 as [|x l Hx _ IH]; [reflexivity|].
  cbn [int_scan]. rewrite Hx, IH. reflexivity.
Qed.

(** On a non-empty string of decimal digits, [int] reads the digits,
    unless they are too many. *)
Lemma int_decimal (max_str_digits : Z) (s : string) :
  list_ascii_of_string s ≠ [] →
  Forall (λ x, isdecimal x = true) (list_ascii_of_string s) →
  int max_str_digits s
  = if exceeds max_str_digits (String.length s) then Raise ValueError
    else Ok (int_of_digits s).
Proof.
  intros Hne H. destruct s as [|x s]; [now destruct Hne|]. clear Hne.
  cbn [list_ascii_of_string] in H. inversion H as [|? ? Hx Hs]; subst.
  destruct (isdecimal_plain x Hx) as (E1 & E2 & E3 & _).
  unfold int. cbn [list_ascii_of_string skip_space].
  rewrite E1, E2, E3, Hx, (int_scan_decimal _ Hs).
  cbn [length String.length]. rewrite chars_length.
  destruct (exceeds _ _); [reflexivity|]. cbn [skip_space].
  change (x :: list_ascii_of_string s) with (list_ascii_of_string (String x s)).
  rewrite string_of_list_ascii_of_string.
  now destruct (int_of_digits (String x s)).
Qed.

(** The limit decides whether [int] returns, not what it returns. *)
Lemma int_value (m1 m2 : Z) (s : string) (n1 n2 : Z) :
  int m1 s = Ok n1 → int m2 s = Ok n2 → n1 = n2.
Proof.
  unfold int.
  destruct (match skip_space (list_ascii_of_string s) with
            | [] => _ | _ :: _ => _ end) as [sign l].
  destruct l as [|c t]; [discriminate|].
  destruct (isdecimal c); [|discriminate].
  destruct (int_scan t) as [[ds after]|]; [|discriminate].
  destruct (exceeds m1 _); [discriminate|].
  destruct (exceeds m2 _); [discriminate|].
  destruct (skip_space after); [|discriminate]. congruence.
Qed.

(** Under the same limit [int] does the same. *)
Lemma exceeds_none (n : nat) : exceeds 0 n = false.
Proof. unfold exceeds. now rewrite andb_false_r. Qed.

End PidFacts.

Section Pid.
Import Py FieldFacts PidFacts.
Variable w : world.
Variable c : AuthLogCollector.collector.
Variable d : AuthLogCollectorDB.collector.


(** X4. The process id of the database-backed collector is the number that
    the digits of the console collector's process id denote: it is present
    exactly when the line has a bracketed process id (the guard on the
    empty string never drops one), and it is never negative. *)
Theorem db_pid_is_the_number_of_the_console_pid
    (line : string) (a : AuthLogCollector.event) (b : AuthLogCollectorDB.event) :
  AuthLogCollector.parse_log_line w c line = Ok (Some a) →
  AuthLogCollectorDB.parse_log_line w d line = Ok (Some b) →
  AuthLogCollectorDB.pid b = int_of_digits <$> AuthLogCollector.pid a
  ∧ (is_Some (AuthLogCollectorDB.pid b) ↔ is_Some (AuthLogCollector.pid a))
  ∧ (∀ n, AuthLogCollectorDB.pid b = Some n → (0 <= n)%Z).
Proof.
  intros Ha Hb.
  apply parse_log_line_Some in Ha as (m & dt & Hm & _ & ->).
  apply parse_log_line_db_Some in Hb as (m' & dt' & pid' & Hm' & _ & Hp & ->).
  assert (m' = m) as -> by congruence.
  unfold console_event, db_event.
  cbn [AuthLogCollector.pid AuthLogCollectorDB.pid].
  unfold db_pid in Hp.
  apply re_match_pattern_fields in Hm
    as (ts & s1 & host & s2 & proc & pid & s3 & msg & post & _ & _ & _ & _
        & E4 & _ & _ & _ & _ & _ & _ & Hpid & _).
  rewrite E4 in Hp |- *.
  destruct pid as [p|]; cbn [fmap option_fmap option_map].
  - destruct Hpid as [Hne Hd].
    assert (Ht : truthy p = true).
    { destruct p; [|reflexivity]. now destruct Hne. }
    rewrite Ht, (int_decimal _ p Hne Hd) in Hp.
    destruct (exceeds _ _); [discriminate|].
    cbn [mbind result_bind mret result_ret] in Hp. injection Hp as <-.
    split; [reflexivity|]. split; [split; eauto|].
    intros n [= <-]. apply int_of_digits_nonneg.
  - cbn [mret result_ret] in Hp. injection Hp as <-.
    split; [reflexivity|]. split; [split; intros [? [=]]|]. intros n [=].
Qed.
End Pid.

Lemma db_pid_is_the_number_of_the_console_pid_witness :
  ∃ a b,
    AuthLogCollector.parse_log_line (Sample.world_of 2026 None) Sample.console
      Sample.failed_password = Py.Ok (Some a)
    ∧ AuthLogCollectorDB.parse_log_line (Sample.world_of 2026 None) Sample.db
        Sample.failed_password = Py.Ok (Some b)
    ∧ AuthLogCollector.pid a = Some "1234"
    ∧ AuthLogCollectorDB.pid b = Py.int_of_digits <$> AuthLogCollector.pid a.
Proof.
  assert (Ea : ∃ a, AuthLogCollector.parse_log_line (Sample.world_of 2026 None)
                      Sample.console Sample.failed_password = Py.Ok (Some a)
                    ∧ AuthLogCollector.pid a = Some "1234")
    by (eexists; split; vm_compute; reflexivity).
  assert (Eb : ∃ b, AuthLogCollectorDB.parse_log_line (Sample.world_of 2026 None)
                      Sample.db Sample.failed_password = Py.Ok (Some b))
    by (eexists; vm_compute; reflexivity).
  destruct Ea as (a & Ea & Hp). destruct Eb as (b & Eb). exists a, b.
  split; [exact Ea|]. split; [exact Eb|]. split; [exact Hp|].
  exact (proj1 (db_pid_is_the_number_of_the_console_pid
                  (Sample.world_of 2026 None) Sample.console Sample.db
                  Sample.failed_password a b Ea Eb)).
Defined.

(** ** Which lines have the expected shape *)

(** The matcher is complete: it finds a match whenever the pattern has a
    way through the subject.  With [ReFacts.exec_sound] this tells exactly
    on which subjects a pattern matches. *)
Module CompleteFacts.
Import Re ReFacts.
Local Open Scope nat_scope.

Lemma rep_complete {A} (body : mstate → @kont A → option A)
    (R : mstate → mstate → Prop) (g : bool) (lo : nat) (hi : option nat) :
  (∀ st st' k, R st st' → is_Some (k st') → is_Some (body st k)) →
  ∀ m fuel n st st' k,
    iter R m st st' → lo ≤ n + m → within (n + m) hi →
    length (rest st) < fuel → is_Some (k st') →
    is_Some (rep body g lo hi fuel n st k).
Proof.
  intros Hbody. induction m as [|m IH]; intros [|fuel] n st st' k Hit Hlo Hhi Hf Hk;
    try lia; cbn [iter] in Hit; cbn [rep].
  - subst st'. rewrite Nat.add_0_r in Hlo.
    rewrite (proj2 (Nat.leb_le lo n) Hlo). destruct Hk as [v Hv].
    destruct g.
    + match goal with
      | |- is_Some (match ?e with _ => _ end) => destruct e; eauto
      end.
    + rewrite Hv. eauto.
  - destruct Hit as (mid & HR & Hp & Hit).
    assert (Hb : below n hi = true).
    { unfold below, within in *. destruct hi as [h|]; [|reflexivity].
      apply Nat.ltb_lt. lia. }
    rewrite Hb.
    assert (Hmore : is_Some (body st (λ st1, if progress st st1
                                             then rep body g lo hi fuel (S n) st1 k
                                             else None))).
    { apply (Hbody st mid); [exact HR|]. rewrite Hp.
      apply (IH fuel (S n) mid st' k Hit); try (rewrite Nat.add_succ_l, <- Nat.add_succ_r; assumption); [|exact Hk].
      unfold progress in Hp. apply Nat.ltb_lt in Hp. lia. }
    destruct Hmore as [v Hv]. rewrite Hv.
    destruct g; [eauto|].
    destruct (if lo <=? n then k st else None); eauto.
Qed.

Lemma exec_complete {A} (r : regex) :
  ∀ st st' (k : @kont A),
    Run r st st' → is_Some (k st') → is_Some (exec r st k).
Proof.
  induction r as [|p|a IHa b IHb|a IHa b IHb|g lo hi r IH|i r IH|];
    intros st st' k HR Hk; cbn [exec]; simpl in HR.
  - now subst.
  - destruct HR as (c & t & -> & -> & ->). exact Hk.
  - destruct HR as (mid & Ha & Hb). apply (IHa st mid); [exact Ha|].
    now apply (IHb mid st').
  - destruct HR as [Ha | Hb].
    + destruct (IHa st st' k Ha Hk) as [v ->]. eauto.
    + destruct (exec a st k); [eauto|]. now apply (IHb st st').
  - destruct HR as (n & Hlo & Hhi & Hit).
    apply (rep_complete (exec r) (Run r) g lo hi IH n _ 0 st st'); auto.
  - destruct HR as (mid & Hr & ->). now apply (IH st mid).
  - destruct HR as [-> Hb]. now rewrite Hb.
Qed.

(** [re.match] succeeds exactly when the pattern has a way through the
    subject from its start. *)
Lemma re_match_iff (pat : regex) (line : string) :
  is_Some (re_match pat line)
  ↔ ∃ st', Run pat (start None (list_ascii_of_string line)) st'.
Proof.
  split.
  - intros [m Hm]. apply ParserFacts.re_match_Run in Hm as (st' & HR & _). eauto.
  - intros [st' HR]. unfold re_match, match_at.
    destruct (exec_complete pat _ st' Some HR) as [v ->]; eauto.
Qed.

(** The character before the position, after [txt] has been consumed. *)
Definition prev_of (o : option ascii) (txt : list ascii) : option ascii :=
  match last txt with
  | Some x => Some x
  | None => o
  end.

Lemma prev_of_app (o : option ascii) (a b : list ascii) :
  prev_of (prev_of o a) b = prev_of o (a ++ b).
Proof.
  unfold prev_of. rewrite last_app. now destruct (last b).
Qed.

Lemma prev_of_nonempty (o o' : option ascii) (txt : list ascii) :
  txt ≠ [] → prev_of o txt = prev_of o' txt.
Proof.
  intros H. unfold prev_of. destruct (last txt) eqn:E; [reflexivity|].
  apply last_None in E. contradiction.
Qed.

(** [Reach r o l o' l']: from any state at the subject [l], after the
    character [o], the pattern [r] leads to the subject [l'], after [o']. *)
Definition Reach (r : regex) (o : option ascii) (l : list ascii)
    (o' : option ascii) (l' : list ascii) : Prop :=
  ∀ st, prev st = o → rest st = l →
        ∃ st', Run r st st' ∧ prev st' = o' ∧ rest st' = l'.

Lemma Reach_eps (o : option ascii) (l : list ascii) : Reach Eps o l o l.
Proof. intros st Ho Hl. exists st. now split. Qed.

Lemma Reach_chr (p : ascii → bool) (o : option ascii) (x : ascii) (l : list ascii) :
  p x = true → Reach (Chr p) o (x :: l) (Some x) l.
Proof.
  intros Hx st Ho Hl. exists (advance x l st). split; [|now split].
  simpl. eauto.
Qed.

Lemma Reach_lit (o : option ascii) (x : ascii) (l : list ascii) :
  Reach (lit x) o (x :: l) (Some x) l.
Proof. apply Reach_chr, Ascii.eqb_refl. Qed.

Lemma Reach_seq (a b : regex) (o o1 o2 : option ascii) (l l1 l2 : list ascii) :
  Reach a o l o1 l1 → Reach b o1 l1 o2 l2 → Reach (Seq a b) o l o2 l2.
Proof.
  intros Ha Hb st Ho Hl. destruct (Ha st Ho Hl) as (mid & HRa & Ho1 & Hl1).
  destruct (Hb mid Ho1 Hl1) as (st' & HRb & Ho2 & Hl2).
  exists st'. split; [|now split]. simpl. eauto.
Qed.

Lemma Reach_grp (i : nat) (r : regex) (o o' : option ascii) (l l' : list ascii) :
  Reach r o l o' l' → Reach (Grp i r) o l o' l'.
Proof.
  intros Hr st Ho Hl. destruct (Hr st Ho Hl) as (mid & HR & Ho' & Hl').
  exists (close i st mid). split; [|now split]. simpl. eauto.
Qed.

Lemma Reach_bnd (o : option ascii) (l : list ascii) :
  xorb (word_at o) (word_at (head l)) = true → Reach Bnd o l o l.
Proof.
  intros H st Ho Hl. exists st. split; [|now split].
  simpl. split; [reflexivity|]. unfold at_boundary. now rewrite Ho, Hl.
Qed.

(** Iterations of a body, given the subjects between them. *)
Lemma Reach_rep (g : bool) (lo : nat) (hi : option nat) (r : regex) :
  ∀ (mids : list (option ascii * list ascii)) o l o' l',
    (∀ i a b, (((o, l) :: mids) ++ [(o', l')]) !! i = Some a →
              (((o, l) :: mids) ++ [(o', l')]) !! S i = Some b →
              Reach r a.1 a.2 b.1 b.2 ∧ length b.2 < length a.2) →
    lo ≤ S (length mids) → within (S (length mids)) hi →
    Reach (Rep g lo hi r) o l o' l'.
Proof.
  intros mids o l o' l' Hsteps Hlo Hhi st Ho Hl.
  assert (Hit : ∀ mids o l st,
            (∀ i a b, (((o, l) :: mids) ++ [(o', l')]) !! i = Some a →
                      (((o, l) :: mids) ++ [(o', l')]) !! S i = Some b →
                      Reach r a.1 a.2 b.1 b.2 ∧ length b.2 < length a.2) →
            prev st = o → rest st = l →
            ∃ st', iter (Run r) (S (length mids)) st st'
                   ∧ prev st' = o' ∧ rest st' = l').
  { clear. induction mids as [|[o1 l1] mids IH]; intros o l st Hsteps Ho Hl.
    - destruct (Hsteps 0 (o, l) (o', l') eq_refl eq_refl) as [Hr Hlt].
      destruct (Hr st Ho Hl) as (st' & HR & Ho' & Hl'). exists st'.
      split; [|now split]. simpl. exists st'. split; [exact HR|].
      split; [|reflexivity]. unfold progress. apply Nat.ltb_lt.
      rewrite Hl, Hl'. exact Hlt.
    - destruct (Hsteps 0 (o, l) (o1, l1) eq_refl eq_refl) as [Hr Hlt].
      destruct (Hr st Ho Hl) as (mid & HR & Ho1 & Hl1).
      destruct (IH o1 l1 mid) as (st' & Hit & Ho' & Hl'); auto.
      { intros i a b Ha Hb. exact (Hsteps (S i) a b Ha Hb). }
      exists st'. split; [|now split].
      cbn [length iter]. exists mid. split; [exact HR|].
      split; [|exact Hit]. unfold progress. apply Nat.ltb_lt.
      rewrite Hl, Hl1. exact Hlt. }
  destruct (Hit mids o l st Hsteps Ho Hl) as (st' & Hi & Ho' & Hl').
  exists st'. split; [|now split]. simpl. eauto.
Qed.

Lemma Reach_rep_skip (g : bool) (hi : option nat) (r : regex)
    (o : option ascii) (l : list ascii) :
  Reach (Rep g 0 hi r) o l o l.
Proof.
  intros st Ho Hl. exists st. split; [|now split]. simpl. exists 0.
  split; [lia|]. split; [|reflexivity]. unfold within. destruct hi; [lia | exact I].
Qed.

(** A quantified class reaches the end of any run of the class whose
    length is within the bounds. *)
Lemma Reach_rep_chr (g : bool) (lo : nat) (hi : option nat) (p : ascii → bool)
    (txt : list ascii) (o : option ascii) (l : list ascii) :
  Forall (λ x, p x = true) txt → lo ≤ length txt → within (length txt) hi →
  Reach (Rep g lo hi (Chr p)) o (txt ++ l) (prev_of o txt) l.
Proof.
  intros F Hlo Hhi st Ho Hl.
  assert (Hit : ∀ txt o st, Forall (λ x, p x = true) txt →
            prev st = o → rest st = txt ++ l →
            ∃ st', iter (Run (Chr p)) (length txt) st st'
                   ∧ prev st' = prev_of o txt ∧ rest st' = l).
  { clear. induction txt as [|x txt IH]; intros o st F Ho Hl.
    - exists st. now split.
    - inversion F as [|? ? Hx F']; subst.
      destruct (IH (Some x) (advance x (txt ++ l) st) F' eq_refl eq_refl)
        as (st' & Hit & Ho' & Hl').
      exists st'. split; [|split; [|exact Hl']].
      + cbn [length iter]. exists (advance x (txt ++ l) st).
        split; [simpl; eauto|]. split; [|exact Hit].
        unfold progress, advance. cbn [rest]. rewrite Hl. apply Nat.ltb_lt.
        simpl. lia.
      + rewrite Ho'. change (x :: txt) with ([x] ++ txt).
        rewrite <- prev_of_app. reflexivity. }
  destruct (Hit txt o st F Ho Hl) as (st' & Hi & Ho' & Hl').
  exists st'. split; [|now split]. simpl. eauto.
Qed.

Lemma Reach_plus_chr (g : bool) (p : ascii → bool) (txt : list ascii)
    (o : option ascii) (l : list ascii) :
  FieldFacts.run_of p txt →
  Reach (Rep g 1 None (Chr p)) o (txt ++ l) (prev_of o txt) l.
Proof.
  intros [Hn F]. apply Reach_rep_chr; [exact F| |exact I].
  destruct txt; [contradiction | simpl; lia].
Qed.

(** What a way through a pattern consumes, and the character it ends
    after. *)
Lemma Run_prev (r : regex) :
  ∀ st st', Run r st st' →
  ∃ txt, rest st = txt ++ rest st' ∧ prev st' = prev_of (prev st) txt.
Proof.
  assert (Hiter : ∀ (step : mstate → mstate → Prop),
            (∀ st st', step st st' →
               ∃ txt, rest st = txt ++ rest st' ∧ prev st' = prev_of (prev st) txt) →
            ∀ n st st', iter step n st st' →
               ∃ txt, rest st = txt ++ rest st' ∧ prev st' = prev_of (prev st) txt).
  { intros step Hstep. induction n as [|n IH]; intros st st' H; simpl in H.
    - subst. now exists [].
    - destruct H as (mid & H1 & _ & H2).
      apply Hstep in H1 as (t1 & E1 & P1). apply IH in H2 as (t2 & E2 & P2).
      exists (t1 ++ t2). split; [now rewrite E1, E2, app_assoc|].
      now rewrite P2, P1, prev_of_app. }
  induction r as [|p|a IHa b IHb|a IHa b IHb|g lo hi r IH|i r IH|];
    intros st st' H; simpl in H.
  - subst. now exists [].
  - destruct H as (c & t & E & _ & ->). now exists [c].
  - destruct H as (mid & Ha & Hb).
    apply IHa in Ha as (t1 & E1 & P1). apply IHb in Hb as (t2 & E2 & P2).
    exists (t1 ++ t2). split; [now rewrite E1, E2, app_assoc|].
    now rewrite P2, P1, prev_of_app.
  - destruct H as [H|H]; auto.
  - destruct H as (n & _ & _ & H). now apply (Hiter _ IH) in H.
  - destruct H as (mid & Hr & ->). now apply IH in Hr.
  - destruct H as [-> _]. now exists [].
Qed.

End CompleteFacts.

Module ShapeFacts.
Import Re ReFacts FieldFacts CompleteFacts.
Local Open Scope nat_scope.

Lemma Reach_opt_take (r : regex) (o o' : option ascii) (l l' : list ascii) :
  Reach r o l o' l' → length l' < length l → Reach (opt r) o l o' l'.
Proof.
  intros Hr Hlt. apply (Reach_rep true 0 (Some 1) r []); simpl; try lia.
  intros [|[|i]] a b Ha Hb; simpl in *; simplify_eq. now split.
Qed.

Ltac norm := repeat (rewrite <- ?app_assoc; cbn [app]).

Lemma Reach_stamp (ts : list ascii) :
  stamp_shape ts →
  ∀ o l, ∃ o',
    Reach (Grp 1 (cat [ plus w; plus s; plus d; plus s; plus d; lit ":"; plus d;
                        lit ":"; plus d ])) o (ts ++ l) o' l.
Proof.
  intros (mon & sp1 & day & sp2 & hh & mm & ss & -> & Hmon & Hsp1 & Hday & Hsp2
          & Hhh & Hmm & Hss) o l.
  eexists. apply Reach_grp. cbn [cat foldr]. norm.
  eapply Reach_seq; [apply (Reach_plus_chr _ _ mon); exact Hmon|].
  eapply Reach_seq; [apply (Reach_plus_chr _ _ sp1); exact Hsp1|].
  eapply Reach_seq; [apply (Reach_plus_chr _ _ day); exact Hday|].
  eapply Reach_seq; [apply (Reach_plus_chr _ _ sp2); exact Hsp2|].
  eapply Reach_seq; [apply (Reach_plus_chr _ _ hh); exact Hhh|].
  eapply Reach_seq; [apply Reach_lit|].
  eapply Reach_seq; [apply (Reach_plus_chr _ _ mm); exact Hmm|].
  eapply Reach_seq; [apply Reach_lit|].
  eapply Reach_seq; [apply (Reach_plus_chr _ _ ss); exact Hss|].
  apply Reach_eps.
Qed.

Lemma Reach_pid (pid : option (list ascii)) :
  match pid with Some p => run_of Py.isdecimal p | None => True end →
  ∀ o l, ∃ o',
    Reach (opt (cat [ lit "["; Grp 4 (plus d); lit "]" ])) o (pid_chars pid ++ l) o' l.
Proof.
  intros Hpid o l. destruct pid as [p|]; cbn [pid_chars].
  - eexists. apply Reach_opt_take.
    + cbn [cat foldr]. norm.
      eapply Reach_seq; [apply Reach_lit|].
      eapply Reach_seq; [apply Reach_grp, (Reach_plus_chr _ _ p); exact Hpid|].
      eapply Reach_seq; [apply Reach_lit|].
      apply Reach_eps.
    + simpl. rewrite !length_app. simpl. lia.
  - eexists. apply Reach_rep_skip.
Qed.

(** Any cut of the subject into the parts of the structural pattern is a
    way through the pattern. *)
Lemma pattern_Reach (ts s1 host s2 proc : list ascii) (pid : option (list ascii))
    (s3 msg post : list ascii) :
  stamp_shape ts →
  run_of Py.isspace s1 →
  run_of (λ x, negb (Py.isspace x)) host →
  run_of Py.isspace s2 →
  run_of (λ x, negb (Py.isspace x)) proc →
  match pid with Some p => run_of Py.isdecimal p | None => True end →
  run_of Py.isspace s3 →
  run_of (λ x, negb (Ascii.eqb x Py.newline)) msg →
  ∃ st', Run AuthLogCollector.pattern
           (start None (ts ++ s1 ++ host ++ s2 ++ proc ++ pid_chars pid
                        ++ ":"%char :: s3 ++ msg ++ post)) st'.
Proof.
  intros Hts Hs1 Hh Hs2 Hp Hpid Hs3 Hm.
  set (l1 := s1 ++ host ++ s2 ++ proc ++ pid_chars pid ++ ":"%char :: s3
             ++ msg ++ post).
  destruct (Reach_stamp ts Hts None l1) as [o1 R1].
  set (l6 := ":"%char :: s3 ++ msg ++ post).
  destruct (Reach_pid pid Hpid
              (prev_of (prev_of (prev_of (prev_of o1 s1) host) s2) proc) l6)
    as [o6 R6].
  assert (R : ∃ o', Reach AuthLogCollector.pattern None (ts ++ l1) o' post).
  { eexists. unfold AuthLogCollector.pattern. cbn [cat foldr].
    eapply Reach_seq; [exact R1|]. unfold l1.
    eapply Reach_seq; [apply (Reach_plus_chr _ _ s1); exact Hs1|].
    eapply Reach_seq; [apply Reach_grp, (Reach_plus_chr _ _ host); exact Hh|].
    eapply Reach_seq; [apply (Reach_plus_chr _ _ s2); exact Hs2|].
    eapply Reach_seq; [apply Reach_grp, (Reach_plus_chr _ _ proc); exact Hp|].
    eapply Reach_seq; [exact R6|]. unfold l6.
    eapply Reach_seq; [apply Reach_lit|].
    eapply Reach_seq; [apply (Reach_plus_chr _ _ s3); exact Hs3|].
    eapply Reach_seq; [apply Reach_grp, (Reach_plus_chr _ _ msg); exact Hm|].
    apply Reach_eps. }
  destruct R as [o' R].
  destruct (R (start None (ts ++ l1)) eq_refl eq_refl) as (st' & HR & _).
  now exists st'.
Qed.

End ShapeFacts.

Section Shape.
Import Py PyFacts FieldFacts CompleteFacts ShapeFacts.
Variable w : world.
Variable c : AuthLogCollector.collector.
Variable d : AuthLogCollectorDB.collector.

(** The expected shape of a line:
    "<stamp> <host> <process>[<pid>]: <message>", the bracketed process id
    being optional, where the stamp is "word, number,
    number:number:number", host and process hold no white space, the gaps
    are white space and the message is at least one character that is not
    a line break. *)
Definition log_shape (line : string) : Prop :=
  ∃ ts s1 host s2 proc pid s3 msg post,
    line = ts +:+ s1 +:+ host +:+ s2 +:+ proc +:+ pid_text pid +:+ ":"
           +:+ s3 +:+ msg +:+ post
    ∧ stamp ts
    ∧ made_of isspace s1
    ∧ made_of (λ x, negb (isspace x)) host
    ∧ made_of isspace s2
    ∧ made_of (λ x, negb (isspace x)) proc
    ∧ match pid with Some p => made_of isdecimal p | None => True end
    ∧ made_of isspace s3
    ∧ made_of (λ x, negb (Ascii.eqb x newline)) msg.

Lemma re_match_pattern_iff (line : string) :
  is_Some (Re.re_match AuthLogCollector.pattern line) ↔ log_shape line.
Proof.
  split.
  - intros [m Hm]. apply re_match_pattern_fields in Hm
      as (ts & s1 & host & s2 & proc & pid & s3 & msg & post & E & _ & _ & _
          & _ & _ & H).
    exists ts, s1, host, s2, proc, pid, s3, msg, post. split; [exact E|].
    tauto.
  - intros (ts & s1 & host & s2 & proc & pid & s3 & msg & post & -> & Hts
            & Hs1 & Hh & Hs2 & Hp & Hpid & Hs3 & Hm).
    apply re_match_iff.
    destruct (pattern_Reach (list_ascii_of_string ts) (list_ascii_of_string s1)
                (list_ascii_of_string host) (list_ascii_of_string s2)
                (list_ascii_of_string proc) (list_ascii_of_string <$> pid)
                (list_ascii_of_string s3) (list_ascii_of_string msg)
                (list_ascii_of_string post))
      as [st' HR]; try assumption.
    { destruct pid as [p|]; [exact Hpid | exact I]. }
    exists st'. rewrite !UserFacts.to_list_app.
    replace (list_ascii_of_string (pid_text pid))
      with (pid_chars (list_ascii_of_string <$> pid)); [exact HR|].
    destruct pid as [p|]; [|reflexivity].
    cbn [pid_text pid_chars fmap option_fmap option_map].
    change ("[" +:+ p +:+ "]") with (String "["%char (p +:+ "]")).
    cbn [list_ascii_of_string]. now rewrite UserFacts.to_list_app.
Qed.

(** X5. [parse_log_line] returns [None] exactly on the lines that do not
    have the expected shape, in both collectors; on every line of the
    expected shape it gives a record or raises. *)
Theorem parse_log_line_None_iff_not_log_shape (line : string) :
  (AuthLogCollector.parse_log_line w c line = Ok None ↔ ¬ log_shape line)
  ∧ (AuthLogCollectorDB.parse_log_line w d line = Ok None ↔ ¬ log_shape line).
Proof.
  rewrite <- re_match_pattern_iff, parse_log_line_eq, parse_log_line_db_eq.
  destruct (Re.re_match AuthLogCollector.pattern line) as [m|].
  - destruct (Datetime.strptime _) as [dt|e]; [destruct (db_pid w m)|];
      split; (split; [discriminate | intros H; destruct H; eauto]).
  - split; (split; [intros _ [? [=]] | reflexivity]).
Qed.
End Shape.

(** ** The IP address *)

Module SearchFacts.
Import Re ReFacts CompleteFacts.
Local Open Scope nat_scope.

Lemma prev_of_cons (o : option ascii) (x : ascii) (t : list ascii) :
  prev_of o (x :: t) = prev_of (Some x) t.
Proof. change (x :: t) with ([x] ++ t). now rewrite <- prev_of_app. Qed.

(** [re.search] returns the match at the leftmost position that has one. *)
Lemma search_from_first (pat : regex) :
  ∀ l p m, search_from pat p l = Some m →
  ∃ pre l',
    l = pre ++ l'
    ∧ match_at pat (start (prev_of p pre) l') = Some m
    ∧ ∀ pre2 l2, l = pre2 ++ l2 → length pre2 < length pre →
                 match_at pat (start (prev_of p pre2) l2) = None.
Proof.
  induction l as [|x l IH]; intros p m H; cbn [search_from] in H.
  - destruct (match_at pat (start p [])) eqn:E; [|discriminate].
    injection H as ->. exists [], []. repeat split; [exact E|].
    intros pre2 l2 _ Hlt. simpl in Hlt. lia.
  - destruct (match_at pat (start p (x :: l))) eqn:E.
    + injection H as ->. exists [], (x :: l). repeat split; [exact E|].
      intros pre2 l2 _ Hlt. simpl in Hlt. lia.
    + apply IH in H as (pre & l' & -> & Hm & Hfirst).
      exists (x :: pre), l'. split; [reflexivity|].
      split; [now rewrite prev_of_cons|].
      intros [|y pre2] l2 E2 Hlt.
      * simpl in E2. subst l2. exact E.
      * simpl in E2. injection E2 as <- E2. rewrite prev_of_cons.
        apply Hfirst; [exact E2 | simpl in Hlt; lia].
Qed.

Lemma search_from_complete (pat : regex) :
  ∀ pre l' p,
    is_Some (match_at pat (start (prev_of p pre) l')) →
    is_Some (search_from pat p (pre ++ l')).
Proof.
  induction pre as [|x pre IH]; intros l' p H.
  - cbn [app]. change (prev_of p []) with p in H. destruct H as [m Hm].
    destruct l' as [|y l']; cbn [search_from]; rewrite Hm; eauto.
  - cbn [app search_from].
    destruct (match_at pat (start p (x :: pre ++ l'))); [eauto|].
    apply IH. now rewrite <- (prev_of_cons p).
Qed.

Lemma match_at_iff (pat : regex) (st : mstate) :
  is_Some (match_at pat st) ↔ ∃ st', Run pat st st'.
Proof.
  split.
  - intros [m Hm]. apply UserFacts.match_at_Run in Hm as (st' & HR & _). eauto.
  - intros [st' HR]. unfold match_at.
    destruct (exec_complete pat st st' Some HR) as [v ->]; eauto.
Qed.

End SearchFacts.

Module IpFacts.
Import Re ReFacts CompleteFacts SearchFacts.
Local Open Scope nat_scope.

(** One to three decimal digits. *)
Definition octet (txt : list ascii) : Prop :=
  1 ≤ length txt ≤ 3 ∧ Forall (λ x, Py.isdecimal x = true) txt.

(** Four groups of one to three digits, separated by dots. *)
Definition dotted_quad (ip : list ascii) : Prop :=
  ∃ a b c e,
    ip = a ++ "."%char :: b ++ "."%char :: c ++ "."%char :: e
    ∧ octet a ∧ octet b ∧ octet c ∧ octet e.

Lemma isdecimal_isword (x : ascii) : Py.isdecimal x = true → Py.isword x = true.
Proof. unfold Py.isword, Py.isdecimal. now intros ->. Qed.

Lemma octet_head (a : list ascii) (l : list ascii) :
  octet a → word_at (head (a ++ l)) = true.
Proof.
  intros [Hl F]. destruct a as [|x a]; [simpl in Hl; lia|].
  inversion F; subst. simpl. now apply isdecimal_isword.
Qed.

Lemma octet_last (o : option ascii) (a : list ascii) (pre : list ascii) :
  octet a → word_at (prev_of o (pre ++ a)) = true.
Proof.
  intros [Hl F]. unfold prev_of. rewrite last_app.
  destruct (last a) as [x|] eqn:E.
  - simpl. apply isdecimal_isword.
    apply last_Some in E as [a' ->]. apply Forall_app in F as [_ F].
    now inversion F.
  - apply last_None in E. subst. simpl in Hl. lia.
Qed.

Lemma Run_octet (st st' : mstate) :
  Run (times 1 3 d) st st' → ∃ a, octet a ∧ rest st = a ++ rest st'.
Proof.
  intros H. apply Run_rep_chr in H as (a & Hlo & Hhi & F & E & _).
  exists a. unfold octet. simpl in Hhi. auto.
Qed.

Lemma Run_octet_dot (st st' : mstate) :
  Run (cat [times 1 3 d; lit "."]) st st' →
  ∃ a, octet a ∧ rest st = a ++ "."%char :: rest st'.
Proof.
  cbn [cat foldr]. intros (m1 & H1 & m2 & H2 & ->).
  apply Run_octet in H1 as (a & Ha & E1). apply Run_lit in H2 as [E2 _].
  exists a. split; [exact Ha|]. now rewrite E1, E2.
Qed.

(** Every way through the pattern of [_extract_ip] consumes a dotted
    quad that no word character precedes or follows. *)
Lemma Run_ip_pattern (st st' : mstate) :
  Run AuthLogCollector.ip_pattern st st' →
  ∃ ip, rest st = ip ++ rest st' ∧ dotted_quad ip
        ∧ word_at (prev st) = false ∧ word_at (head (rest st')) = false.
Proof.
  intros H. pose proof (Run_prev _ _ _ H) as (txt & Etxt & Hprev).
  unfold AuthLogCollector.ip_pattern in H. cbn [cat foldr] in H.
  destruct H as (m1 & [-> Hb1] & m2 & H2 & m3 & H3 & m4 & [-> Hb2] & ->).
  destruct H2 as (n & Hlo & Hhi & Hit). simpl in Hhi.
  assert (n = 3) as -> by lia. cbn [iter] in Hit.
  destruct Hit as (k1 & K1 & _ & k2 & K2 & _ & k3 & K3 & _ & ->).
  apply Run_octet_dot in K1 as (a & Ha & E1).
  apply Run_octet_dot in K2 as (b & Hb & E2).
  apply Run_octet_dot in K3 as (c & Hc & E3).
  apply Run_octet in H3 as (e & He & E4).
  assert (E : rest st = (a ++ "."%char :: b ++ "."%char :: c ++ "."%char :: e)
                        ++ rest m3).
  { rewrite E1, E2, E3, E4. repeat (rewrite <- ?app_assoc; cbn [app]). reflexivity. }
  exists (a ++ "."%char :: b ++ "."%char :: c ++ "."%char :: e).
  split; [exact E|]. split; [exists a, b, c, e; auto|].
  unfold at_boundary in Hb1, Hb2.
  rewrite E, <- app_assoc, (octet_head a _ Ha) in Hb1.
  assert (txt = a ++ "."%char :: b ++ "."%char :: c ++ "."%char :: e) as ->
    by (rewrite E in Etxt; now apply app_inv_tail in Etxt).
  rewrite Hprev in Hb2.
  replace (a ++ "."%char :: b ++ "."%char :: c ++ "."%char :: e)
    with ((a ++ "."%char :: b ++ "."%char :: c ++ ["."%char]) ++ e) in Hb2
    by (repeat (rewrite <- ?app_assoc; cbn [app]); reflexivity).
  rewrite (octet_last _ e _ He) in Hb2.
  split.
  - now destruct (word_at (prev st)).
  - now destruct (word_at (head (rest m3))).
Qed.

Lemma Reach_octet (a : list ascii) (o : option ascii) (l : list ascii) :
  octet a → Reach (times 1 3 d) o (a ++ l) (prev_of o a) l.
Proof. intros [Hl F]. apply Reach_rep_chr; simpl; auto; lia. Qed.

Lemma Reach_octet_dot (a : list ascii) (o : option ascii) (l : list ascii) :
  octet a →
  Reach (cat [times 1 3 d; lit "."]) o (a ++ "."%char :: l) (Some "."%char) l.
Proof.
  intros Ha. cbn [cat foldr].
  eapply Reach_seq; [apply (Reach_octet a), Ha|].
  eapply Reach_seq; [apply Reach_lit | apply Reach_eps].
Qed.

(** A dotted quad that no word character precedes or follows is a way
    through the pattern. *)
Lemma Reach_ip_pattern (ip : list ascii) (o : option ascii) (l : list ascii) :
  dotted_quad ip → word_at o = false → word_at (head l) = false →
  ∃ o', Reach AuthLogCollector.ip_pattern o (ip ++ l) o' l.
Proof.
  intros (a & b & c & e & -> & Ha & Hb & Hc & He) Ho Hl.
  exists (prev_of (Some "."%char) e).
  unfold AuthLogCollector.ip_pattern. cbn [cat foldr].
  repeat (rewrite <- ?app_assoc; cbn [app]).
  eapply Reach_seq.
  { apply Reach_bnd. now rewrite Ho, (octet_head a _ Ha). }
  eapply Reach_seq.
  { apply (Reach_rep true 3 (Some 3) _
             [ (Some "."%char, b ++ "."%char :: c ++ "."%char :: e ++ l);
               (Some "."%char, c ++ "."%char :: e ++ l) ]
             o _ (Some "."%char) (e ++ l)); simpl; try lia.
    intros [|[|[|i]]] x y Hx Hy; simpl in *; simplify_eq; cbn [fst snd].
    - split; [now apply Reach_octet_dot|].
      repeat (rewrite ?length_app; cbn [length]); lia.
    - split; [now apply Reach_octet_dot|].
      repeat (rewrite ?length_app; cbn [length]); lia.
    - split; [now apply Reach_octet_dot|].
      repeat (rewrite ?length_app; cbn [length]); lia. }
  eapply Reach_seq; [apply (Reach_octet e), He|].
  eapply Reach_seq; [|apply Reach_eps].
  apply Reach_bnd. rewrite Hl.
  pose proof (octet_last (Some "."%char) e [] He) as H. simpl in H.
  now rewrite H.
Qed.

End IpFacts.

Section Ip.
Import Py PyFacts CompleteFacts SearchFacts IpFacts.
Variable c : AuthLogCollector.collector.
Variable d : AuthLogCollectorDB.collector.

(** [ip] stands in [message] between [pre] and [post], is a dotted quad,
    and no word character stands right before or right after it. *)
Definition ip_at (message pre ip post : string) : Prop :=
  message = pre +:+ ip +:+ post
  ∧ dotted_quad (list_ascii_of_string ip)
  ∧ Re.word_at (last (list_ascii_of_string pre)) = false
  ∧ Re.word_at (head (list_ascii_of_string post)) = false.

Lemma match_at_ip (o : option ascii) (l : list ascii) (m : Re.Match) :
  Re.match_at AuthLogCollector.ip_pattern (Re.start o l) = Some m →
  ∃ post, l = list_ascii_of_string (Re.whole m) ++ post
          ∧ dotted_quad (list_ascii_of_string (Re.whole m))
          ∧ Re.word_at o = false ∧ Re.word_at (head post) = false.
Proof.
  intros H. apply UserFacts.match_at_Run in H as (st' & HR & ->).
  apply Run_ip_pattern in HR as (ip & E & Hq & Ho & Hp).
  cbn [Re.whole Re.mk_match]. rewrite (ReFacts.consumed_app _ _ _ E).
  rewrite FieldFacts.to_list_of_list. exists (Re.rest st'). auto.
Qed.

Lemma string_app_length (a b : string) :
  length (list_ascii_of_string (a +:+ b))
  = (String.length a + length (list_ascii_of_string b))%nat.
Proof.
  rewrite UserFacts.to_list_app, length_app. f_equal.
  induction a as [|x a IH]; [reflexivity|]. simpl. now rewrite IH.
Qed.

Lemma list_length (a : string) : length (list_ascii_of_string a) = String.length a.
Proof. induction a as [|x a IH]; [reflexivity|]. simpl. now rewrite IH. Qed.

(** X6. The IP address of a record is the leftmost dotted quad of the
    message: four groups of one to three decimal digits separated by
    dots, with no word character right before or right after.  The field
    is [None] exactly when the message holds no such text.  The groups are
    not checked against 255.  Both collectors compute the same field. *)
Theorem extract_ip_is_the_leftmost_dotted_quad (message : string) :
  AuthLogCollectorDB._extract_ip d message = AuthLogCollector._extract_ip c message
  ∧ match AuthLogCollector._extract_ip c message with
    | Some ip =>
        ∃ pre post,
          ip_at message pre ip post
          ∧ ∀ pre' ip' post',
              ip_at message pre' ip' post' →
              (String.length pre <= String.length pre')%nat
    | None => ∀ pre ip post, ¬ ip_at message pre ip post
    end.
Proof.
  split; [reflexivity|].
  unfold AuthLogCollector._extract_ip, Re.re_search.
  destruct (Re.search_from AuthLogCollector.ip_pattern None
              (list_ascii_of_string message)) as [m|] eqn:E;
    cbn [fmap option_fmap option_map].
  - apply search_from_first in E as (pre & l' & El & Hm & Hfirst).
    apply match_at_ip in Hm as (post & -> & Hq & Ho & Hp).
    exists (string_of_list_ascii pre), (string_of_list_ascii post).
    assert (Emsg : message = string_of_list_ascii pre +:+ Re.whole m
                             +:+ string_of_list_ascii post).
    { rewrite <- (string_of_list_ascii_of_string message), El.
      rewrite !ParserFacts.of_list_app.
      now rewrite string_of_list_ascii_of_string. }
    split.
    { split; [exact Emsg|]. split; [exact Hq|].
      rewrite !FieldFacts.to_list_of_list. split; [|exact Hp].
      unfold prev_of in Ho. now destruct (last pre). }
    intros pre' ip' post' (E' & Hq' & Ho' & Hp').
    rewrite <- list_length, FieldFacts.to_list_of_list.
    destruct (Nat.le_gt_cases (length pre) (String.length pre')) as [|Hlt];
      [assumption|exfalso].
    rewrite <- list_length in Hlt.
    specialize (Hfirst (list_ascii_of_string pre')
                  (list_ascii_of_string ip' ++ list_ascii_of_string post')).
    rewrite <- !UserFacts.to_list_app, <- E' in Hfirst.
    specialize (Hfirst eq_refl Hlt).
    assert (Hs : is_Some (Re.match_at AuthLogCollector.ip_pattern
                  (Re.start (prev_of None (list_ascii_of_string pre'))
                     (list_ascii_of_string (ip' +:+ post'))))).
    { apply match_at_iff. rewrite UserFacts.to_list_app.
      destruct (Reach_ip_pattern (list_ascii_of_string ip')
                  (prev_of None (list_ascii_of_string pre'))
                  (list_ascii_of_string post') Hq') as [o' R]; [|exact Hp'|].
      { unfold prev_of. now destruct (last (list_ascii_of_string pre')). }
      destruct (R (Re.start (prev_of None (list_ascii_of_string pre'))
                     (list_ascii_of_string ip' ++ list_ascii_of_string post'))
                  eq_refl eq_refl) as (st' & HR & _).
      eauto. }
    rewrite Hfirst in Hs. now destruct Hs.
  - intros pre ip post (E' & Hq & Ho & Hp).
    assert (Hs : is_Some (Re.search_from AuthLogCollector.ip_pattern None
                            (list_ascii_of_string message))).
    { rewrite E', UserFacts.to_list_app. apply search_from_complete.
      apply match_at_iff. rewrite UserFacts.to_list_app.
      destruct (Reach_ip_pattern (list_ascii_of_string ip)
                  (prev_of None (list_ascii_of_string pre))
                  (list_ascii_of_string post) Hq) as [o' R]; [|exact Hp|].
      { unfold prev_of. now destruct (last (list_ascii_of_string pre)). }
      destruct (R (Re.start (prev_of None (list_ascii_of_string pre))
                     (list_ascii_of_string ip ++ list_ascii_of_string post))
                  eq_refl eq_refl) as (st' & HR & _).
      eauto. }
    rewrite E in Hs. now destruct Hs.
Qed.
End Ip.

(** ** The user name *)

Module NameFacts.
Import Re ReFacts CompleteFacts SearchFacts FieldFacts.
Local Open Scope nat_scope.

Lemma Reach_str (kw : list ascii) :
  ∀ o l, ∃ o', Reach (cat (map lit kw)) o (kw ++ l) o' l.
Proof.
  induction kw as [|x kw IH]; intros o l.
  - exists o. apply Reach_eps.
  - destruct (IH (Some x) l) as [o' R]. exists o'.
    change (cat (map lit (x :: kw))) with (Seq (lit x) (cat (map lit kw))).
    eapply Reach_seq; [apply Reach_lit | exact R].
Qed.

(** "<keyword><name>" has a way through wherever the keyword is followed
    by a word character. *)
Lemma keyword_Run (kw : list ascii) (x : ascii) (t : list ascii)
    (o : option ascii) :
  Py.isword x = true →
  ∃ st', Run (cat [cat (map lit kw); Grp 1 (plus w)]) (start o (kw ++ x :: t)) st'.
Proof.
  intros Hx. destruct (Reach_str kw o (x :: t)) as [o1 R1].
  assert (R : Reach (cat [cat (map lit kw); Grp 1 (plus w)]) o (kw ++ x :: t)
                (prev_of o1 [x]) t).
  { cbn [cat foldr]. eapply Reach_seq; [exact R1|].
    eapply Reach_seq; [|apply Reach_eps].
    apply Reach_grp. apply (Reach_plus_chr true Py.isword [x] o1 t).
    split; [discriminate | now constructor]. }
  destruct (R (start o (kw ++ x :: t)) eq_refl eq_refl) as (st' & HR & _).
  eauto.
Qed.

(** A match of "<keyword><name>" at a position: the name is the longest
    run of word characters after the keyword. *)
Lemma match_at_keyword (kw : list ascii) (o : option ascii) (l : list ascii)
    (m : Match) :
  match_at (cat [cat (map lit kw); Grp 1 (plus w)]) (start o l) = Some m →
  ∃ name post,
    l = kw ++ name ++ post
    ∧ captures m = [(1, string_of_list_ascii name)]
    ∧ run_of Py.isword name
    ∧ word_at (head post) = false.
Proof.
  unfold match_at. intros H.
  destruct (exec _ (start o l) Some) as [st'|] eqn:E; [|discriminate].
  injection H as <-.
  pose proof (GreedyFacts.exec_last_group_longest [cat (map lit kw)] 1
                Py.isword (start o l) st' E) as Hstop.
  apply exec_sound in E as (st'' & HR & [= ->]).
  cbn [cat foldr] in HR. destruct HR as (m1 & H1 & m2 & H2 & ->).
  apply UserFacts.Run_str in H1 as [E1 C1].
  apply Run_grp_run_of in H2 as (name & Hn & E2 & C2).
  exists name, (rest m2). cbn [rest start] in E1.
  split; [now rewrite E1, E2|].
  split; [cbn [captures mk_match]; rewrite C2, C1; reflexivity|].
  split; [exact Hn|].
  unfold GreedyFacts.stops in Hstop. destruct (rest m2); [reflexivity | exact Hstop].
Qed.

End NameFacts.

Section Names.
Import Py PyFacts FieldFacts CompleteFacts SearchFacts NameFacts.
Variable c : AuthLogCollector.collector.
Variable d : AuthLogCollectorDB.collector.

(** Somewhere in [message] the keyword is followed by a word character. *)
Definition introduces (kw message : string) : Prop :=
  ∃ pre x post, message = pre +:+ kw +:+ String x post ∧ isword x = true.

(** [name] is the longest run of word characters after the leftmost
    place of [message] where the keyword is followed by a word character. *)
Definition names (kw message name : string) : Prop :=
  ∃ pre post,
    message = pre +:+ kw +:+ name +:+ post
    ∧ made_of isword name
    ∧ Re.word_at (head (list_ascii_of_string post)) = false
    ∧ ∀ pre' x post',
        message = pre' +:+ kw +:+ String x post' → isword x = true →
        (String.length pre <= String.length pre')%nat.

Lemma captured_names (kw message name : string) :
  Spec.captured kw message = Some name → names kw message name.
Proof.
  unfold Spec.captured, Re.re_search, Re.str. intros H.
  destruct (Re.search_from _ None (list_ascii_of_string message)) as [m|] eqn:E;
    [|discriminate].
  cbn [mbind option_bind] in H.
  apply search_from_first in E as (pre & l' & El & Hm & Hfirst).
  apply match_at_keyword in Hm as (nm & post & -> & Hc & Hn & Hp).
  unfold Re.group in H. rewrite Hc in H. cbn in H. injection H as <-.
  exists (string_of_list_ascii pre), (string_of_list_ascii post).
  split.
  { rewrite <- (string_of_list_ascii_of_string message), El.
    rewrite !ParserFacts.of_list_app.
    now rewrite string_of_list_ascii_of_string. }
  split; [now apply made_of_list|].
  split; [now rewrite to_list_of_list|].
  intros pre' x post' E' Hx.
  rewrite <- !list_length, to_list_of_list.
  destruct (Nat.le_gt_cases (length pre) (length (list_ascii_of_string pre')))
    as [|Hlt]; [assumption|exfalso].
  specialize (Hfirst (list_ascii_of_string pre')
                (list_ascii_of_string kw ++ x :: list_ascii_of_string post')).
  assert (El' : list_ascii_of_string message
                = list_ascii_of_string pre'
                  ++ list_ascii_of_string kw ++ x :: list_ascii_of_string post').
  { rewrite E', !UserFacts.to_list_app. reflexivity. }
  specialize (Hfirst El' Hlt).
  assert (Hs : is_Some (Re.match_at
                (Re.cat [Re.cat (map Re.lit (list_ascii_of_string kw));
                         Re.Grp 1 (Re.plus Re.w)])
                (Re.start (prev_of None (list_ascii_of_string pre'))
                   (list_ascii_of_string kw ++ x :: list_ascii_of_string post'))))
    by (apply match_at_iff, keyword_Run, Hx).
  rewrite Hfirst in Hs. now destruct Hs.
Qed.

Lemma captured_introduces (kw message : string) :
  is_Some (Spec.captured kw message) ↔ introduces kw message.
Proof. apply UserFacts.captured_iff. Qed.

Lemma made_of_root : made_of isword "root".
Proof. split; [discriminate | repeat constructor]. Qed.

Lemma made_of_unknown : made_of isword "unknown".
Proof. split; [discriminate | repeat constructor]. Qed.

(** X7. The user of a record.  When "user " is followed by a word
    character somewhere in the message, the user is the longest run of
    word characters after the leftmost such place; otherwise, when "for "
    is, the same with "for "; the first pattern wins even where "for "
    stands earlier in the message.  When neither is, the user is "root" or
    "unknown".  In every case, and in both collectors, the user is a
    non-empty string of word characters: a name is cut at its first dot,
    hyphen or other character outside the class. *)
Theorem extract_user_is_the_word_after_the_keyword (message : string) :
  let u := AuthLogCollector._extract_user c message in
  let u' := AuthLogCollectorDB._extract_user d message in
  (introduces "user " message → names "user " message u ∧ u' = u)
  ∧ (¬ introduces "user " message → introduces "for " message →
     names "for " message u ∧ u' = u)
  ∧ (¬ introduces "user " message → ¬ introduces "for " message →
     (u = "root" ∨ u = "unknown") ∧ (u' = "root" ∨ u' = "unknown"))
  ∧ made_of isword u ∧ made_of isword u'.
Proof.
  intros u u'. unfold u, u'.
  rewrite extract_user_console_spec, extract_user_db_spec.
  unfold extract_user_console, Spec.extract_user.
  rewrite <- !captured_introduces.
  destruct (Spec.captured "user " message) as [n1|] eqn:E1.
  - pose proof (captured_names _ _ _ E1) as Hn.
    split; [auto|]. split; [intros H; destruct H; eauto|].
    split; [intros H; destruct H; eauto|].
    destruct Hn as (_ & _ & _ & Hw & _). auto.
  - split; [intros [? [=]]|].
    destruct (Spec.captured "for " message) as [n2|] eqn:E2.
    + pose proof (captured_names _ _ _ E2) as Hn.
      split; [auto|]. split; [intros _ H; destruct H; eauto|].
      destruct Hn as (_ & _ & _ & Hw & _). auto.
    + split; [intros _ [? [=]]|].
      assert (Hc : (if bool_decide (is_Some (Re.re_search uid_pattern message))
                    then "root" else "unknown") = "root"
                   ∨ (if bool_decide (is_Some (Re.re_search uid_pattern message))
                      then "root" else "unknown") = "unknown")
        by (destruct (bool_decide _); auto).
      assert (Hd : (if decide (occurs_ci "root" message)
                    then "root" else "unknown") = "root"
                   ∨ (if decide (occurs_ci "root" message)
                      then "root" else "unknown") = "unknown")
        by (destruct (decide _); auto).
      split; [auto|].
      split; [destruct Hc as [-> | ->]; auto using made_of_root, made_of_unknown|].
      destruct Hd as [-> | ->]; auto using made_of_root, made_of_unknown.
Qed.
End Names.

Lemma extract_user_is_the_word_after_the_keyword_witness :
  introduces "user " "Failed password for invalid user john.doe from 10.0.0.5"
  ∧ AuthLogCollector._extract_user Sample.console
      "Failed password for invalid user john.doe from 10.0.0.5" = "john"
  ∧ names "user " "Failed password for invalid user john.doe from 10.0.0.5"
      (AuthLogCollector._extract_user Sample.console
         "Failed password for invalid user john.doe from 10.0.0.5").
Proof.
  assert (Hi : introduces "user "
                 "Failed password for invalid user john.doe from 10.0.0.5").
  { exists "Failed password for invalid ", "j"%char, "ohn.doe from 10.0.0.5".
    split; reflexivity. }
  split; [exact Hi|]. split; [vm_compute; reflexivity|].
  exact (proj1 (proj1 (extract_user_is_the_word_after_the_keyword
                         Sample.console Sample.db
                         "Failed password for invalid user john.doe from 10.0.0.5")
                  Hi)).
Defined.

(** ** Which records count as events at risk *)

Section Threshold.
Import Py PyFacts.
Variable w : world.
Variable c : AuthLogCollector.collector.
Local Open Scope Z_scope.

Lemma score_by_type (event_type message : string) :
  In event_type Spec.taxonomy →
  let failed := occurs_ci "failed" message in
  let root := occurs_ci "root" message in
  (5 <= Spec.score event_type message
   ↔ event_type = "AUTH_FAILURE" ∨ event_type = "INVALID_USER"
     ∨ event_type = "SUDO_COMMAND"
     ∨ (event_type = "SESSION_OPEN" ∧ failed)
     ∨ ((event_type = "AUTH_SUCCESS" ∨ event_type = "OTHER") ∧ failed ∧ root))
  ∧ (Spec.score event_type message = 10
     ↔ (event_type = "INVALID_USER" ∧ failed)
       ∨ (event_type = "AUTH_FAILURE" ∧ failed ∧ root))
  ∧ 1 <= Spec.score event_type message <= 10.
Proof.
  intros Hin failed root. unfold Spec.score. fold failed root.
  simpl in Hin.
  destruct Hin as [<-|[<-|[<-|[<-|[<-|[<-|[<-|[<-|[]]]]]]]]];
    match goal with
    | |- context [Spec.base_score ?t] =>
        let v := eval vm_compute in (Spec.base_score t) in
        change (Spec.base_score t) with v
    end;
    destruct (decide failed), (decide root);
    (split; [|split]); try lia;
    (split; [intros H; try lia | intros H]);
    repeat match goal with
           | H : _ ∨ _ |- _ => destruct H
           | H : _ ∧ _ |- _ => destruct H
           end;
    try discriminate; try contradiction; try lia; tauto.
Qed.

(** X8. Which records count as events at risk.  A record has a score of 5
    or more exactly when its type is AUTH_FAILURE, INVALID_USER or
    SUDO_COMMAND, or SESSION_OPEN with "failed" in the message, or
    AUTH_SUCCESS or OTHER with both "failed" and "root" in the message (in
    any case of the letters); a SESSION_CLOSE or CRON_JOB record never
    has.  The score is 10 exactly for INVALID_USER with "failed" and for
    AUTH_FAILURE with "failed" and "root"; it is never below 1. *)
Theorem record_at_risk_by_type_and_keywords
    (line : string) (e : AuthLogCollector.event) :
  AuthLogCollector.parse_log_line w c line = Ok (Some e) →
  let t := AuthLogCollector.event_type e in
  let failed := occurs_ci "failed" (AuthLogCollector.message e) in
  let root := occurs_ci "root" (AuthLogCollector.message e) in
  In t Spec.taxonomy
  ∧ (5 <= AuthLogCollector.risk_score e
     ↔ t = "AUTH_FAILURE" ∨ t = "INVALID_USER" ∨ t = "SUDO_COMMAND"
       ∨ (t = "SESSION_OPEN" ∧ failed)
       ∨ ((t = "AUTH_SUCCESS" ∨ t = "OTHER") ∧ failed ∧ root))
  ∧ (AuthLogCollector.risk_score e = 10
     ↔ (t = "INVALID_USER" ∧ failed) ∨ (t = "AUTH_FAILURE" ∧ failed ∧ root))
  ∧ 1 <= AuthLogCollector.risk_score e <= 10.
Proof.
  intros H. apply parse_log_line_Some in H as (m & dt & _ & _ & ->).
  unfold console_event.
  cbn [AuthLogCollector.event_type AuthLogCollector.message
       AuthLogCollector.risk_score].
  set (message := default "" (Re.group m 5)).
  set (t := AuthLogCollector._detect_event_type c _ message).
  assert (Hin : In t Spec.taxonomy).
  { unfold t, AuthLogCollector._detect_event_type.
    repeat match goal with |- context [if ?b then _ else _] => destruct b end;
      simpl; tauto. }
  split; [exact Hin|].
  rewrite calculate_risk_spec. exact (score_by_type t message Hin).
Qed.
End Threshold.

Lemma record_at_risk_by_type_and_keywords_witness :
  ∃ e, AuthLogCollector.parse_log_line (Sample.world_of 2026 None)
         Sample.console Sample.failed_password = Py.Ok (Some e)
       ∧ AuthLogCollector.event_type e = "INVALID_USER"
       ∧ (5 <= AuthLogCollector.risk_score e)%Z.
Proof.
  assert (Ee : ∃ e, AuthLogCollector.parse_log_line (Sample.world_of 2026 None)
                      Sample.console Sample.failed_password = Py.Ok (Some e)
                    ∧ AuthLogCollector.event_type e = "INVALID_USER")
    by (eexists; split; vm_compute; reflexivity).
  destruct Ee as (e & Ee & Ht). exists e.
  split; [exact Ee|]. split; [exact Ht|].
  destruct (record_at_risk_by_type_and_keywords (Sample.world_of 2026 None)
              Sample.console Sample.failed_password e Ee) as (_ & H5 & _).
  apply H5. right. left. exact Ht.
Defined.

(** ** The two risk listings *)

Module ListingFacts.
Import SortFacts.
Local Open Scope Z_scope.

Section Stable.
Context {A : Type} (key : A → Z).

(** [sorted(..., reverse=True)] is stable: the elements of any one key
    keep the order they have in the input. *)
Lemma insert_desc_filter (k : Z) (x : A) (l : list A) :
  filter (λ a, key a = k) (insert_desc key x l)
  = filter (λ a, key a = k) (x :: l).
Proof.
  induction l as [|y l IH]; [reflexivity|]. cbn [insert_desc].
  destruct (Z.ltb_spec (key x) (key y)) as [Hlt|]; [|reflexivity].
  rewrite (filter_cons _ y), IH, !(filter_cons _ x), (filter_cons _ y).
  destruct (decide (key x = k)); [|reflexivity].
  destruct (decide (key y = k)); [lia | reflexivity].
Qed.

Lemma sorted_reverse_filter (k : Z) (l : list A) :
  filter (λ a, key a = k) (sorted_reverse key l) = filter (λ a, key a = k) l.
Proof.
  induction l as [|x l IH]; [reflexivity|].
  change (sorted_reverse key (x :: l))
    with (insert_desc key x (sorted_reverse key l)).
  now rewrite insert_desc_filter, !(filter_cons _ x), IH.
Qed.

Lemma descending_app (l1 l2 : list A) :
  descending key (l1 ++ l2) →
  ∀ a b, a ∈ l1 → b ∈ l2 → key b <= key a.
Proof.
  unfold descending. induction l1 as [|x l1 IH]; intros H a b Ha Hb.
  - now apply elem_of_nil in Ha.
  - cbn [app] in H. apply StronglySorted_inv in H as [H F].
    apply elem_of_cons in Ha as [->|Ha]; [|now apply IH].
    rewrite Forall_forall in F. apply F, elem_of_app. now right.
Qed.

Lemma descending_map (l : list A) :
  descending key l → descending id (map key l).
Proof.
  unfold descending. induction 1 as [|x l H IH F]; [constructor|].
  cbn [map]. constructor; [exact IH|]. now apply Forall_map.
Qed.
End Stable.

(** A list of numbers has one descending arrangement. *)
Lemma descending_unique (l1 l2 : list Z) :
  descending id l1 → descending id l2 → Permutation l1 l2 → l1 = l2.
Proof.
  unfold descending, id. intros H1. revert l2.
  induction H1 as [|x l1 H1 IH F1]; intros l2 H2 P.
  - now apply Permutation_nil in P.
  - destruct H2 as [|y l2 H2 F2]; [now apply Permutation_sym, Permutation_nil in P|].
    assert (x = y) as <-.
    { rewrite Forall_forall in F1, F2.
      assert (Hy : In y (x :: l1))
        by (eapply Permutation_in; [symmetry; exact P | now left]).
      assert (Hx : In x (y :: l2))
        by (eapply Permutation_in; [exact P | now left]).
      destruct Hy as [Hy|Hy]; [congruence|]. destruct Hx as [Hx|Hx]; [congruence|].
      apply list_elem_of_In in Hy, Hx. apply F1 in Hy. apply F2 in Hx. lia. }
    f_equal. apply IH; [exact H2|]. now apply Permutation_cons_inv in P.
Qed.

Section Ordered.
Context {A : Type} (before : A → A → bool).

Lemma ordered_app (l1 l2 : list A) :
  ordered before (l1 ++ l2) →
  ∀ a b, a ∈ l1 → b ∈ l2 → before b a = false.
Proof.
  unfold ordered. induction l1 as [|x l1 IH]; intros H a b Ha Hb.
  - now apply elem_of_nil in Ha.
  - cbn [app] in H. apply StronglySorted_inv in H as [H F].
    apply elem_of_cons in Ha as [->|Ha]; [|now apply IH].
    rewrite Forall_forall in F. apply F, elem_of_app. now right.
Qed.
End Ordered.

(** Rows in the order of the query: scores descend, and rows of one score
    have time stamps that do not ascend. *)
Lemma ordered_scores (l : list AuthLogCollectorDB.event) :
  ordered AuthLogCollectorDB.risk_desc_time_desc l →
  descending AuthLogCollectorDB.risk_score l.
Proof.
  unfold ordered, descending. induction 1 as [|x l H IH F]; [constructor|].
  constructor; [exact IH|]. eapply Forall_impl; [exact F|].
  intros y Hy. cbn in Hy. unfold AuthLogCollectorDB.risk_desc_time_desc in Hy.
  apply orb_false_iff in Hy as [Hy _]. apply Z.ltb_ge in Hy. exact Hy.
Qed.

End ListingFacts.

Section Listing.
Import SortFacts ListingFacts.
Variable c : AuthLogCollector.collector.
Local Open Scope Z_scope.

(** X9. The listing of the console collector.  It shows
    [min 5 n] of the [n] events of score 5 or more, in descending order of
    score; no event left out has a higher score than an event shown; and
    among the events of one score the listing follows the order of
    collection, the first collected first: the events shown with a given
    score are the first ones of that score in the input. *)
Theorem display_summary_lists_highest_scores_in_input_order
    (logs : list AuthLogCollector.event) :
  let s := AuthLogCollector.display_summary c logs in
  let top := AuthLogCollector.top5 s in
  AuthLogCollector.total s = length logs
  ∧ length top = Nat.min 5 (AuthLogCollector.at_risk s)
  ∧ descending AuthLogCollector.risk_score top
  ∧ (∃ left_out,
       Permutation (filter (λ e, 5 <= AuthLogCollector.risk_score e) logs)
         (top ++ left_out)
       ∧ ∀ a b, a ∈ top → b ∈ left_out →
                AuthLogCollector.risk_score b <= AuthLogCollector.risk_score a)
  ∧ (∀ k, 5 <= k →
       filter (λ e, AuthLogCollector.risk_score e = k) top
       `prefix_of` filter (λ e, AuthLogCollector.risk_score e = k) logs).
Proof.
  intros s top. unfold top, s, AuthLogCollector.display_summary.
  cbn [AuthLogCollector.total AuthLogCollector.at_risk AuthLogCollector.top5].
  set (risk_events := filter (λ e, 5 <= AuthLogCollector.risk_score e) logs).
  set (sorted := sorted_reverse AuthLogCollector.risk_score risk_events).
  assert (Hlen : length sorted = length risk_events)
    by (apply Permutation_length, sorted_reverse_perm).
  split; [reflexivity|].
  split; [now rewrite length_take, Hlen|].
  split; [apply descending_take, sorted_reverse_descending|].
  split.
  - exists (drop 5 sorted). rewrite take_drop. split.
    + symmetry. apply sorted_reverse_perm.
    + apply descending_app. rewrite take_drop. apply sorted_reverse_descending.
  - intros k Hk.
    assert (E : filter (λ e, AuthLogCollector.risk_score e = k) logs
                = filter (λ e, AuthLogCollector.risk_score e = k) sorted).
    { unfold sorted. rewrite sorted_reverse_filter. unfold risk_events.
      rewrite list_filter_filter. apply list_filter_iff. intros e. lia. }
    rewrite E. exists (filter (λ e, AuthLogCollector.risk_score e = k) (drop 5 sorted)).
    now rewrite <- filter_app, take_drop.
Qed.

(** X10. The listing of the database-backed collector.  It shows
    [min 5 n] of the [n] rows of score 5 or more; scores descend, and of
    two rows with the same score the one shown first does not have the
    earlier time stamp; no row left out should have come before a row
    shown. *)
Theorem top_risks_lists_highest_scores_latest_first
    (table : list AuthLogCollectorDB.event) :
  let top := AuthLogCollectorDB.top_risks table in
  length top = Nat.min 5 (AuthLogCollectorDB.high_risk table)
  ∧ StronglySorted
      (λ a b, AuthLogCollectorDB.risk_score b <= AuthLogCollectorDB.risk_score a
              ∧ (AuthLogCollectorDB.risk_score b = AuthLogCollectorDB.risk_score a →
                 Datetime.ltb (AuthLogCollectorDB.timestamp a)
                   (AuthLogCollectorDB.timestamp b) = false)) top
  ∧ (∃ left_out,
       Permutation (filter (λ e, 5 <= AuthLogCollectorDB.risk_score e) table)
         (top ++ left_out)
       ∧ ∀ a b, a ∈ top → b ∈ left_out →
                AuthLogCollectorDB.risk_score b <= AuthLogCollectorDB.risk_score a
                ∧ (AuthLogCollectorDB.risk_score b = AuthLogCollectorDB.risk_score a →
                   Datetime.ltb (AuthLogCollectorDB.timestamp a)
                     (AuthLogCollectorDB.timestamp b) = false)).
Proof.
  intros top. unfold top, AuthLogCollectorDB.top_risks, AuthLogCollectorDB.high_risk.
  set (risk_events := filter (λ e, 5 <= AuthLogCollectorDB.risk_score e) table).
  set (sorted := AuthLogCollectorDB.order_by
                   AuthLogCollectorDB.risk_desc_time_desc risk_events).
  assert (Hperm : Permutation sorted risk_events) by apply order_by_perm.
  assert (Hord : ordered AuthLogCollectorDB.risk_desc_time_desc sorted).
  { apply order_by_ordered.
    - apply risk_desc_time_desc_asym.
    - apply risk_desc_time_desc_not_trans. }
  assert (Hrel : ∀ a b, AuthLogCollectorDB.risk_desc_time_desc b a = false →
            AuthLogCollectorDB.risk_score b <= AuthLogCollectorDB.risk_score a
            ∧ (AuthLogCollectorDB.risk_score b = AuthLogCollectorDB.risk_score a →
               Datetime.ltb (AuthLogCollectorDB.timestamp a)
                 (AuthLogCollectorDB.timestamp b) = false)).
  { intros a b H. unfold AuthLogCollectorDB.risk_desc_time_desc in H.
    apply orb_false_iff in H as [H1 H2]. apply Z.ltb_ge in H1.
    split; [exact H1|]. intros E. rewrite E, Z.eqb_refl in H2. exact H2. }
  split; [rewrite length_take; now rewrite (Permutation_length Hperm)|].
  split.
  - apply (ordered_take _ 5) in Hord. unfold ordered in Hord.
    induction Hord as [|x l H IH F]; constructor; [exact IH|].
    eapply Forall_impl; [exact F|]. intros y Hy. now apply Hrel.
  - exists (drop 5 sorted). rewrite take_drop. split; [now symmetry|].
    intros a b Ha Hb. apply Hrel.
    apply (ordered_app _ (take 5 sorted) (drop 5 sorted)); auto.
    now rewrite take_drop.
Qed.

(** Events of equal scores, one by one, leave events of equal scores at
    risk. *)
Lemma at_risk_scores (la : list AuthLogCollector.event) :
  ∀ lb : list AuthLogCollectorDB.event,
    map AuthLogCollector.risk_score la = map AuthLogCollectorDB.risk_score lb →
    map AuthLogCollector.risk_score
      (filter (λ e, 5 <= AuthLogCollector.risk_score e) la)
    = map AuthLogCollectorDB.risk_score
        (filter (λ e, 5 <= AuthLogCollectorDB.risk_score e) lb).
Proof.
  induction la as [|a la IH]; intros [|b lb] H; try discriminate; [reflexivity|].
  cbn [map] in H. injection H as Hab H. rewrite !filter_cons, Hab.
  destruct (decide (5 <= AuthLogCollectorDB.risk_score b)); cbn [map];
    rewrite ?Hab; now rewrite (IH lb H).
Qed.

Lemma top5_scores
    (logs : list AuthLogCollector.event) (table : list AuthLogCollectorDB.event) :
  map AuthLogCollector.risk_score logs = map AuthLogCollectorDB.risk_score table →
  map AuthLogCollector.risk_score
    (AuthLogCollector.top5 (AuthLogCollector.display_summary c logs))
  = map AuthLogCollectorDB.risk_score (AuthLogCollectorDB.top_risks table).
Proof.
  intros E. unfold AuthLogCollector.display_summary, AuthLogCollectorDB.top_risks.
  cbn [AuthLogCollector.top5].
  pose proof (at_risk_scores logs table E) as Ef.
  set (ra := filter (λ e, 5 <= AuthLogCollector.risk_score e) logs) in *.
  set (rb := filter (λ e, 5 <= AuthLogCollectorDB.risk_score e) table) in *.
  rewrite <- !firstn_map. f_equal. apply descending_unique.
  - apply descending_map, sorted_reverse_descending.
  - apply descending_map, ordered_scores, order_by_ordered.
    + apply risk_desc_time_desc_asym.
    + apply risk_desc_time_desc_not_trans.
  - rewrite (Permutation_map _ (sorted_reverse_perm _ ra)).
    rewrite (Permutation_map _ (order_by_perm _ rb)). now rewrite Ef.
Qed.

Lemma at_risk_count
    (logs : list AuthLogCollector.event) (table : list AuthLogCollectorDB.event) :
  map AuthLogCollector.risk_score logs = map AuthLogCollectorDB.risk_score table →
  AuthLogCollector.at_risk (AuthLogCollector.display_summary c logs)
  = AuthLogCollectorDB.high_risk table.
Proof.
  intros E. unfold AuthLogCollector.display_summary, AuthLogCollectorDB.high_risk.
  cbn [AuthLogCollector.at_risk].
  pose proof (at_risk_scores logs table E) as Ef.
  set (ra := filter (λ e, 5 <= AuthLogCollector.risk_score e) logs) in *.
  rewrite <- (length_map AuthLogCollector.risk_score ra), Ef. apply length_map.
Qed.

(** X11. On the same events the two listings show the same scores in the
    same order: they can differ only in which events of a tied score they
    show, and in the order of these. *)
Theorem listings_show_the_same_scores
    (logs : list AuthLogCollector.event) (table : list AuthLogCollectorDB.event) :
  map AuthLogCollector.risk_score logs = map AuthLogCollectorDB.risk_score table →
  map AuthLogCollector.risk_score
    (AuthLogCollector.top5 (AuthLogCollector.display_summary c logs))
  = map AuthLogCollectorDB.risk_score (AuthLogCollectorDB.top_risks table)
  ∧ AuthLogCollector.at_risk (AuthLogCollector.display_summary c logs)
    = AuthLogCollectorDB.high_risk table.
Proof.
  intros E. split; [now apply top5_scores | now apply at_risk_count].
Qed.
End Listing.

Lemma listings_show_the_same_scores_witness :
  ∃ logs table,
    Forall2 (λ line e,
               AuthLogCollector.parse_log_line (Sample.world_of 2026 None)
                 Sample.console line = Py.Ok (Some e)) Sample.ranked logs
    ∧ Forall2 (λ line row,
                 AuthLogCollectorDB.parse_log_line (Sample.world_of 2026 None)
                   Sample.db line = Py.Ok (Some row)) Sample.ranked table
    ∧ map AuthLogCollector.risk_score
        (AuthLogCollector.top5 (AuthLogCollector.display_summary Sample.console logs))
      = map AuthLogCollectorDB.risk_score (AuthLogCollectorDB.top_risks table).
Proof.
  assert (Ea : ∃ logs,
            Forall2 (λ line e,
                       AuthLogCollector.parse_log_line (Sample.world_of 2026 None)
                         Sample.console line = Py.Ok (Some e)) Sample.ranked logs
            ∧ map AuthLogCollector.risk_score logs = [9; 9; 7; 8; 9]%Z).
  { eexists. split.
    - unfold Sample.ranked.
      repeat (constructor; [vm_compute; reflexivity|]). constructor.
    - vm_compute. reflexivity. }
  assert (Eb : ∃ table,
            Forall2 (λ line row,
                       AuthLogCollectorDB.parse_log_line (Sample.world_of 2026 None)
                         Sample.db line = Py.Ok (Some row)) Sample.ranked table
            ∧ map AuthLogCollectorDB.risk_score table = [9; 9; 7; 8; 9]%Z).
  { eexists. split.
    - unfold Sample.ranked.
      repeat (constructor; [vm_compute; reflexivity|]). constructor.
    - vm_compute. reflexivity. }
  destruct Ea as (logs & Fa & Sa). destruct Eb as (table & Fb & Sb).
  exists logs, table. split; [exact Fa|]. split; [exact Fb|].
  apply (listings_show_the_same_scores Sample.console logs table).
  now rewrite Sa, Sb.
Defined.

(** ** The count of events by type *)

Module CountFacts.
Import SortFacts.
Local Open Scope Z_scope.

(** The count the dictionary holds for a key, 0 when the key is absent. *)
Fixpoint tally (event_type : string) (event_counts : list (string * Z)) : Z :=
  match event_counts with
  | [] => 0
  | (k, n) :: t => if String.eqb k event_type then n else tally event_type t
  end.

Definition keys (event_counts : list (string * Z)) : list string :=
  map fst event_counts.

Definition sum (event_counts : list (string * Z)) : Z :=
  foldr Z.add 0 (map snd event_counts).

Lemma count_up_tally (t t' : string) (acc : list (string * Z)) :
  tally t' (AuthLogCollector.count_up t acc)
  = tally t' acc + (if decide (t = t') then 1 else 0).
Proof.
  induction acc as [|[k n] acc IH]; cbn [AuthLogCollector.count_up tally].
  - destruct (String.eqb_spec t t'); destruct (decide (t = t')); congruence || lia.
  - destruct (String.eqb_spec k t) as [->|Hk]; cbn [tally].
    + destruct (String.eqb_spec t t'); destruct (decide (t = t'));
        congruence || lia.
    + destruct (String.eqb_spec k t'); [|exact IH].
      destruct (decide (t = t')); [congruence | lia].
Qed.

Lemma count_up_keys (t : string) (acc : list (string * Z)) :
  keys (AuthLogCollector.count_up t acc)
  = if decide (t ∈ keys acc) then keys acc else keys acc ++ [t].
Proof.
  unfold keys. induction acc as [|[k n] acc IH]; cbn [AuthLogCollector.count_up map fst].
  - destruct (decide (t ∈ [])) as [H|_]; [now apply elem_of_nil in H | reflexivity].
  - destruct (String.eqb_spec k t) as [->|Hk]; cbn [map fst].
    + rewrite decide_True; [reflexivity | apply list_elem_of_here].
    + rewrite IH. destruct (decide (t ∈ map fst acc)) as [Hin|Hin].
      * rewrite decide_True; [reflexivity | now apply list_elem_of_further].
      * rewrite decide_False; [reflexivity|].
        intros H. apply elem_of_cons in H as [->|H]; contradiction.
Qed.

Lemma count_up_sum (t : string) (acc : list (string * Z)) :
  sum (AuthLogCollector.count_up t acc) = sum acc + 1.
Proof.
  unfold sum. induction acc as [|[k n] acc IH];
    cbn [AuthLogCollector.count_up map snd foldr]; [lia|].
  destruct (String.eqb k t); cbn [map snd foldr]; lia.
Qed.

(** The dictionary is well formed: no key twice, every count positive. *)
Definition counted (acc : list (string * Z)) : Prop :=
  NoDup (keys acc) ∧ Forall (λ p, 0 < p.2) acc.

Lemma count_up_counted (t : string) (acc : list (string * Z)) :
  counted acc → counted (AuthLogCollector.count_up t acc).
Proof.
  intros [Hk Hp]. split.
  - rewrite count_up_keys. destruct (decide (t ∈ keys acc)); [exact Hk|].
    apply NoDup_app. split; [exact Hk|]. split; [|apply NoDup_singleton].
    intros x Hx Hx'. apply list_elem_of_singleton in Hx'. now subst.
  - clear Hk. induction Hp as [|[k n] acc Hn Hp IH];
      cbn [AuthLogCollector.count_up].
    + repeat constructor.
    + destruct (String.eqb k t); constructor; auto. cbn in *. lia.
Qed.

Lemma counted_elem (acc : list (string * Z)) (t : string) (n : Z) :
  counted acc → ((t, n) ∈ acc ↔ 0 < n ∧ tally t acc = n).
Proof.
  intros [Hk Hp]. induction acc as [|[k m] acc IH]; cbn [tally].
  - split; [intros H; now apply elem_of_nil in H | lia].
  - unfold keys in Hk. cbn [map fst] in Hk. apply NoDup_cons in Hk as [Hnk Hk].
    apply Forall_cons in Hp as [Hm Hp]. cbn in Hm.
    specialize (IH Hk Hp). rewrite elem_of_cons, IH.
    destruct (String.eqb_spec k t) as [->|Hkt].
    + split.
      * intros [[= -> ] | [Hn Ht]]; [auto|].
        exfalso. apply Hnk.
        assert (H : (t, n) ∈ acc) by (apply IH; auto).
        apply (list_elem_of_fmap_2 fst) in H. exact H.
      * intros [Hn <-]. now left.
    + split.
      * intros [[= ? ?] | H]; [congruence | exact H].
      * intros H. now right.
Qed.

Lemma sum_perm (l1 l2 : list (string * Z)) :
  Permutation l1 l2 → sum l1 = sum l2.
Proof.
  unfold sum. induction 1; cbn [map foldr]; lia.
Qed.

Section Loop.
Variable A : Type.
Variable key : A → string.

Definition counts (logs : list A) (acc : list (string * Z)) : list (string * Z) :=
  fold_left (λ acc log, AuthLogCollector.count_up (key log) acc) logs acc.

Lemma counts_spec (logs : list A) :
  ∀ acc, counted acc →
    counted (counts logs acc)
    ∧ (∀ t, tally t (counts logs acc)
            = tally t acc + Z.of_nat (length (filter (λ e, key e = t) logs)))
    ∧ sum (counts logs acc) = sum acc + Z.of_nat (length logs).
Proof.
  induction logs as [|x logs IH]; intros acc Hacc; cbn [counts fold_left].
  - split; [exact Hacc|]. split; [intros t; cbn; lia | cbn; lia].
  - destruct (IH (AuthLogCollector.count_up (key x) acc)
                (count_up_counted _ _ Hacc)) as (Hc & Ht & Hs).
    split; [exact Hc|]. split.
    + intros t. unfold counts in Ht. rewrite Ht, count_up_tally, filter_cons.
      destruct (decide (key x = t)); cbn [length]; lia.
    + unfold counts in Hs. rewrite Hs, count_up_sum. cbn [length]. lia.
Qed.
End Loop.

End CountFacts.

Section Counts.
Import SortFacts CountFacts.
Variable c : AuthLogCollector.collector.
Local Open Scope Z_scope.

(** X12. The count by type that [display_summary] prints: one line for
    each type that occurs among the events, with the number of events of
    that type, no type twice; the lines are in descending order of count,
    and the counts add up to the total number of events. *)
Theorem display_summary_counts_by_type (logs : list AuthLogCollector.event) :
  let by_type := AuthLogCollector.by_type (AuthLogCollector.display_summary c logs) in
  NoDup (map fst by_type)
  ∧ (∀ t n, (t, n) ∈ by_type
            ↔ 0 < n
              ∧ n = Z.of_nat (length (filter (λ e, AuthLogCollector.event_type e = t)
                                        logs)))
  ∧ descending snd by_type
  ∧ foldr Z.add 0 (map snd by_type) = Z.of_nat (length logs).
Proof.
  intros by_type. unfold by_type, AuthLogCollector.display_summary.
  cbn [AuthLogCollector.by_type].
  set (event_counts := fold_left _ logs []).
  destruct (counts_spec _ AuthLogCollector.event_type logs [])
    as (Hc & Ht & Hs); [split; constructor|].
  fold event_counts in Hc, Ht, Hs. unfold counts in Hc, Ht, Hs.
  fold event_counts in Hc, Ht, Hs.
  pose proof (sorted_reverse_perm snd event_counts) as Hperm.
  split; [|split; [|split]].
  - rewrite (Permutation_map fst Hperm). exact (proj1 Hc).
  - intros t n. rewrite Hperm, (counted_elem _ t n Hc), Ht. cbn [tally].
    split; intros [H1 H2]; split; auto; lia.
  - apply sorted_reverse_descending.
  - change (foldr Z.add 0 (map snd (sorted_reverse snd event_counts)))
      with (sum (sorted_reverse snd event_counts)).
    rewrite (sum_perm _ _ Hperm), Hs. reflexivity.
Qed.
End Counts.

(** ** The lines [read_logs] returns *)

Module SplitFacts.
Import Py PyFacts StripFacts PidFacts.

Lemma rev_cons (x : ascii) (s : string) :
  String.rev (String x s) = String.rev s +:+ String x "".
Proof.
  apply of_list_inj. rewrite UserFacts.to_list_app, !rev_chars. reflexivity.
Qed.

Lemma no_newline_rev (s : string) : no_newline s → no_newline (String.rev s).
Proof. unfold no_newline. rewrite rev_chars. apply Forall_rev. Qed.

Lemma unlines_cons (x : string) (l : list string) :
  l ≠ [] → Sample.unlines (x :: l) = x +:+ Sample.lf +:+ Sample.unlines l.
Proof. destruct l; [contradiction | reflexivity]. Qed.

(** [s.split('\n')]: at least one piece, no piece holds a line break, and
    the pieces joined by line breaks give the string back. *)
Lemma split_go_spec (s : string) :
  ∀ cur, no_newline cur →
    split_go cur s ≠ []
    ∧ Forall no_newline (split_go cur s)
    ∧ Sample.unlines (split_go cur s) = String.rev cur +:+ s.
Proof.
  induction s as [|x s IH]; intros cur Hcur; cbn [split_go].
  - split; [discriminate|]. split.
    + constructor; [now apply no_newline_rev | constructor].
    + cbn. now rewrite app_nil_r.
  - destruct (Ascii.eqb_spec x newline) as [->|Hx].
    + destruct (IH "") as (Hne & Hnl & Hj); [constructor|].
      split; [discriminate|]. split.
      * constructor; [now apply no_newline_rev | exact Hnl].
      * rewrite (unlines_cons _ _ Hne), Hj. reflexivity.
    + destruct (IH (String x cur)) as (Hne & Hnl & Hj).
      { unfold no_newline. cbn. constructor; [exact Hx | exact Hcur]. }
      split; [exact Hne|]. split; [exact Hnl|].
      rewrite Hj, rev_cons, app_assoc. reflexivity.
Qed.

Lemma split_lines_spec (s : string) :
  split_lines s ≠ []
  ∧ Forall no_newline (split_lines s)
  ∧ Sample.unlines (split_lines s) = s.
Proof. apply (split_go_spec s ""). constructor. Qed.

End SplitFacts.

Section ReadLogs.
Import Py StripFacts SplitFacts.
Variable w : world.
Variable c : AuthLogCollector.collector.
Variable d : AuthLogCollectorDB.collector.

End ReadLogs.


(* ===================================================================== *)
(** * [auth_collector_db.py]: storing the records                         *)
(* ===================================================================== *)

(** The session of SQLAlchemy on the table [logs] of [models.py], as
    [database.py] opens it ([autocommit=False], [autoflush=False]): the
    rows committed so far, the objects added since the last commit, and
    what the collector does not know of the database: its verdict on a
    batch of new rows (its column types, its constraints, the state of the
    connection), and the order in which it returns the groups of a
    [GROUP BY], which SQL leaves to it. *)
Module Session.

Record session := MkSession {
  rows : list AuthLogCollectorDB.event;
  pending : list AuthLogCollectorDB.event;
  accepts : list AuthLogCollectorDB.event → bool;
  group_rank : string → Z
      (* the groups of a query come by ascending rank of their key *)
}.

(** [db.add(log)] *)
Definition add (log : AuthLogCollectorDB.event) (db : session) : session :=
  {| rows := rows db; pending := pending db ++ [log]; accepts := accepts db;
     group_rank := group_rank db |}.

(** [db.commit()]: [None] when it raises. *)
Definition commit (db : session) : option session :=
  if accepts db (pending db)
  then Some {| rows := rows db ++ pending db; pending := [];
               accepts := accepts db; group_rank := group_rank db |}
  else None.

(** [db.rollback()] *)
Definition rollback (db : session) : session :=
  {| rows := rows db; pending := []; accepts := accepts db;
     group_rank := group_rank db |}.

End Session.

Module Storage.
Import Py Session.

(** The loop of [collect_and_save] over [raw_logs]. *)
Fixpoint collect_loop (w : world) (self : AuthLogCollectorDB.collector)
    (raw_logs : list string) (parsed_logs : list AuthLogCollectorDB.event)
  : result (list AuthLogCollectorDB.event) :=
  match raw_logs with
  | [] => Ok parsed_logs
  | log_line :: raw_logs' =>
      if truthy (strip log_line) then
        parsed ← AuthLogCollectorDB.parse_log_line w self log_line;
        match parsed with
        | Some e => collect_loop w self raw_logs' (parsed_logs ++ [e])
        | None => collect_loop w self raw_logs' parsed_logs
        end
      else collect_loop w self raw_logs' parsed_logs
  end.

(** The first loop of [save_to_database].  The row [Log] builds from a
    dictionary of [parse_log_line] has the columns of the dictionary, and
    neither the constructor nor [db.add] raises on it, so the handler of
    the loop is never entered. *)
Fixpoint save_loop (logs : list AuthLogCollectorDB.event) (db : session)
    (saved_count : Z) : session * Z :=
  match logs with
  | [] => (db, saved_count)
  | log_data :: logs' => save_loop logs' (add log_data db) (saved_count + 1)%Z
  end.

Definition save_to_database (self : AuthLogCollectorDB.collector)
    (logs : list AuthLogCollectorDB.event) (db : session) : session * Z :=
  let '(db, saved_count) := save_loop logs db 0%Z in
  match commit db with
  | Some db' => (db', saved_count)
  | None => (rollback db, 0%Z)
  end.

(** What [display_stats] prints. *)
Record stats := MkStats {
  total : nat;                            (* Total de logs en base *)
  event_counts : list (string * Z);       (* Repartition par type *)
  high_risk : nat;                        (* Evenements a risque *)
  top_risks : list AuthLogCollectorDB.event   (* TOP 5 EVENEMENTS A RISQUE *)
}.

(** The order the database gives to the groups of a query. *)
Definition rank_asc (db : session) (a b : string * Z) : bool :=
  (group_rank db (fst a) <? group_rank db (fst b))%Z.

(** [GROUP BY event_type] with [count(id)]: one pair for each type that
    occurs among the committed rows, in the order of the database. *)
Definition group_by_event_type (db : session) : list (string * Z) :=
  AuthLogCollectorDB.order_by (rank_asc db)
    (fold_left (fun acc log =>
                  AuthLogCollector.count_up (AuthLogCollectorDB.event_type log)
                    acc)
       (rows db) []).

(** [func.count(Log.id).desc()] *)
Definition count_desc (a b : string * Z) : bool := (snd b <? snd a)%Z.

(** The queries see the committed rows.  Groups of equal count come in
    the order of the database. *)
Definition display_stats (self : AuthLogCollectorDB.collector) (db : session)
  : stats :=
  {| total := length (rows db);
     event_counts :=
       AuthLogCollectorDB.order_by count_desc (group_by_event_type db);
     high_risk := AuthLogCollectorDB.high_risk (rows db);
     top_risks := AuthLogCollectorDB.top_risks (rows db) |}.

(** [collect_and_save], on the session [SessionLocal()] returns.  The
    result is the session as it is closed and what was printed. *)
Definition collect_and_save (w : world) (self : AuthLogCollectorDB.collector)
    (lines : Z) (db : session) : result (session * stats) :=
  raw_logs ← AuthLogCollectorDB.read_logs w self lines;
  parsed_logs ← collect_loop w self raw_logs [];
  let '(db, saved) := save_to_database self parsed_logs db in
  mret (db, display_stats self db).

End Storage.

Section Saving.
Import Py Session Storage.
Variable d : AuthLogCollectorDB.collector.

Lemma save_loop_spec (logs : list AuthLogCollectorDB.event) :
  ∀ db n,
    save_loop logs db n
    = ({| rows := rows db; pending := pending db ++ logs; accepts := accepts db;
          group_rank := group_rank db |},
       (n + Z.of_nat (length logs))%Z).
Proof.
  induction logs as [|x logs IH]; intros db n; cbn [save_loop length].
  - rewrite List.app_nil_r, Z.add_0_r. now destruct db.
  - rewrite IH. unfold add. cbn [rows pending accepts group_rank].
    rewrite <- List.app_assoc. f_equal. lia.
Qed.

(** The session and the count [save_to_database] returns. *)
Lemma save_to_database_spec
    (logs : list AuthLogCollectorDB.event) (db : session) :
  let batch := pending db ++ logs in
  let '(db', saved_count) := save_to_database d logs db in
  pending db' = []
  ∧ accepts db' = accepts db
  ∧ group_rank db' = group_rank db
  ∧ (0 <= saved_count)%Z
  ∧ (if accepts db batch
     then rows db' = rows db ++ batch ∧ saved_count = Z.of_nat (length logs)
     else rows db' = rows db ∧ saved_count = 0%Z).
Proof.
  intros batch. unfold save_to_database. rewrite save_loop_spec.
  unfold commit, rollback. cbn [rows pending accepts]. fold batch.
  destruct (accepts db batch); cbn [rows pending accepts group_rank];
    repeat split; lia.
Qed.

(** X14. [save_to_database] stores all the records or none.  When the
    database accepts the batch, every record is a new row, in the order
    of the list, and the count returned is the length of the list; when
    the commit fails, the table is as before and the count is 0.  No
    record is ever skipped alone: the handler inside the loop is never
    entered, and one row the database rejects costs the whole batch. *)
Theorem save_to_database_all_or_nothing
    (logs : list AuthLogCollectorDB.event) (db : session) :
  let '(db', saved_count) := save_to_database d logs db in
  pending db' = []
  ∧ accepts db' = accepts db
  ∧ (0 <= saved_count)%Z
  ∧ (if accepts db (pending db ++ logs)
     then rows db' = rows db ++ pending db ++ logs
          ∧ saved_count = Z.of_nat (length logs)
     else rows db' = rows db ∧ saved_count = 0%Z).
Proof.
  pose proof (save_to_database_spec logs db) as H. cbn zeta in H.
  destruct (save_to_database d logs db) as [db' saved_count]. tauto.
Qed.
End Saving.

(** ** The statistics of the table and the whole run *)

Module StatsFacts.
Import SortFacts CountFacts ListingFacts.
Local Open Scope Z_scope.

Lemma count_desc_asym (a b : string * Z) :
  Storage.count_desc a b = true → Storage.count_desc b a = false.
Proof.
  unfold Storage.count_desc. intros H. apply Z.ltb_lt in H. apply Z.ltb_ge. lia.
Qed.

Lemma count_desc_not_trans (a b c : string * Z) :
  Storage.count_desc b a = false → Storage.count_desc c b = false →
  Storage.count_desc c a = false.
Proof.
  unfold Storage.count_desc. intros H1 H2.
  apply Z.ltb_ge in H1, H2. apply Z.ltb_ge. lia.
Qed.

Lemma rank_asc_asym (db : Session.session) (a b : string * Z) :
  Storage.rank_asc db a b = true → Storage.rank_asc db b a = false.
Proof.
  unfold Storage.rank_asc. intros H. apply Z.ltb_lt in H. apply Z.ltb_ge. lia.
Qed.

(** Whatever the order of the database, the groups are those of the
    counting loop over the committed rows. *)
Lemma group_by_event_type_perm (db : Session.session) :
  Permutation (Storage.group_by_event_type db)
    (counts _ AuthLogCollectorDB.event_type (Session.rows db) []).
Proof. unfold Storage.group_by_event_type. apply order_by_perm. Qed.

Lemma ordered_counts (l : list (string * Z)) :
  ordered Storage.count_desc l → descending snd l.
Proof.
  unfold ordered, descending. induction 1 as [|x l H IH F]; [constructor|].
  constructor; [exact IH|]. eapply Forall_impl; [exact F|].
  intros y Hy. cbn in Hy. unfold Storage.count_desc in Hy.
  apply Z.ltb_ge in Hy. exact Hy.
Qed.


End StatsFacts.

Section Stats.
Import Py SortFacts CountFacts ListingFacts StatsFacts Session Storage.
Variable d : AuthLogCollectorDB.collector.
Local Open Scope Z_scope.

(** X15. The statistics [display_stats] prints are those of the committed
    rows: the total is their number; the count by type has one line for
    each type that occurs, with the number of rows of that type, in
    descending order of count, and the counts add up to the total; the
    number of rows at risk and the listing are those of the queries on
    the rows. *)
Theorem display_stats_counts_the_committed_rows (db : session) :
  let st := display_stats d db in
  total st = length (rows db)
  ∧ NoDup (map fst (event_counts st))
  ∧ (∀ t n, (t, n) ∈ event_counts st
            ↔ 0 < n
              ∧ n = Z.of_nat (length (filter (λ e, AuthLogCollectorDB.event_type e = t)
                                        (rows db))))
  ∧ descending snd (event_counts st)
  ∧ foldr Z.add 0 (map snd (event_counts st)) = Z.of_nat (total st)
  ∧ high_risk st
    = length (filter (λ e, 5 <= AuthLogCollectorDB.risk_score e) (rows db))
  ∧ (high_risk st <= total st)%nat
  ∧ top_risks st = AuthLogCollectorDB.top_risks (rows db).
Proof.
  intros st. unfold st, display_stats.
  cbn [total event_counts high_risk top_risks].
  set (groups := counts _ AuthLogCollectorDB.event_type (rows db) []).
  destruct (counts_spec _ AuthLogCollectorDB.event_type (rows db) [])
    as (Hc & Ht & Hs); [split; constructor|].
  fold groups in Hc, Ht, Hs.
  assert (Hperm : Permutation
            (AuthLogCollectorDB.order_by count_desc (group_by_event_type db))
            groups).
  { rewrite order_by_perm. apply group_by_event_type_perm. }
  split; [reflexivity|].
  split; [rewrite (Permutation_map fst Hperm); exact (proj1 Hc)|].
  split.
  { intros t n. rewrite Hperm, (counted_elem _ t n Hc), Ht. cbn [tally].
    split; intros [H1 H2]; split; auto; lia. }
  split.
  { apply ordered_counts, order_by_ordered.
    - apply count_desc_asym.
    - apply count_desc_not_trans. }
  split.
  { change (foldr Z.add 0
              (map snd (AuthLogCollectorDB.order_by count_desc
                          (group_by_event_type db))))
      with (sum (AuthLogCollectorDB.order_by count_desc (group_by_event_type db))).
    rewrite (sum_perm _ _ Hperm), Hs. reflexivity. }
  split; [reflexivity|]. split; [|reflexivity].
  unfold AuthLogCollectorDB.high_risk. apply length_filter.
Qed.
End Stats.

(** Two types with one row each: the order of their counts is the order
    of the database. *)
Lemma event_counts_tie_order :
  ∃ table,
    Forall2 (λ line row,
               AuthLogCollectorDB.parse_log_line (Sample.world_of 2026 None)
                 Sample.db line = Py.Ok (Some row))
      [ "Jan 21 10:00:03 myhost sshd[3]: authentication failure; tty=ssh";
        "Jan 21 10:00:04 myhost sshd[4]: Invalid user bob from 10.0.0.9" ]
      table
    ∧ Storage.event_counts
        (Storage.display_stats Sample.db
           (Session.MkSession table [] (λ _, true) (λ _, 0%Z)))
      = [("AUTH_FAILURE", 1%Z); ("INVALID_USER", 1%Z)]
    ∧ Storage.event_counts
        (Storage.display_stats Sample.db
           (Session.MkSession table [] (λ _, true)
              (λ t, if String.eqb t "INVALID_USER" then 0%Z else 1%Z)))
      = [("INVALID_USER", 1%Z); ("AUTH_FAILURE", 1%Z)].
Proof.
  eexists. split.
  - repeat (constructor; [vm_compute; reflexivity|]). constructor.
  - split; vm_compute; reflexivity.
Qed.

Section Run.
Import Py SortFacts CountFacts ListingFacts StatsFacts Session Storage.
Variable w : world.
Variable c : AuthLogCollector.collector.
Variable d : AuthLogCollectorDB.collector.
Local Open Scope Z_scope.


(** The process id of the record has more digits than [int] converts. *)
Definition long_pid (a : AuthLogCollector.event) : Prop :=
  ∃ p, AuthLogCollector.pid a = Some p
       ∧ exceeds (int_max_str_digits w) (String.length p) = true.




End Run.

(** An empty table in a database that takes every batch. *)
Definition fresh : Session.session :=
  Session.MkSession [] [] (λ _, true) (λ _, 0%Z).


(** When the subprocess prints the line with the process id of 4301
    digits, [collect] returns its record and [collect_and_save] raises. *)
Lemma collect_and_save_raises_on_long_pid :
  (∃ a, AuthLogCollector.collect (Sample.world_of 2026 (Some Sample.long_pid))
          Sample.console 100 = Py.Ok [a])
  ∧ Storage.collect_and_save (Sample.world_of 2026 (Some Sample.long_pid))
      Sample.db 100 fresh = Py.Raise Py.ValueError.
Proof.
  split; [eexists|]; vm_compute; reflexivity.
Qed.

(** ** From the output of the subprocess to the records *)

Section Whole.
Import Py PyFacts StripFacts SplitFacts FieldFacts.
Variable w : world.
Variable c : AuthLogCollector.collector.

Lemma read_logs_no_newline (lines : Z) (raw_logs : list string) :
  AuthLogCollector.read_logs w c lines = Ok raw_logs →
  Forall no_newline raw_logs.
Proof.
  unfold AuthLogCollector.read_logs.
  destruct (str_int _ lines); [|discriminate]. cbn [mbind result_bind].
  destruct (sudo_tail w lines (AuthLogCollector.log_path c)) as [stdout|];
    intros [= <-]; [|constructor].
  exact (proj1 (proj2 (split_lines_spec (strip stdout)))).
Qed.

(** X17. Every record [collect] returns stands for one line of the output
    of the subprocess: its raw line is one of the lines [read_logs]
    returned, holds no line break, and ends with the message of the
    record, so that nothing of the line after the colon is lost. *)
Theorem collected_message_is_the_end_of_its_line
    (lines : Z) (logs : list AuthLogCollector.event) :
  AuthLogCollector.collect w c lines = Ok logs →
  ∃ raw_logs,
    AuthLogCollector.read_logs w c lines = Ok raw_logs
    ∧ Forall (λ e,
                AuthLogCollector.raw_log e ∈ raw_logs
                ∧ no_newline (AuthLogCollector.raw_log e)
                ∧ ∃ pre, AuthLogCollector.raw_log e
                         = pre +:+ AuthLogCollector.message e) logs.
Proof.
  unfold AuthLogCollector.collect. intros H.
  destruct (AuthLogCollector.read_logs w c lines) as [raw_logs|] eqn:Er;
    [|discriminate].
  cbn [mbind result_bind] in H. exists raw_logs. split; [reflexivity|].
  pose proof (collect_loop_outcome w c raw_logs []) as Hout.
  rewrite H in Hout. destruct Hout as (events & -> & F & _). cbn [app].
  pose proof (read_logs_no_newline lines raw_logs Er) as Hnl.
  assert (Hsub : ∀ line, line ∈ filter well_formed raw_logs →
                         line ∈ raw_logs ∧ no_newline line).
  { intros line Hl. apply list_elem_of_filter in Hl as [_ Hl].
    split; [exact Hl|]. rewrite Forall_forall in Hnl. now apply Hnl. }
  clear H Hnl. induction F as [|line e ls es He _ IH]; [constructor|].
  constructor.
  - destruct (Hsub line) as [Hin Hn]; [apply list_elem_of_here|].
    apply parse_log_line_Some in He as (m & dt & Hm & _ & ->).
    unfold console_event.
    cbn [AuthLogCollector.raw_log AuthLogCollector.message].
    split; [exact Hin|]. split; [exact Hn|].
    apply re_match_pattern_fields in Hm
      as (ts & s1 & host & s2 & proc & pid & s3 & msg & post & E & _ & _ & _
          & _ & G5 & _ & _ & _ & _ & _ & _ & _ & _ & Hpost).
    rewrite G5. cbn [default from_option].
    assert (post = "") as ->.
    { destruct Hpost as [-> | [t ->]]; [reflexivity|].
      rewrite E in Hn. repeat (apply no_newline_app in Hn as [_ Hn]).
      unfold no_newline in Hn. simpl in Hn. inversion Hn. congruence. }
    exists (ts +:+ s1 +:+ host +:+ s2 +:+ proc +:+ pid_text pid +:+ ":" +:+ s3).
    rewrite E, app_nil_r, !app_assoc. reflexivity.
  - apply IH. intros l Hl. apply Hsub. now apply list_elem_of_further.
Qed.
End Whole.

Lemma collected_message_is_the_end_of_its_line_witness :
  ∃ logs,
    AuthLogCollector.collect
      (Sample.world_of 2026 (Some (Sample.unlines Sample.ranked)))
      Sample.console 100 = Py.Ok logs
    ∧ length logs = 5%nat
    ∧ Forall (λ e, ∃ pre, AuthLogCollector.raw_log e
                          = pre +:+ AuthLogCollector.message e) logs.
Proof.
  assert (E : ∃ logs,
            AuthLogCollector.collect
              (Sample.world_of 2026 (Some (Sample.unlines Sample.ranked)))
              Sample.console 100 = Py.Ok logs
            ∧ length logs = 5%nat)
    by (eexists; split; vm_compute; reflexivity).
  destruct E as (logs & E & Hl). exists logs.
  split; [exact E|]. split; [exact Hl|].
  destruct (collected_message_is_the_end_of_its_line
              (Sample.world_of 2026 (Some (Sample.unlines Sample.ranked)))
              Sample.console 100 logs E) as (raw_logs & _ & F).
  eapply Forall_impl; [exact F|].
  intros e (_ & _ & H). exact H.
Defined.

(** ** The ISO form of a time stamp *)

Module IsoFacts.
Import Py PyFacts YearFacts StampFacts.
Local Open Scope Z_scope.

(** Two decimal digits. *)
Definition two (z : Z) : string :=
  String (digit_char (z / 10)) (String (digit_char (z mod 10)) "").

Lemma zero_pad_two (z : Z) : 0 <= z <= 99 → zero_pad 2 z = two z.
Proof.
  intros Hz. unfold zero_pad, str_of_int, two.
  destruct (Z.ltb_spec z 0); [lia|].
  destruct (Z.ltb_spec z 10) as [Hlt|Hge].
  - assert (E : digits (Z.to_nat z) z "" = String (digit_char (z mod 10)) "").
    { destruct (Z.to_nat z); cbn [digits]; [reflexivity|].
      destruct (Z.ltb_spec z 10); [reflexivity | lia]. }
    rewrite E.
    replace (z / 10) with 0 by (Z.div_mod_to_equations; lia). reflexivity.
  - destruct (Z.to_nat z) as [|[|n]] eqn:E; try lia.
    cbn [digits].
    destruct (Z.ltb_spec z 10); [lia|].
    destruct (Z.ltb_spec (z / 10) 10); [|Z.div_mod_to_equations; lia].
    replace (z / 10 mod 10) with (z / 10) by (Z.div_mod_to_equations; lia).
    reflexivity.
Qed.

Lemma zero_pad_year (y : Z) : 1000 <= y <= 9999 → zero_pad 4 y = str_of_int y.
Proof.
  intros Hy. unfold zero_pad.
  destruct (str_of_int_year y Hy) as (a & b & c & e & _ & _ & _ & _ & _ & ->).
  reflexivity.
Qed.

Lemma days_in_month_le (y m : Z) : Datetime.days_in_month y m <= 31.
Proof.
  unfold Datetime.days_in_month.
  destruct (m =? 2); [destruct (Datetime.is_leap y); lia|].
  destruct (_ || _)%bool; lia.
Qed.

(** The ISO form of a date and time that exists, in a year of four
    digits: "YYYY-MM-DDTHH:MM:SS". *)
Lemma isoformat_valid (dt : Datetime.datetime) :
  valid dt → 1000 <= Datetime.year dt →
  Datetime.isoformat dt
  = str_of_int (Datetime.year dt) +:+ "-" +:+ two (Datetime.month dt) +:+ "-"
    +:+ two (Datetime.day dt) +:+ "T" +:+ two (Datetime.hour dt) +:+ ":"
    +:+ two (Datetime.minute dt) +:+ ":" +:+ two (Datetime.second dt).
Proof.
  intros (Hy & Hmo & Hd & Hh & Hmi & Hs) Hy'.
  pose proof (days_in_month_le (Datetime.year dt) (Datetime.month dt)).
  unfold Datetime.isoformat.
  rewrite zero_pad_year by lia. rewrite !zero_pad_two by lia. reflexivity.
Qed.

End IsoFacts.

Section Iso.
Import Py PyFacts YearFacts StampFacts IsoFacts.
Variable w : world.
Variable c : AuthLogCollector.collector.
Variable d : AuthLogCollectorDB.collector.
Hypothesis year_ok : (1000 <= Datetime.year (now w) <= 9999)%Z.

(** X18. The time stamp of a console record has the fixed form
    "YYYY-MM-DDTHH:MM:SS" of 19 characters: the four digits of the year
    the clock reads, then month, day, hour, minute and second of the
    record the database-backed collector builds from the same line, two
    digits each. *)
Theorem console_timestamp_is_iso_of_fixed_width
    (line : string) (a : AuthLogCollector.event) (b : AuthLogCollectorDB.event) :
  AuthLogCollector.parse_log_line w c line = Ok (Some a) →
  AuthLogCollectorDB.parse_log_line w d line = Ok (Some b) →
  let dt := AuthLogCollectorDB.timestamp b in
  AuthLogCollector.timestamp a
  = str_of_int (Datetime.year (now w)) +:+ "-" +:+ two (Datetime.month dt)
    +:+ "-" +:+ two (Datetime.day dt) +:+ "T" +:+ two (Datetime.hour dt)
    +:+ ":" +:+ two (Datetime.minute dt) +:+ ":" +:+ two (Datetime.second dt)
  ∧ String.length (AuthLogCollector.timestamp a) = 19%nat.
Proof.
  intros Ha Hb dt. unfold dt.
  apply parse_log_line_Some in Ha as (m & dt1 & Hm & Hdt & ->).
  apply parse_log_line_db_Some in Hb as (m' & dt2 & pid & Hm' & Hdt' & _ & ->).
  assert (m' = m) as -> by congruence.
  assert (dt2 = dt1) as -> by congruence.
  unfold console_event, db_event.
  cbn [AuthLogCollector.timestamp AuthLogCollectorDB.timestamp].
  pose proof (strptime_valid _ _ Hdt) as Hv.
  pose proof (strptime_year _ _ _ year_ok Hdt) as Hy.
  assert (E : Datetime.isoformat dt1
              = str_of_int (Datetime.year (now w)) +:+ "-"
                +:+ two (Datetime.month dt1) +:+ "-" +:+ two (Datetime.day dt1)
                +:+ "T" +:+ two (Datetime.hour dt1) +:+ ":"
                +:+ two (Datetime.minute dt1) +:+ ":"
                +:+ two (Datetime.second dt1)).
  { rewrite <- Hy. apply isoformat_valid; [exact Hv | lia]. }
  split; [exact E|]. rewrite E.
  destruct (str_of_int_year _ year_ok) as (x1 & x2 & x3 & x4 & _ & _ & _ & _ & _ & ->).
  reflexivity.
Qed.
End Iso.

Lemma console_timestamp_is_iso_of_fixed_width_witness :
  (1000 <= 2026 <= 9999)%Z
  ∧ ∃ a b,
      AuthLogCollector.parse_log_line (Sample.world_of 2026 None) Sample.console
        Sample.failed_password = Py.Ok (Some a)
      ∧ AuthLogCollectorDB.parse_log_line (Sample.world_of 2026 None) Sample.db
          Sample.failed_password = Py.Ok (Some b)
      ∧ AuthLogCollector.timestamp a = "2026-01-21T22:04:35"
      ∧ String.length (AuthLogCollector.timestamp a) = 19%nat.
Proof.
  assert (Hy : (1000 <= Datetime.year (now (Sample.world_of 2026 None)) <= 9999)%Z)
    by (cbn; lia).
  split; [lia|].
  assert (Ea : ∃ a, AuthLogCollector.parse_log_line (Sample.world_of 2026 None)
                      Sample.console Sample.failed_password = Py.Ok (Some a)
                    ∧ AuthLogCollector.timestamp a = "2026-01-21T22:04:35")
    by (eexists; split; vm_compute; reflexivity).
  assert (Eb : ∃ b, AuthLogCollectorDB.parse_log_line (Sample.world_of 2026 None)
                      Sample.db Sample.failed_password = Py.Ok (Some b))
    by (eexists; vm_compute; reflexivity).
  destruct Ea as (a & Ea & Ht). destruct Eb as (b & Eb). exists a, b.
  split; [exact Ea|]. split; [exact Eb|]. split; [exact Ht|].
  exact (proj2 (console_timestamp_is_iso_of_fixed_width
                  (Sample.world_of 2026 None) Sample.console Sample.db Hy
                  Sample.failed_password a b Ea Eb)).
Defined.

(* ===================================================================== *)
(** * The clock and the per-line transform                                *)
(* ===================================================================== *)

(** ** The matcher from two starts

    Two runs of the matcher over the same text, one from a start with some
    groups already closed and the other from a start with other groups
    closed, take the same decisions. *)

Module SimFacts.
Import Re ReFacts.
Local Open Scope nat_scope.

Section Sim.
Variables base base' : list (nat * list ascii).

(** The two states are at the same position, have the same kind of
    character before it, and have closed the same groups since the start. *)
Definition sim (st st' : mstate) : Prop :=
  rest st = rest st'
  ∧ word_at (prev st) = word_at (prev st')
  ∧ ∃ new, caps st = new ++ base ∧ caps st' = new ++ base'.

(** Both fail, or both succeed with related results. *)
Definition both {A B} (R : A → B → Prop) (x : option A) (y : option B) : Prop :=
  match x, y with
  | Some a, Some b => R a b
  | None, None => True
  | _, _ => False
  end.

Lemma both_orelse {A B} (R : A → B → Prop) (x y : option A) (x' y' : option B) :
  both R x x' → both R y y' →
  both R (match x with Some v => Some v | None => y end)
         (match x' with Some v => Some v | None => y' end).
Proof. destruct x, x'; simpl; tauto. Qed.

Lemma rep_sim {A B} (R : A → B → Prop)
    (body : mstate → @kont A → option A) (body' : mstate → @kont B → option B)
    (g : bool) (lo : nat) (hi : option nat) :
  (∀ st st' k k', sim st st' →
     (∀ s s', sim s s' → both R (k s) (k' s')) →
     both R (body st k) (body' st' k')) →
  ∀ fuel n st st' k k', sim st st' →
    (∀ s s', sim s s' → both R (k s) (k' s')) →
    both R (rep body g lo hi fuel n st k) (rep body' g lo hi fuel n st' k').
Proof.
  intros Hbody. induction fuel as [|fuel IH]; intros n st st' k k' Hs Hk;
    cbn [rep].
  - destruct (lo <=? n); [now apply Hk | exact I].
  - assert (Hstop : both R (if lo <=? n then k st else None)
                           (if lo <=? n then k' st' else None))
      by (destruct (lo <=? n); [now apply Hk | exact I]).
    assert (Hmore : both R
              (if below n hi
               then body st (λ s, if progress st s
                                  then rep body g lo hi fuel (S n) s k else None)
               else None)
              (if below n hi
               then body' st' (λ s, if progress st' s
                                    then rep body' g lo hi fuel (S n) s k'
                                    else None)
               else None)).
    { destruct (below n hi); [|exact I]. apply Hbody; [exact Hs|].
      intros s s' Hss. unfold progress.
      rewrite (proj1 Hs), (proj1 Hss).
      destruct (_ <? _); [now apply IH | exact I]. }
    destruct g; now apply both_orelse.
Qed.

Lemma exec_sim {A B} (R : A → B → Prop) (r : regex) :
  ∀ st st' (k : @kont A) (k' : @kont B),
    sim st st' →
    (∀ s s', sim s s' → both R (k s) (k' s')) →
    both R (exec r st k) (exec r st' k').
Proof.
  induction r as [|p|a IHa b IHb|a IHa b IHb|g lo hi r IH|i r IH|];
    intros st st' k k' Hs Hk; cbn [exec].
  - now apply Hk.
  - destruct Hs as (Er & Hw & new & E1 & E2). rewrite <- Er.
    destruct (rest st) as [|x t]; [exact I|].
    destruct (p x); [|exact I]. apply Hk.
    split; [reflexivity|]. split; [reflexivity|]. now exists new.
  - apply IHa; [exact Hs|]. intros s s' Hss. now apply IHb.
  - apply both_orelse; [now apply IHa | now apply IHb].
  - rewrite <- (proj1 Hs). now apply (rep_sim R _ _ g lo hi IH).
  - apply IH; [exact Hs|]. intros s s' Hss. apply Hk.
    destruct Hs as (Er & _). destruct Hss as (Er' & Hw' & new & E1 & E2).
    unfold close, consumed. cbn [rest prev caps]. rewrite Er, Er'.
    split; [reflexivity|]. split; [exact Hw'|].
    exists ((i, take (length (rest st') - length (rest s')) (rest st')) :: new).
    now rewrite E1, E2.
  - destruct Hs as (Er & Hw & new & E1 & E2). unfold at_boundary.
    rewrite Hw, Er. destruct (xorb _ _); [|exact I]. apply Hk.
    split; [exact Er|]. split; [exact Hw|]. now exists new.
Qed.
End Sim.

End SimFacts.

(** ** [strptime] in two years *)

Module ClockFacts.
Import Py Re ReFacts YearFacts StampFacts SimFacts.
Local Open Scope Z_scope.

(** Month, day, hour, minute and second as [strptime] reads them in the
    text that follows a year of four digits; [None] where [strptime]
    raises whatever the year.  The year 2000 stands for any year. *)
Definition stamp_fields (text : string) : option (Z * Z * Z * Z * Z) :=
  match re_match Datetime.format_regex ("2000" +:+ text) with
  | None => None
  | Some found =>
      if negb (String.length ("2000" +:+ text) =? String.length (whole found))%nat
      then None
      else
        match Datetime.index_of (lower (default "" (group found 2)))
                Datetime.a_month with
        | None => None
        | Some i =>
            Some (Z.of_nat (S i), Datetime.field found 3, Datetime.field found 4,
                  Datetime.field found 5, Datetime.field found 6)
        end
  end.

(** The date and time of these fields in the year [y]. *)
Definition dated (y : Z) (fields : option (Z * Z * Z * Z * Z))
  : result Datetime.datetime :=
  match fields with
  | Some (mo, d, h, mi, s) => Datetime.make y mo d h mi s
  | None => Raise ValueError
  end.

Lemma assoc_base {B} (i j : nat) (new : list (nat * B)) (x x' : B) :
  i ≠ j → assoc i (new ++ [(j, x)]) = assoc i (new ++ [(j, x')]).
Proof.
  intros Hij. induction new as [|[k b] new IH]; cbn [app assoc].
  - destruct (Nat.eqb_spec i j); [contradiction | reflexivity].
  - destruct (i =? k)%nat; [reflexivity | exact IH].
Qed.

(** After two years of four digits, the expression of [strptime] matches
    the same text in the same way. *)
Lemma re_match_any_year (d1 d2 d3 d4 e1 e2 e3 e4 : ascii) (text : string) :
  isdecimal d1 = true → isdecimal d2 = true →
  isdecimal d3 = true → isdecimal d4 = true →
  isdecimal e1 = true → isdecimal e2 = true →
  isdecimal e3 = true → isdecimal e4 = true →
  both (λ f f', String.length (whole f) = String.length (whole f')
                ∧ ∀ i, i ≠ 1%nat → group f i = group f' i)
    (re_match Datetime.format_regex (yyyy d1 d2 d3 d4 text))
    (re_match Datetime.format_regex (yyyy e1 e2 e3 e4 text)).
Proof.
  intros D1 D2 D3 D4 E1 E2 E3 E4. unfold re_match, match_at, yyyy.
  cbn [list_ascii_of_string].
  rewrite (exec_year _ _ _ _ _ _ D1 D2 D3 D4), (exec_year _ _ _ _ _ _ E1 E2 E3 E4).
  set (l := list_ascii_of_string text).
  set (B := [(1%nat, [d1; d2; d3; d4])]). set (B' := [(1%nat, [e1; e2; e3; e4])]).
  assert (Hstart : sim B B' (MState (Some d4) l B) (MState (Some e4) l B')).
  { split; [reflexivity|]. split; [|now exists []]. cbn [prev word_at].
    now rewrite !IpFacts.isdecimal_isword. }
  pose proof (exec_sim B B' (sim B B') format_tail _ _ Some Some Hstart
                (λ s s' Hss, Hss)) as H.
  destruct (exec format_tail (MState (Some d4) l B) Some) as [st|];
    destruct (exec format_tail (MState (Some e4) l B') Some) as [st'|];
    cbn [fmap option_fmap option_map both] in *; try exact H.
  destruct H as (Er & _ & new & C1 & C2).
  unfold mk_match, group, consumed, start. cbn [whole captures rest].
  rewrite C1, C2, Er. split.
  - assert (Hlen : ∀ a : list ascii,
              String.length (string_of_list_ascii a) = length a).
    { induction a as [|x a IH]; [reflexivity|]. simpl. now rewrite IH. }
    rewrite !Hlen, !length_take. cbn [length]. reflexivity.
  - intros i Hi. rewrite !map_app. cbn [map]. now apply assoc_base.
Qed.

(** [strptime] reads the year in the first four digits and the other
    fields in what follows, and the year plays no part in how it reads
    these. *)
Lemma strptime_dated (y : Z) (text : string) :
  1000 <= y <= 9999 →
  Datetime.strptime (str_of_int y +:+ text) = dated y (stamp_fields text).
Proof.
  intros Hy.
  destruct (str_of_int_year y Hy) as (a & b & c & e & Ha & Hb & Hc & He & Ey & ->).
  assert (Da : isdecimal (digit_char a) = true) by (apply digit_char_decimal; lia).
  assert (Db : isdecimal (digit_char b) = true) by (apply digit_char_decimal; lia).
  assert (Dc : isdecimal (digit_char c) = true) by (apply digit_char_decimal; lia).
  assert (De : isdecimal (digit_char e) = true) by (apply digit_char_decimal; lia).
  rewrite four_yyyy. unfold Datetime.strptime, stamp_fields.
  change ("2000" +:+ text) with (yyyy "2" "0" "0" "0" text).
  pose proof (re_match_any_year _ _ _ _ "2" "0" "0" "0" text Da Db Dc De
                eq_refl eq_refl eq_refl eq_refl) as H.
  pose proof (λ found, re_match_year_group _ _ _ _ text found Da Db Dc De) as Hg.
  destruct (re_match Datetime.format_regex (yyyy (digit_char a) _ _ _ text))
    as [found|];
    destruct (re_match Datetime.format_regex (yyyy "2" "0" "0" "0" text))
      as [found'|];
    cbn [both] in H; try contradiction; [|reflexivity].
  destruct H as [Hlen Hgroups]. rewrite <- Hlen.
  replace (String.length (yyyy "2" "0" "0" "0" text))
    with (String.length (yyyy (digit_char a) (digit_char b) (digit_char c)
                           (digit_char e) text)) by reflexivity.
  destruct (negb _); [reflexivity|].
  unfold Datetime.field.
  rewrite <- (Hgroups 2%nat), <- (Hgroups 3%nat), <- (Hgroups 4%nat),
    <- (Hgroups 5%nat), <- (Hgroups 6%nat) by discriminate.
  destruct (Datetime.index_of _ _) as [i|]; [|reflexivity].
  cbn [dated]. rewrite (Hg found eq_refl).
  cbn [default from_option id].
  change (yyyy _ _ _ _ "") with (four a b c e).
  rewrite int_four by lia. now rewrite <- Ey.
Qed.

(** The same fields in two years: the two dates differ in the year only. *)
Lemma dated_two_years (y1 y2 : Z) (fields : option (Z * Z * Z * Z * Z))
    (a b : Datetime.datetime) :
  dated y1 fields = Ok a → dated y2 fields = Ok b →
  Datetime.year a = y1
  ∧ b = Datetime.MkDatetime y2 (Datetime.month a) (Datetime.day a)
          (Datetime.hour a) (Datetime.minute a) (Datetime.second a).
Proof.
  destruct fields as [[[[[mo d] h] mi] s]|]; [|discriminate]. cbn [dated].
  intros Ha Hb. apply make_valid in Ha as [-> _]. apply make_valid in Hb as [-> _].
  now split.
Qed.

(** Fields that make a date in one year and none in another year are those
    of 29 February. *)
Lemma dated_leap_day (y1 y2 : Z) (fields : option (Z * Z * Z * Z * Z))
    (a : Datetime.datetime) (e : exn) :
  1 <= y2 <= 9999 →
  dated y1 fields = Ok a → dated y2 fields = Raise e →
  Datetime.month a = 2 ∧ Datetime.day a = 29
  ∧ Datetime.is_leap y1 = true ∧ Datetime.is_leap y2 = false.
Proof.
  destruct fields as [[[[[mo d] h] mi] s]|]; [|discriminate]. cbn [dated].
  intros Hy Ha Hb. apply make_valid in Ha as [-> Hv].
  destruct Hv as (_ & Hmo & Hd & Hh & Hmi & Hs). cbn in Hmo, Hd, Hh, Hmi, Hs.
  unfold Datetime.make in Hb.
  rewrite (in_range_true 1 9999 y2 Hy), (in_range_true 1 12 mo Hmo),
    (in_range_true 0 23 h Hh), (in_range_true 0 59 mi Hmi),
    (in_range_true 0 59 s Hs) in Hb.
  cbn [andb] in Hb. rewrite !andb_true_r in Hb.
  destruct (Datetime.in_range 1 (Datetime.days_in_month y2 mo) d) eqn:E;
    [discriminate|].
  unfold Datetime.in_range in E. cbn.
  unfold Datetime.days_in_month in *.
  destruct (mo =? 2) eqn:Emo.
  - apply Z.eqb_eq in Emo.
    destruct (Datetime.is_leap y1), (Datetime.is_leap y2);
      apply andb_false_iff in E as [E|E];
      try (apply Z.leb_gt in E); repeat split; lia.
  - destruct (_ || _)%bool; apply andb_false_iff in E as [E|E];
      apply Z.leb_gt in E; lia.
Qed.

End ClockFacts.

(** ** Two calls of the per-line transform *)

Section Clock.
Import Py PidFacts StampFacts ClockFacts.
Local Open Scope Z_scope.

(** The date and time [dt] in the year [y]. *)
Definition at_year (y : Z) (dt : Datetime.datetime) : Datetime.datetime :=
  Datetime.MkDatetime y (Datetime.month dt) (Datetime.day dt)
    (Datetime.hour dt) (Datetime.minute dt) (Datetime.second dt).

Definition leap_day (dt : Datetime.datetime) : Prop :=
  Datetime.month dt = 2 ∧ Datetime.day dt = 29.

(** The record [e] with another time stamp. *)
Definition stamped (dt : Datetime.datetime) (e : AuthLogCollectorDB.event)
  : AuthLogCollectorDB.event :=
  {| AuthLogCollectorDB.timestamp := dt;
     AuthLogCollectorDB.hostname := AuthLogCollectorDB.hostname e;
     AuthLogCollectorDB.process := AuthLogCollectorDB.process e;
     AuthLogCollectorDB.pid := AuthLogCollectorDB.pid e;
     AuthLogCollectorDB.event_type := AuthLogCollectorDB.event_type e;
     AuthLogCollectorDB.user_name := AuthLogCollectorDB.user_name e;
     AuthLogCollectorDB.ip_address := AuthLogCollectorDB.ip_address e;
     AuthLogCollectorDB.message := AuthLogCollectorDB.message e;
     AuthLogCollectorDB.risk_score := AuthLogCollectorDB.risk_score e;
     AuthLogCollectorDB.raw_log := AuthLogCollectorDB.raw_log e |}.

Definition stamped_console (dt : Datetime.datetime) (e : AuthLogCollector.event)
  : AuthLogCollector.event :=
  {| AuthLogCollector.timestamp := Datetime.isoformat dt;
     AuthLogCollector.hostname := AuthLogCollector.hostname e;
     AuthLogCollector.process := AuthLogCollector.process e;
     AuthLogCollector.pid := AuthLogCollector.pid e;
     AuthLogCollector.event_type := AuthLogCollector.event_type e;
     AuthLogCollector.user := AuthLogCollector.user e;
     AuthLogCollector.ip_address := AuthLogCollector.ip_address e;
     AuthLogCollector.message := AuthLogCollector.message e;
     AuthLogCollector.risk_score := AuthLogCollector.risk_score e;
     AuthLogCollector.raw_log := AuthLogCollector.raw_log e |}.

(** The text of the time stamp of a line, as [strptime] reads it after the
    year. *)
Definition stamp_text (m : Re.Match) : string :=
  " " +:+ default "" (Re.group m 1).

Lemma strptime_stamp (y : Z) (m : Re.Match) :
  1000 <= y <= 9999 →
  Datetime.strptime (stamp_of y m) = dated y (stamp_fields (stamp_text m)).
Proof. intros Hy. unfold stamp_of. now apply strptime_dated. Qed.

(** The entry ['pid'] is the same under every limit that lets [int]
    return. *)
Lemma db_pid_value (w1 w2 : world) (m : Re.Match) (p1 p2 : option Z) :
  db_pid w1 m = Ok p1 → db_pid w2 m = Ok p2 → p1 = p2.
Proof.
  unfold db_pid. destruct (Re.group m 4) as [p|]; [|congruence].
  destruct (truthy p); [|congruence].
  destruct (int (int_max_str_digits w1) p) as [n1|] eqn:E1; [|discriminate].
  destruct (int (int_max_str_digits w2) p) as [n2|] eqn:E2; [|discriminate].
  cbn [mbind result_bind mret result_ret]. intros [= <-] [= <-].
  now rewrite (int_value _ _ _ _ _ E1 E2).
Qed.

Lemma db_pid_limit (w1 w2 : world) (m : Re.Match) :
  int_max_str_digits w1 = int_max_str_digits w2 → db_pid w1 m = db_pid w2 m.
Proof. unfold db_pid. now intros ->. Qed.

(** C8, as amended.  The classifier and the scorer depend on nothing but
    their arguments: not on the collector object, and they read no other
    state.  The per-line transform reads the year of the clock, and the
    database-backed variant converts the process id under the
    interpreter's limit on the digits of an integer: two calls on the same
    line give the same result when the clock reads the same year and the
    limit is the same.  Whatever the two years, the two calls agree on
    whether the line is skipped, and two records they return are the same
    but for the year of the time stamp, which is the year the clock read
    at each call, so the same record when the years are the same.  One
    call returns a record where the other raises only on a line dated 29
    February, when the year of the other call is no leap year, or when the
    limits differ. *)
Theorem parse_log_line_same_but_for_the_year
    (w1 w2 : world)
    (c1 c2 : AuthLogCollector.collector) (d1 d2 : AuthLogCollectorDB.collector)
    (process event_type message line : string) :
  AuthLogCollector._detect_event_type c1 process message
    = AuthLogCollector._detect_event_type c2 process message
  ∧ AuthLogCollectorDB._detect_event_type d1 process message
    = AuthLogCollectorDB._detect_event_type d2 process message
  ∧ AuthLogCollector._calculate_risk c1 event_type message
    = AuthLogCollector._calculate_risk c2 event_type message
  ∧ AuthLogCollectorDB._calculate_risk d1 event_type message
    = AuthLogCollectorDB._calculate_risk d2 event_type message
  ∧ (Datetime.year (now w1) = Datetime.year (now w2) →
     AuthLogCollector.parse_log_line w1 c1 line
       = AuthLogCollector.parse_log_line w2 c2 line
     ∧ (int_max_str_digits w1 = int_max_str_digits w2 →
        AuthLogCollectorDB.parse_log_line w1 d1 line
        = AuthLogCollectorDB.parse_log_line w2 d2 line))
  ∧ (1000 <= Datetime.year (now w1) <= 9999 →
     1000 <= Datetime.year (now w2) <= 9999 →
     match AuthLogCollectorDB.parse_log_line w1 d1 line,
           AuthLogCollectorDB.parse_log_line w2 d2 line with
     | Ok None, Ok None => True
     | Ok (Some a), Ok (Some b) =>
         Datetime.year (AuthLogCollectorDB.timestamp a) = Datetime.year (now w1)
         ∧ b = stamped (at_year (Datetime.year (now w2))
                          (AuthLogCollectorDB.timestamp a)) a
         ∧ (Datetime.year (now w1) = Datetime.year (now w2) → b = a)
     | Ok (Some a), Raise _ =>
         leap_day (AuthLogCollectorDB.timestamp a)
         ∧ Datetime.is_leap (Datetime.year (now w2)) = false
         ∨ int_max_str_digits w1 ≠ int_max_str_digits w2
     | Raise _, Ok (Some b) =>
         leap_day (AuthLogCollectorDB.timestamp b)
         ∧ Datetime.is_leap (Datetime.year (now w1)) = false
         ∨ int_max_str_digits w1 ≠ int_max_str_digits w2
     | Raise e1, Raise e2 => e1 = e2
     | _, _ => False
     end
     ∧ match AuthLogCollector.parse_log_line w1 c1 line,
             AuthLogCollector.parse_log_line w2 c2 line with
       | Ok None, Ok None => True
       | Ok (Some a), Ok (Some b) =>
           ∃ dt, AuthLogCollector.timestamp a = Datetime.isoformat dt
                 ∧ Datetime.year dt = Datetime.year (now w1)
                 ∧ b = stamped_console (at_year (Datetime.year (now w2)) dt) a
       | Ok (Some a), Raise _ =>
           ∃ dt, AuthLogCollector.timestamp a = Datetime.isoformat dt
                 ∧ leap_day dt
                 ∧ Datetime.is_leap (Datetime.year (now w2)) = false
       | Raise _, Ok (Some b) =>
           ∃ dt, AuthLogCollector.timestamp b = Datetime.isoformat dt
                 ∧ leap_day dt
                 ∧ Datetime.is_leap (Datetime.year (now w1)) = false
       | Raise e1, Raise e2 => e1 = e2
       | _, _ => False
       end).
Proof.
  repeat (split; [reflexivity|]). split.
  { intros Hy. rewrite !parse_log_line_eq, !parse_log_line_db_eq, Hy.
    split; [reflexivity|]. intros Hl.
    destruct (Re.re_match AuthLogCollector.pattern line) as [m|]; [|reflexivity].
    now rewrite (db_pid_limit w1 w2 m Hl). }
  intros Hy1 Hy2. rewrite !parse_log_line_eq, !parse_log_line_db_eq.
  destruct (Re.re_match AuthLogCollector.pattern line) as [m|]; [|now split].
  rewrite (strptime_stamp _ m Hy1), (strptime_stamp _ m Hy2).
  set (fields := stamp_fields (stamp_text m)).
  destruct (dated (Datetime.year (now w1)) fields) as [dt1|e1] eqn:E1;
    destruct (dated (Datetime.year (now w2)) fields) as [dt2|e2] eqn:E2.
  - destruct (dated_two_years _ _ _ _ _ E1 E2) as [Hyear ->]. split.
    + destruct (db_pid w1 m) as [p1|x1] eqn:P1;
        destruct (db_pid w2 m) as [p2|x2] eqn:P2.
      * rewrite (db_pid_value _ _ _ _ _ P1 P2).
        split; [exact Hyear|]. split; [reflexivity|].
        intros <-. rewrite <- Hyear. now destruct dt1.
      * right. intros Hl. rewrite (db_pid_limit w1 w2 m Hl) in P1. congruence.
      * right. intros Hl. rewrite (db_pid_limit w1 w2 m Hl) in P1. congruence.
      * now destruct x1, x2.
    + exists dt1. repeat split. exact Hyear.
  - assert (Hy2' : 1 <= Datetime.year (now w2) <= 9999) by lia.
    destruct (dated_leap_day _ _ _ _ _ Hy2' E1 E2) as (Hm & Hd & _ & Hl).
    split.
    + destruct (db_pid w1 m) as [p1|x1]; [|now destruct x1, e2].
      left. now repeat split.
    + exists dt1. now repeat split.
  - assert (Hy1' : 1 <= Datetime.year (now w1) <= 9999) by lia.
    destruct (dated_leap_day _ _ _ _ _ Hy1' E2 E1) as (Hm & Hd & _ & Hl).
    split.
    + destruct (db_pid w2 m) as [p2|x2]; [|now destruct x2, e1].
      left. now repeat split.
    + exists dt2. now repeat split.
  - now destruct e1, e2.
Qed.
End Clock.

(** C8, as stated, fails: the same line parsed when the clock reads 2024
    and when it reads 2025 gives two different records, in both collectors;
    a line dated 29 February gives a record in 2024 and an exception in
    2025. *)
Lemma parse_log_line_differs_across_years :
  AuthLogCollector.parse_log_line (Sample.world_of 2024 None) Sample.console
    Sample.failed_password
  ≠ AuthLogCollector.parse_log_line (Sample.world_of 2025 None) Sample.console
      Sample.failed_password
  ∧ AuthLogCollectorDB.parse_log_line (Sample.world_of 2024 None) Sample.db
      Sample.failed_password
    ≠ AuthLogCollectorDB.parse_log_line (Sample.world_of 2025 None) Sample.db
        Sample.failed_password
  ∧ (∃ e, AuthLogCollectorDB.parse_log_line (Sample.world_of 2024 None)
            Sample.db "Feb 29 08:00:00 myhost sshd[7]: Accepted password for bob"
          = Py.Ok (Some e))
  ∧ AuthLogCollectorDB.parse_log_line (Sample.world_of 2025 None)
      Sample.db "Feb 29 08:00:00 myhost sshd[7]: Accepted password for bob"
    = Py.Raise Py.ValueError.
Proof.
  split; [vm_compute; discriminate|].
  split; [vm_compute; discriminate|].
  split; [eexists; vm_compute; reflexivity|].
  vm_compute. reflexivity.
Qed.

Lemma parse_log_line_same_but_for_the_year_witness :
  (1000 <= 2024 <= 9999)%Z ∧ (1000 <= 2025 <= 9999)%Z
  ∧ ∃ a b,
      AuthLogCollectorDB.parse_log_line (Sample.world_of 2024 None) Sample.db
        Sample.failed_password = Py.Ok (Some a)
      ∧ AuthLogCollectorDB.parse_log_line (Sample.world_of 2025 None) Sample.db
          Sample.failed_password = Py.Ok (Some b)
      ∧ Datetime.year (AuthLogCollectorDB.timestamp a) = 2024%Z
      ∧ b = stamped (at_year 2025 (AuthLogCollectorDB.timestamp a)) a
      ∧ AuthLogCollectorDB.timestamp b = Datetime.MkDatetime 2025 1 21 22 4 35.
Proof.
  split; [lia|]. split; [lia|].
  assert (Ea : ∃ a, AuthLogCollectorDB.parse_log_line (Sample.world_of 2024 None)
                      Sample.db Sample.failed_password = Py.Ok (Some a))
    by (eexists; vm_compute; reflexivity).
  assert (Eb : ∃ b, AuthLogCollectorDB.parse_log_line (Sample.world_of 2025 None)
                      Sample.db Sample.failed_password = Py.Ok (Some b)
                    ∧ AuthLogCollectorDB.timestamp b
                      = Datetime.MkDatetime 2025 1 21 22 4 35)
    by (eexists; split; vm_compute; reflexivity).
  destruct Ea as [a Ea]. destruct Eb as (b & Eb & Hb). exists a, b.
  split; [exact Ea|]. split; [exact Eb|].
  destruct (parse_log_line_same_but_for_the_year
              (Sample.world_of 2024 None) (Sample.world_of 2025 None)
              Sample.console Sample.console Sample.db Sample.db
              "" "" "" Sample.failed_password) as (_ & _ & _ & _ & _ & H).
  destruct H as [H _]; [cbn; lia | cbn; lia |].
  rewrite Ea, Eb in H. destruct H as (Hy & Hs & _).
  split; [exact Hy|]. split; [exact Hs | exact Hb].
Defined.
